(** * Chamfer matching: a shallow embedding of [Chamfer.cpp]

    The development follows the C++ source function by function.

    - An OpenCV matrix is a continuous row-major buffer with its dimensions;
      [ptr<T>(y)[x]] is the element [y * cols + x] of the buffer.
    - A C++ [int] is an integer of [Z]; sums and products are taken to fit
      (signed overflow is undefined in C++), but for two places: the area
      of a box and the edges that [nonMaximaSuppression] compares wrap
      around as on the machine, and the size of the array that
      [loadTemplateData] allocates has no value when it does not fit.  The
      binary file holds the four
      bytes of an [int], read back in two's complement.
    - [float] and [double] values are IEEE 754 values of [spec_float], with
      the operations of the standard library's specification ([SFadd],
      [SFmul], [SFdiv]) at precision 24 or 53, so that a division by zero is
      an infinity or NaN as on the machine.
    - The matcher object is a record threaded through the member functions;
      what is written to [std::cerr] is one of its fields.
    - Reads and writes outside a buffer, OpenCV assertions that throw, and
      loops that do not end are the [None] of an error monad.
    - [std::map] is an association list kept in key order, [std::vector] a
      list.  [#pragma omp parallel for] loops write disjoint cells and are
      run in order. *)

From Stdlib Require Import ZArith List Bool Lia String Sorted Permutation.
From Stdlib Require Import SpecFloat.
From Stdlib Require Import Strings.Byte.
Import ListNotations.
Local Open Scope Z_scope.

(** ** IEEE 754 numbers *)

Module IEEE.

(** C++ [float] is binary32 and [double] is binary64.  Both live in
    [spec_float]; what differs is the precision an operation rounds to. *)
Definition float := spec_float.
Definition double := spec_float.

Definition f32_add : float -> float -> float := SFadd 24 128.
Definition f32_sub : float -> float -> float := SFsub 24 128.
Definition f32_mul : float -> float -> float := SFmul 24 128.
Definition f32_abs : float -> float := SFabs.

Definition f64_add : double -> double -> double := SFadd 53 1024.
Definition f64_sub : double -> double -> double := SFsub 53 1024.
Definition f64_mul : double -> double -> double := SFmul 53 1024.
Definition f64_div : double -> double -> double := SFdiv 53 1024.

(** Every binary32 value is a binary64 value: the promotion keeps it. *)
Definition f64_of_f32 (x : float) : double := x.

(** Narrowing rounds the value to 24 bits. *)
Definition f32_of_f64 (x : double) : float :=
  match x with
  | S754_finite s m e => binary_round 24 128 s m e
  | _ => x
  end.

Definition f64_of_int (n : Z) : double := binary_normalize 53 1024 n 0 false.
Definition f32_of_int (n : Z) : float := binary_normalize 24 128 n 0 false.

(** Conversion of a double to [int]: truncation toward zero (the C++
    result is undefined outside the range of [int] and for NaN). *)
Definition f64_to_int (x : double) : Z :=
  match x with
  | S754_finite s m e =>
      cond_Zopp s (if 0 <=? e then Zpos m * 2 ^ e else Zpos m / 2 ^ (- e))
  | _ => 0
  end.

Definition is_nan (x : spec_float) : bool :=
  match x with S754_nan => true | _ => false end.

Definition is_infinite (x : spec_float) : bool :=
  match x with S754_infinity _ => true | _ => false end.

Definition FLT_MAX : float := SFmax_float 24 128.
Definition DBL_MAX : double := SFmax_float 53 1024.
Definition f_zero : spec_float := S754_zero false.
Definition f_inf : spec_float := S754_infinity false.

(** A finite value [m * 2^e] is the integer [aligned x E] times [2^E], for
    every [E] that is not above [e]; a zero is the integer 0. *)
Definition aligned (x : spec_float) (E : Z) : Z :=
  match x with
  | S754_finite s m e => cond_Zopp s (Zpos m * 2 ^ (e - E))
  | _ => 0
  end.

Definition common_exponent (x y : spec_float) : Z :=
  match x, y with
  | S754_finite _ _ e1, S754_finite _ _ e2 => Z.min e1 e2
  | S754_finite _ _ e1, _ => e1
  | _, S754_finite _ _ e2 => e2
  | _, _ => 0
  end.

(** IEEE comparison is by value: [-0 = +0], NaN is unordered.  (On the
    normalised numbers of one format it is [SFcompare]; by value it also
    compares a [float] with a [double].) *)
Definition fcompare (x y : spec_float) : option comparison :=
  match x, y with
  | S754_nan, _ | _, S754_nan => None
  | S754_infinity s1, S754_infinity s2 =>
      Some (match s1, s2 with
            | true, false => Lt
            | false, true => Gt
            | _, _ => Eq
            end)
  | S754_infinity s, _ => Some (if s then Lt else Gt)
  | _, S754_infinity s => Some (if s then Gt else Lt)
  | _, _ =>
      let E := common_exponent x y in
      Some (aligned x E ?= aligned y E)
  end.

Definition finite_or_zero (x : spec_float) : Prop :=
  match x with S754_finite _ _ _ | S754_zero _ => True | _ => False end.

Definition exponent_ge (x : spec_float) (E : Z) : Prop :=
  match x with S754_finite _ _ e => E <= e | _ => True end.

Definition three_exponent (x y z : spec_float) : Z :=
  Z.min (common_exponent x y) (Z.min (common_exponent y z) (common_exponent x z)).

Definition fltb (x y : spec_float) : bool :=
  match fcompare x y with Some Lt => true | _ => false end.

Definition fleb (x y : spec_float) : bool :=
  match fcompare x y with Some (Lt | Eq) => true | _ => false end.

Definition feqb (x y : spec_float) : bool :=
  match fcompare x y with Some Eq => true | _ => false end.

End IEEE.
Export IEEE.

(** ** OpenCV value types *)

Record Point : Type := mkPoint { pt_x : Z; pt_y : Z }.

Definition Point_add (a b : Point) : Point :=
  mkPoint (pt_x a + pt_x b) (pt_y a + pt_y b).

Record Rect : Type := mkRect
  { r_x : Z; r_y : Z; r_width : Z; r_height : Z }.

(** [cv::Rect(pt1, pt2)] *)
Definition Rect_of_points (pt1 pt2 : Point) : Rect :=
  let x := Z.min (pt_x pt1) (pt_x pt2) in
  let y := Z.min (pt_y pt1) (pt_y pt2) in
  mkRect x y (Z.max (pt_x pt1) (pt_x pt2) - x) (Z.max (pt_y pt1) (pt_y pt2) - y).

(** The result of an [int] operation that leaves the range of [int]: the
    two's complement wrap-around of the machine. *)
Definition wrap_int (z : Z) : Z := (z + 2 ^ 31) mod 2 ^ 32 - 2 ^ 31.

(** [cv::Rect::area()]: the product of two [int]s. *)
Definition Rect_area (r : Rect) : Z := wrap_int (r_width r * r_height r).

(** [a & b]: the intersection, the zero rectangle when it is empty. *)
Definition Rect_and (a b : Rect) : Rect :=
  let x1 := Z.max (r_x a) (r_x b) in
  let y1 := Z.max (r_y a) (r_y b) in
  let w := Z.min (r_x a + r_width a) (r_x b + r_width b) - x1 in
  let h := Z.min (r_y a + r_height a) (r_y b + r_height b) - y1 in
  if (w <=? 0) || (h <=? 0) then mkRect 0 0 0 0 else mkRect x1 y1 w h.

(** ** Detections *)

Record Detection_t : Type := mkDetection
  { m_boundingBox : Rect;
    m_chamferDist : double;
    m_scale : float;
    m_templateIndex : Z }.

(** Modelled from the spec: the constructor of [Detection_t] is declared in
    [Chamfer.hpp]; a detection is "unassigned" until a template id is given,
    which is the index [-1] that [groupDetections] also starts from. *)
Definition Detection_new (r : Rect) (dist : double) (scale : float) : Detection_t :=
  mkDetection r dist scale (-1).

Definition set_templateIndex (id : Z) (d : Detection_t) : Detection_t :=
  mkDetection (m_boundingBox d) (m_chamferDist d) (m_scale d) id.

(** Insertion into a list ordered by a strict comparison; the model of
    [std::sort] inserts every element after its equivalents.  [std::sort]
    asks for a strict weak order and leaves the order of equivalent elements
    open; the comparison of detections by cost is no such order when a cost
    is NaN, and the standard then fixes no result.  What is proved of the
    order of a sorted vector is proved for costs that are numbers. *)
Section Sort.
Context {A : Type} (lt : A -> A -> bool).

Fixpoint sort_insert (a : A) (l : list A) : list A :=
  match l with
  | [] => [a]
  | b :: l' => if lt a b then a :: l else b :: sort_insert a l'
  end.

Definition std_sort (l : list A) : list A := fold_left (fun acc a => sort_insert a acc) l [].
End Sort.

(** Modelled from the spec: [operator<] of [Detection_t] is declared in
    [Chamfer.hpp]; detections order by ascending cost. *)
Definition Detection_lt (a b : Detection_t) : bool :=
  fltb (m_chamferDist a) (m_chamferDist b).

(** Modelled from the spec: the comparator [less_than_area] is declared in
    [Chamfer.hpp]; non-maximum suppression sorts by box area, ascending. *)
Definition less_than_area (a b : Detection_t) : bool :=
  Rect_area (m_boundingBox a) <? Rect_area (m_boundingBox b).

(** ** Non-maximum suppression *)

(** The test of the inner loop: [r1] lies strictly inside [r2].  The sums
    are sums of [int]s. *)
Definition is_inside (r1 r2 : Rect) : bool :=
  (wrap_int (r_x r1 + r_width r1) <? wrap_int (r_x r2 + r_width r2)) &&
  (r_x r2 <? r_x r1) &&
  (wrap_int (r_y r1 + r_height r1) <? wrap_int (r_y r2 + r_height r2)) &&
  (r_y r2 <? r_y r1).

(** The loop over [cpt1]: the inner loop over [cpt2 > cpt1] looks at the
    detections that follow in the sorted copy and stops at the first one
    that contains [r1]. *)
Fixpoint nms_loop (detections_copy maximaDetections : list Detection_t)
  : list Detection_t :=
  match detections_copy with
  | [] => maximaDetections
  | d :: rest =>
      let is_in := existsb (fun d2 => is_inside (m_boundingBox d) (m_boundingBox d2)) rest in
      nms_loop rest (if is_in then maximaDetections else maximaDetections ++ [d])
  end.

Definition nonMaximaSuppression (detections maximaDetections : list Detection_t)
  : list Detection_t :=
  nms_loop (std_sort less_than_area detections) maximaDetections.

(** A box of a non-negative width and height, with a corner, a right and a
    bottom edge and an area that an [int] holds: the arithmetic of the loop
    is exact on it. *)
Definition rect_fits (r : Rect) : Prop :=
  0 <= r_width r /\ 0 <= r_height r /\
  - 2 ^ 31 <= r_x r /\ r_x r + r_width r < 2 ^ 31 /\
  - 2 ^ 31 <= r_y r /\ r_y r + r_height r < 2 ^ 31 /\
  r_width r * r_height r < 2 ^ 31.

Definition box_wf (d : Detection_t) : Prop := rect_fits (m_boundingBox d).

Definition area_le (a b : Detection_t) : Prop :=
  Rect_area (m_boundingBox a) <= Rect_area (m_boundingBox b).

(** The detections the loop over [cpt1] pushes. *)
Fixpoint survivors (l : list Detection_t) : list Detection_t :=
  match l with
  | [] => []
  | d :: rest =>
      if existsb (fun d2 => is_inside (m_boundingBox d) (m_boundingBox d2)) rest
      then survivors rest else d :: survivors rest
  end.



(** ** The error monad

    [None] stands for an execution that leaves defined behaviour: a read or a
    write outside a buffer, an OpenCV assertion that throws, or a loop that
    runs out of the fuel it was given. *)

Notation "x <- c ;; k" := (match c with Some x => k | None => None end)
  (at level 61, c at next level, right associativity).

Notation "' p <- c ;; k" := (match c with Some p => k | None => None end)
  (at level 61, p pattern, c at next level, right associativity).

(** ** [cv::Mat]: a continuous row-major buffer *)

Record Mat (A : Type) : Type := mkMat
  { rows : Z; cols : Z; data : list A }.

Arguments mkMat {A} _ _ _.
Arguments rows {A} _.
Arguments cols {A} _.
Arguments data {A} _.

(** A default-constructed matrix. *)
Definition Mat_new {A : Type} : Mat A := mkMat 0 0 [].

(** [cv::Mat::empty()] *)
Definition Mat_empty {A : Type} (m : Mat A) : bool :=
  (rows m * cols m =? 0) || (Nat.eqb (List.length (data m)) 0).

(** [m.ptr<T>(y)[x]] and [m.at<T>(y, x)]: element [y * cols + x] of the
    buffer; release builds of OpenCV do no bounds check. *)
Definition Mat_ptr {A : Type} (m : Mat A) (y x : Z) : option A :=
  let i := y * cols m + x in
  if i <? 0 then None else nth_error (data m) (Z.to_nat i).

Fixpoint list_set {A : Type} (l : list A) (n : nat) (v : A) : option (list A) :=
  match l, n with
  | [], _ => None
  | _ :: l', O => Some (v :: l')
  | a :: l', S n' => l'' <- list_set l' n' v ;; Some (a :: l'')
  end.

(** [m.ptr<T>(y)[x] = v] *)
Definition Mat_set {A : Type} (m : Mat A) (y x : Z) (v : A) : option (Mat A) :=
  let i := y * cols m + x in
  if i <? 0 then None
  else d <- list_set (data m) (Z.to_nat i) v ;; Some (mkMat (rows m) (cols m) d).

(** A [h x w] matrix filled with [v]. *)
Definition Mat_fill {A : Type} (h w : Z) (v : A) : Mat A :=
  mkMat h w (repeat v (Z.to_nat (h * w))).

(** [m(roi)]: the sub-matrix header; OpenCV asserts that the rectangle lies
    inside the matrix. *)
Definition Mat_roi {A : Type} (m : Mat A) (roi : Rect) : option (Mat A) :=
  if (0 <=? r_x roi) && (0 <=? r_width roi) && (r_x roi + r_width roi <=? cols m) &&
     (0 <=? r_y roi) && (0 <=? r_height roi) && (r_y roi + r_height roi <=? rows m)
  then
    Some (mkMat (r_height roi) (r_width roi)
            (flat_map
               (fun i => firstn (Z.to_nat (r_width roi))
                           (skipn (Z.to_nat ((r_y roi + Z.of_nat i) * cols m + r_x roi)) (data m)))
               (seq 0 (Z.to_nat (r_height roi)))))
  else None.

Definition same_size {A B : Type} (a : Mat A) (b : Mat B) : bool :=
  (rows a =? rows b) && (cols a =? cols b).

Fixpoint map2 {A B C : Type} (f : A -> B -> C) (l1 : list A) (l2 : list B) : list C :=
  match l1, l2 with
  | a :: l1', b :: l2' => f a b :: map2 f l1' l2'
  | _, _ => []
  end.

(** [cv::absdiff] on [CV_32F] matrices of one size. *)
Definition absdiff (a b : Mat float) : option (Mat float) :=
  if same_size a b
  then Some (mkMat (rows a) (cols a)
               (map2 (fun p q => f32_abs (f32_sub p q)) (data a) (data b)))
  else None.

(** [cv::sum(m).val[0]]: the elements added up in a [double]. *)
Definition Mat_sum (m : Mat float) : double :=
  fold_left (fun acc v => f64_add acc (f64_of_f32 v)) (data m) f_zero.

(** [src.copyTo(dst, mask)] into a fresh [dst]: zero where the mask is. *)
Definition copyTo_masked (src : Mat float) (mask : Mat Z) : option (Mat float) :=
  if same_size src mask
  then Some (mkMat (rows src) (cols src)
               (map2 (fun v k => if k =? 0 then f_zero else v) (data src) (data mask)))
  else None.

(** [cv::bitwise_or] on [CV_8U] matrices of one size. *)
Definition bitwise_or (a b : Mat Z) : option (Mat Z) :=
  if same_size a b
  then Some (mkMat (rows a) (cols a) (map2 Z.lor (data a) (data b)))
  else None.

(** [cv::countNonZero] *)
Definition countNonZero (m : Mat Z) : Z :=
  Z.of_nat (List.length (filter (fun k => negb (k =? 0)) (data m))).

(** [cv::minMaxLoc] on a [CV_32F] matrix, the minimum only: OpenCV scans the
    buffer once, starts from [+inf] and keeps the first element that is
    strictly below the running minimum; when no element is, the location is
    the first cell.  [idx] counts from 1, [0] is "none yet". *)
Fixpoint minScan (l : list float) (idx : Z) (minVal : float) (minIdx : Z) : float * Z :=
  match l with
  | [] => (minVal, minIdx)
  | val :: l' =>
      if fltb val minVal then minScan l' (idx + 1) val idx
      else minScan l' (idx + 1) minVal minIdx
  end.

Definition minMaxLoc (m : Mat float) : double * Point :=
  let '(minVal, minIdx) := minScan (data m) 1 f_inf 0 in
  let minIdx := if minIdx =? 0 then 1 else minIdx in
  (f64_of_f32 minVal, mkPoint ((minIdx - 1) mod cols m) ((minIdx - 1) / cols m)).

(** ** [std::map]: association lists ordered by the key *)

Section OrderedMap.
Context {K V : Type} (ltb : K -> K -> bool).

(** Two keys are the same key when neither is below the other. *)
Definition key_equiv (k1 k2 : K) : bool := negb (ltb k1 k2) && negb (ltb k2 k1).

(** [m.find(k)] *)
Fixpoint map_find (k : K) (m : list (K * V)) : option V :=
  match m with
  | [] => None
  | (k', v) :: m' => if key_equiv k k' then Some v else map_find k m'
  end.

(** [m[k] = v]: the entry of an existing key keeps its key object. *)
Fixpoint map_insert (k : K) (v : V) (m : list (K * V)) : list (K * V) :=
  match m with
  | [] => [(k, v)]
  | (k', v') :: m' =>
      if ltb k k' then (k, v) :: m
      else if ltb k' k then (k', v') :: map_insert k v m'
      else (k', v) :: m'
  end.

(** [m[k]] read: the default value when the key is absent. *)
Definition map_get (d : V) (k : K) (m : list (K * V)) : V :=
  match map_find k m with Some v => v | None => d end.

End OrderedMap.

Definition IntMap (V : Type) : Type := list (Z * V).
Definition FloatMap (V : Type) : Type := list (float * V).


(** ** The data of a template and of the query *)

(** An 8-bit image: [channels] interleaved bytes per pixel, row-major. *)
Record Image : Type := mkImage
  { img_rows : Z; img_cols : Z; img_channels : Z; img_data : list byte }.

Record Line_info_t : Type := mkLine
  { m_length : double; m_rho : double; m_theta : double;
    m_pointStart : Point; m_PointEnd : Point }.

Record Template_info_t : Type := mkTemplate
  { m_contours : list (list Point);
    m_distImg : Mat float;
    m_edgesOrientation : list (list float);
    m_gridDescriptors : list (float * float);
    m_gridDescriptorsLocations : list Point;
    m_mapOfEdgeOrientation : Mat float;
    m_mask : Mat Z;
    m_vectorOfContourLines : list (list Line_info_t);
    m_queryROI : Rect;
    m_templateLocation : Rect }.

Definition set_templateLocation (r : Rect) (t : Template_info_t) : Template_info_t :=
  mkTemplate (m_contours t) (m_distImg t) (m_edgesOrientation t) (m_gridDescriptors t)
    (m_gridDescriptorsLocations t) (m_mapOfEdgeOrientation t) (m_mask t)
    (m_vectorOfContourLines t) (m_queryROI t) r.

Definition set_queryROI (r : Rect) (t : Template_info_t) : Template_info_t :=
  mkTemplate (m_contours t) (m_distImg t) (m_edgesOrientation t) (m_gridDescriptors t)
    (m_gridDescriptorsLocations t) (m_mapOfEdgeOrientation t) (m_mask t)
    (m_vectorOfContourLines t) r (m_templateLocation t).

(** The members of [Query_info_t] carry the prefix [q_]. *)
Record Query_info_t : Type := mkQuery
  { q_contours : list (list Point);
    q_distImg : Mat float;
    q_img : Image;
    q_mapOfEdgeOrientation : Mat float;
    q_edgesOrientation : list (list float);
    q_mask : Mat Z;
    q_vectorOfContourLines : list (list Line_info_t) }.

Inductive MatchingStrategyType : Type := templateMatching | templatePoseMatching.

Inductive MatchingType : Type :=
  | edgeMatching | edgeForwardBackwardMatching
  | fullMatching | maskMatching | forwardBackwardMaskMatching
  | lineMatching | lineForwardBackwardMatching.

(** Modelled from the spec: the enumeration is declared in [Chamfer.hpp];
    the admission filter "may run first", so there is a value without it. *)
Inductive RejectionType : Type := noRejection | gridDescriptorRejection.

Definition MatchingStrategyType_eqb (a b : MatchingStrategyType) : bool :=
  match a, b with
  | templateMatching, templateMatching | templatePoseMatching, templatePoseMatching => true
  | _, _ => false
  end.

Definition MatchingType_eqb (a b : MatchingType) : bool :=
  match a, b with
  | edgeMatching, edgeMatching
  | edgeForwardBackwardMatching, edgeForwardBackwardMatching
  | fullMatching, fullMatching | maskMatching, maskMatching
  | forwardBackwardMaskMatching, forwardBackwardMaskMatching
  | lineMatching, lineMatching
  | lineForwardBackwardMatching, lineForwardBackwardMatching => true
  | _, _ => false
  end.

(** ** The matcher object

    [std_cerr] is the text written to [std::cerr] so far, one line per
    entry. *)
Record ChamferMatcher : Type := mkMatcher
  { m_cannyThreshold : double;
    m_maxDescriptorDistanceError : float;
    m_maxDescriptorOrientationError : float;
    m_minNbDescriptorMatches : Z;
    m_gridDescriptorSize : Z * Z;
    m_matchingStrategyType : MatchingStrategyType;
    m_matchingType : MatchingType;
    m_query_info : Query_info_t;
    m_mapOfTemplate_info : IntMap (FloatMap Template_info_t);
    m_mapOfTemplateImages : IntMap Image;
    m_rejectionType : RejectionType;
    m_scaleMax : float;
    m_scaleMin : float;
    m_scaleStep : float;
    std_cerr : list string }.

Definition set_query_info (q : Query_info_t) (st : ChamferMatcher) : ChamferMatcher :=
  mkMatcher (m_cannyThreshold st) (m_maxDescriptorDistanceError st)
    (m_maxDescriptorOrientationError st) (m_minNbDescriptorMatches st)
    (m_gridDescriptorSize st) (m_matchingStrategyType st) (m_matchingType st)
    q (m_mapOfTemplate_info st) (m_mapOfTemplateImages st)
    (m_rejectionType st) (m_scaleMax st) (m_scaleMin st) (m_scaleStep st) (std_cerr st).

Definition set_templates (info : IntMap (FloatMap Template_info_t)) (imgs : IntMap Image)
  (st : ChamferMatcher) : ChamferMatcher :=
  mkMatcher (m_cannyThreshold st) (m_maxDescriptorDistanceError st)
    (m_maxDescriptorOrientationError st) (m_minNbDescriptorMatches st)
    (m_gridDescriptorSize st) (m_matchingStrategyType st) (m_matchingType st)
    (m_query_info st) info imgs
    (m_rejectionType st) (m_scaleMax st) (m_scaleMin st) (m_scaleStep st) (std_cerr st).

Definition set_scaleRange (smin smax sstep : float) (st : ChamferMatcher) : ChamferMatcher :=
  mkMatcher (m_cannyThreshold st) (m_maxDescriptorDistanceError st)
    (m_maxDescriptorOrientationError st) (m_minNbDescriptorMatches st)
    (m_gridDescriptorSize st) (m_matchingStrategyType st) (m_matchingType st)
    (m_query_info st) (m_mapOfTemplate_info st) (m_mapOfTemplateImages st)
    (m_rejectionType st) smax smin sstep (std_cerr st).

(** [std::cerr << msg << std::endl] *)
Definition cerr (msg : string) (st : ChamferMatcher) : ChamferMatcher :=
  mkMatcher (m_cannyThreshold st) (m_maxDescriptorDistanceError st)
    (m_maxDescriptorOrientationError st) (m_minNbDescriptorMatches st)
    (m_gridDescriptorSize st) (m_matchingStrategyType st) (m_matchingType st)
    (m_query_info st) (m_mapOfTemplate_info st) (m_mapOfTemplateImages st)
    (m_rejectionType st) (m_scaleMax st) (m_scaleMin st) (m_scaleStep st)
    (std_cerr st ++ [msg]).

(** ** Loops *)

(** A loop over a vector with its index, in the error monad. *)
Fixpoint for_each {A T : Type} (body : nat -> A -> T -> option T)
  (l : list A) (j : nat) (s : T) : option T :=
  match l with
  | [] => Some s
  | a :: l' => s' <- body j a s ;; for_each body l' (S j) s'
  end.

(** [v[i][j]] *)
Definition vec2 {A : Type} (v : list (list A)) (i j : nat) : option A :=
  row <- nth_error v i ;; nth_error row j.

(** The values of [k] in [for(int k = start; k < stop; k += step)]; a loop
    that would never leave has no list. *)
Definition for_range (start stop step : Z) : option (list Z) :=
  if stop <=? start then Some []
  else if step <=? 0 then None
  else Some (map (fun n => start + Z.of_nat n * step)
               (seq 0 (Z.to_nat ((stop - start + step - 1) / step)))).

(** ** What the matcher takes from outside

    [getMinAngleError] is declared in [Utils.hpp], outside the sources at
    hand: the angular error between two orientations, taken to be a [float]
    as its arguments are.  [LineIterator] is [cv::LineIterator]: the pixels
    of a segment, in order.  [cv_resize] is [cv::resize] by a scale factor.
    [prepareTemplate] and [prepareQuery] chain OpenCV's edge detector,
    distance transform and contour extraction (the Canny threshold and the
    grid descriptor size are their inputs from the matcher); they stand
    for the information the two functions compute, and the messages that
    their contour pass can write to [std::cerr] are left out.
    [default_overlapPercentage] is the default argument of
    [groupDetections], given in [Chamfer.hpp]. *)
Class Externals : Type := mkExternals
  { getMinAngleError : float -> float -> bool -> bool -> float;
    LineIterator : Mat float -> Point -> Point -> list Point;
    cv_resize : Image -> float -> Image;
    prepareTemplate : double -> Z * Z -> Image -> Template_info_t;
    prepareQuery : double -> Image -> Query_info_t;
    default_overlapPercentage : double }.

Section Matcher.
Context {E : Externals}.

(** ** [computeChamferDistance] *)

(** The loop state: [chamfer_dist] and [nbElements]. *)
Definition cost_acc : Type := (double * Z)%type.

Definition is_lineType (t : MatchingType) : bool :=
  match t with lineMatching | lineForwardBackwardMatching => true | _ => false end.

(** One pass over the pixels of the approximated lines: the cost is read in
    [dist] and the orientations in [ori1] and [ori2]; [nbElements] goes up
    with every pixel. *)
Definition line_pass (lines : list (list Line_info_t)) (dist ori1 ori2 : Mat float)
  (useOrientation : bool) (lambda weight : float) (s : cost_acc) : option cost_acc :=
  for_each (fun _ contour_lines s =>
    for_each (fun _ line s =>
      for_each (fun _ pos '(chamfer_dist, nbElements) =>
        d <- Mat_ptr dist (pt_y pos) (pt_x pos) ;;
        if useOrientation then
          o1 <- Mat_ptr ori1 (pt_y pos) (pt_x pos) ;;
          o2 <- Mat_ptr ori2 (pt_y pos) (pt_x pos) ;;
          Some (f64_add chamfer_dist
                  (f64_of_f32 (f32_mul weight
                     (f32_add d (f32_mul lambda (getMinAngleError o1 o2 false true))))),
                nbElements + 1)
        else
          Some (f64_add chamfer_dist (f64_of_f32 (f32_mul weight d)), nbElements + 1))
        (LineIterator dist (m_pointStart line) (m_PointEnd line)) 0%nat s)
      contour_lines 0%nat s)
    lines 0%nat s.

(** "Forward matching": every template contour pixel reads the query's
    distance at the offset pixel; [nbElements] goes up with every pixel. *)
Definition edge_forward (q : Query_info_t) (template_info : Template_info_t)
  (offsetX offsetY : Z) (useOrientation : bool) (lambda weight_forward : float)
  (s : cost_acc) : option cost_acc :=
  for_each (fun i contour s =>
    for_each (fun j pt '(chamfer_dist, nbElements) =>
      let x := pt_x pt in
      let y := pt_y pt in
      d <- Mat_ptr (q_distImg q) (y + offsetY) (x + offsetX) ;;
      if useOrientation then
        t_ori <- vec2 (m_edgesOrientation template_info) i j ;;
        q_ori <- Mat_ptr (q_mapOfEdgeOrientation q) (y + offsetY) (x + offsetX) ;;
        Some (f64_add chamfer_dist
                (f64_of_f32 (f32_mul weight_forward
                   (f32_add d (f32_mul lambda (getMinAngleError t_ori q_ori false true))))),
              nbElements + 1)
      else
        Some (f64_add chamfer_dist (f64_of_f32 (f32_mul weight_forward d)), nbElements + 1))
      contour 0%nat s)
    (m_contours template_info) 0%nat s.

(** "Backward matching": the query contour pixels of the current region.
    The loop header reads [j++, nbElements]: the counter stays.  Without
    orientation the template's distance is read at [(y, x)]. *)
Definition edge_backward (q : Query_info_t) (template_info : Template_info_t)
  (offsetX offsetY : Z) (useOrientation : bool) (lambda weight_backward : float)
  (s : cost_acc) : option cost_acc :=
  for_each (fun i contour s =>
    for_each (fun j pt '(chamfer_dist, nbElements) =>
      let x := pt_x pt in
      let y := pt_y pt in
      if (offsetX <=? x) && (x <? offsetX + cols (m_distImg template_info)) &&
         (offsetY <=? y) && (y <? offsetY + rows (m_distImg template_info))
      then
        if useOrientation then
          d <- Mat_ptr (m_distImg template_info) (y - offsetY) (x - offsetX) ;;
          q_ori <- vec2 (q_edgesOrientation q) i j ;;
          t_ori <- Mat_ptr (m_mapOfEdgeOrientation template_info) (y - offsetY) (x - offsetX) ;;
          Some (f64_add chamfer_dist
                  (f64_of_f32 (f32_mul weight_backward
                     (f32_add d (f32_mul lambda (getMinAngleError q_ori t_ori false true))))),
                nbElements)
        else
          d <- Mat_ptr (m_distImg template_info) y x ;;
          Some (f64_add chamfer_dist (f64_of_f32 (f32_mul weight_backward d)), nbElements)
      else Some (chamfer_dist, nbElements))
      contour 0%nat s)
    (q_contours q) 0%nat s.

Definition computeChamferDistance (st : ChamferMatcher) (template_info : Template_info_t)
  (offsetX offsetY : Z) (useOrientation : bool)
  (lambda weight_forward weight_backward : float) : option double :=
  let q := m_query_info st in
  '(chamfer_dist, nbElements) <-
    (if is_lineType (m_matchingType st) then
       s <- line_pass (m_vectorOfContourLines template_info) (q_distImg q)
              (m_mapOfEdgeOrientation template_info) (q_mapOfEdgeOrientation q)
              useOrientation lambda weight_forward (f_zero, 0) ;;
       if MatchingType_eqb (m_matchingType st) lineForwardBackwardMatching then
         line_pass (q_vectorOfContourLines q) (m_distImg template_info)
           (q_mapOfEdgeOrientation q) (m_mapOfEdgeOrientation template_info)
           useOrientation lambda weight_backward s
       else Some s
     else
       s <- edge_forward q template_info offsetX offsetY useOrientation lambda
              weight_forward (f_zero, 0) ;;
       if MatchingType_eqb (m_matchingType st) edgeForwardBackwardMatching then
         edge_backward q template_info offsetX offsetY useOrientation lambda
           weight_backward s
       else Some s) ;;
  Some (f64_div chamfer_dist (f64_of_int nbElements)).

(** ** [computeFullChamferDistance] *)

Definition computeFullChamferDistance (st : ChamferMatcher) (template_info : Template_info_t)
  (offsetX offsetY : Z) (useOrientation : bool) (lambda : float) : option double :=
  let q := m_query_info st in
  let window := mkRect offsetX offsetY (cols (m_distImg template_info))
                  (rows (m_distImg template_info)) in
  subDistImg <- Mat_roi (q_distImg q) window ;;
  subEdgeOriImg <- Mat_roi (q_mapOfEdgeOrientation q) window ;;
  '(chamfer_dist, nbElements) <-
    (if MatchingType_eqb (m_matchingType st) fullMatching then
       diffDistTrans <- absdiff subDistImg (m_distImg template_info) ;;
       let chamfer_dist := f64_add f_zero (Mat_sum diffDistTrans) in
       chamfer_dist <-
         (if useOrientation then
            diffEdgeOri <- absdiff subEdgeOriImg (m_mapOfEdgeOrientation template_info) ;;
            Some (f64_add chamfer_dist (f64_mul (f64_of_f32 lambda) (Mat_sum diffEdgeOri)))
          else Some chamfer_dist) ;;
       Some (chamfer_dist, 0 + rows subDistImg * cols subDistImg)
     else
       common_mask <-
         (if MatchingType_eqb (m_matchingType st) forwardBackwardMaskMatching then
            query_mask <- Mat_roi (q_mask q) window ;;
            bitwise_or (m_mask template_info) query_mask
          else Some (m_mask template_info)) ;;
       subDistImg_masked <- copyTo_masked subDistImg common_mask ;;
       templateDistImg_masked <- copyTo_masked (m_distImg template_info) common_mask ;;
       diffDistTrans <- absdiff subDistImg_masked templateDistImg_masked ;;
       let chamfer_dist := f64_add f_zero (Mat_sum diffDistTrans) in
       chamfer_dist <-
         (if useOrientation then
            subEdgeOriImg_masked <- copyTo_masked subEdgeOriImg common_mask ;;
            templateEdgeOrientation_masked <-
              copyTo_masked (m_mapOfEdgeOrientation template_info) common_mask ;;
            diffEdgeOri <- absdiff subEdgeOriImg_masked templateEdgeOrientation_masked ;;
            Some (f64_add chamfer_dist (f64_mul (f64_of_f32 lambda) (Mat_sum diffEdgeOri)))
          else Some chamfer_dist) ;;
       Some (chamfer_dist, 0 + countNonZero common_mask)) ;;
  Some (f64_div chamfer_dist (f64_of_int nbElements)).


(** ** [computeMatchingMap] *)

(** The admission filter at one cell: the grid descriptors that agree with
    the query are counted, and the cell is struck from the mask when they
    are too few. *)
Definition gridDescriptor_cell (st : ChamferMatcher) (template_info : Template_info_t)
  (i j : Z) (rejection_mask : Mat Z) : option (Mat Z) :=
  let q := m_query_info st in
  nbMatches <-
    for_each (fun cpt loc nbMatches =>
      let location := Point_add loc (mkPoint j i) in
      query_dist <- Mat_ptr (q_distImg q) (pt_y location) (pt_x location) ;;
      query_orientation <-
        Mat_ptr (q_mapOfEdgeOrientation q) (pt_y location) (pt_x location) ;;
      descr <- nth_error (m_gridDescriptors template_info) cpt ;;
      let template_dist := fst descr in
      let template_orientation := snd descr in
      if fltb (f32_abs (f32_sub query_dist template_dist))
              (m_maxDescriptorDistanceError st) &&
         fltb (f32_abs (f32_sub query_orientation template_orientation))
              (m_maxDescriptorOrientationError st)
      then Some (nbMatches + 1) else Some nbMatches)
      (m_gridDescriptorsLocations template_info) 0%nat 0 ;;
  if nbMatches <? m_minNbDescriptorMatches st
  then Mat_set rejection_mask i j 0
  else Some rejection_mask.

(** The double loop [for i ... for j ...] over the search bounds. *)
Definition for_grid {T : Type} (startI endI yStep startJ endJ xStep : Z)
  (body : Z -> Z -> T -> option T) (s : T) : option T :=
  range_i <- for_range startI endI yStep ;;
  for_each (fun _ i s =>
    range_j <- for_range startJ endJ xStep ;;
    for_each (fun _ j s => body i j s) range_j 0%nat s)
    range_i 0%nat s.

(** The cost at one cell, by the [switch] on the matching type. *)
Definition cost_at (st : ChamferMatcher) (template_info : Template_info_t) (j i : Z)
  (useOrientation : bool) (lambda weight_forward weight_backward : float) : option double :=
  match m_matchingType st with
  | edgeMatching | edgeForwardBackwardMatching =>
      computeChamferDistance st template_info j i useOrientation lambda
        weight_forward weight_backward
  | _ => computeFullChamferDistance st template_info j i useOrientation lambda
  end.

Definition computeMatchingMap (st : ChamferMatcher) (template_info : Template_info_t)
  (chamferMap : Mat float) (useOrientation : bool) (xStep yStep : Z)
  (lambda weight_forward weight_backward : float) : option (Mat float) :=
  let q := m_query_info st in
  let chamferMapWidth := cols (q_distImg q) - cols (m_distImg template_info) + 1 in
  let chamferMapHeight := rows (q_distImg q) - rows (m_distImg template_info) + 1 in
  if (chamferMapWidth <=? 0) || (chamferMapHeight <=? 0) then Some chamferMap
  else
    let chamferMap := Mat_fill chamferMapHeight chamferMapWidth FLT_MAX in
    let startI := r_y (m_queryROI template_info) in
    let endI := if 0 <? r_height (m_queryROI template_info)
                then startI + r_height (m_queryROI template_info) else chamferMapHeight in
    let startJ := r_x (m_queryROI template_info) in
    let endJ := if 0 <? r_width (m_queryROI template_info)
                then startJ + r_width (m_queryROI template_info) else chamferMapWidth in
    let '(startI, endI, startJ, endJ) :=
      if MatchingStrategyType_eqb (m_matchingStrategyType st) templatePoseMatching
      then (r_y (m_templateLocation template_info), r_y (m_templateLocation template_info) + 1,
            r_x (m_templateLocation template_info), r_x (m_templateLocation template_info) + 1)
      else (startI, endI, startJ, endJ) in
    let rejection_mask := Mat_fill chamferMapHeight chamferMapWidth 1 in
    rejection_mask <-
      (match m_rejectionType st with
       | gridDescriptorRejection =>
           for_grid startI endI yStep startJ endJ xStep
             (gridDescriptor_cell st template_info) rejection_mask
       | noRejection => Some rejection_mask
       end) ;;
    for_grid startI endI yStep startJ endJ xStep
      (fun i j chamferMap =>
         keep <- Mat_ptr rejection_mask i j ;;
         if keep =? 0 then Some chamferMap
         else
           cost <- cost_at st template_info j i useOrientation lambda
                     weight_forward weight_backward ;;
           Mat_set chamferMap i j (f32_of_f64 cost))
      chamferMap.

(** ** [groupDetections] *)

(** The loop over [cpt2]: the detections after [cpt1] that are not picked
    yet and overlap it enough are picked and join the current cluster. *)
Fixpoint absorb (d1 : Detection_t) (overlapPercentage : double)
  (rest : list Detection_t) (already_picked : list bool)
  (current_detections : list Detection_t) : list bool * list Detection_t :=
  match rest, already_picked with
  | d2 :: rest', picked :: already_picked' =>
      if negb picked then
        let r_intersect := Rect_and (m_boundingBox d1) (m_boundingBox d2) in
        let overlapping_percentage :=
          f64_div (f64_of_int (Rect_area r_intersect))
            (f64_of_int (wrap_int (Rect_area (m_boundingBox d1)
                                   + Rect_area (m_boundingBox d2)
                                   - Rect_area r_intersect))) in
        if fltb overlapPercentage overlapping_percentage then
          let '(p, c) := absorb d1 overlapPercentage rest' already_picked'
                           (current_detections ++ [d2]) in
          (true :: p, c)
        else
          let '(p, c) := absorb d1 overlapPercentage rest' already_picked'
                           current_detections in
          (false :: p, c)
      else
        let '(p, c) := absorb d1 overlapPercentage rest' already_picked'
                         current_detections in
        (true :: p, c)
  | _, _ => ([], current_detections)
  end.

(** The loop over [cpt1]. *)
Fixpoint cluster_loop (overlapPercentage : double) (detections : list Detection_t)
  (already_picked : list bool) (clustered_detections : list (list Detection_t))
  : list (list Detection_t) :=
  match detections, already_picked with
  | d :: detections', picked :: already_picked' =>
      if negb picked then
        let '(p, current_detections) :=
          absorb d overlapPercentage detections' already_picked' [d] in
        cluster_loop overlapPercentage detections' p
          (clustered_detections ++ [current_detections])
      else cluster_loop overlapPercentage detections' already_picked' clustered_detections
  | _, _ => clustered_detections
  end.

(** One cluster becomes one detection: the means of its members, the size of
    its first member, the most frequent template index. *)
Definition collapse_cluster (cluster : list Detection_t) : list Detection_t :=
  match cluster with
  | [] => []
  | first :: _ =>
      let '(xMean, yMean, distMean, scaleMean, mapOfOccurrences) :=
        fold_left (fun '(xMean, yMean, distMean, scaleMean, occ) d =>
          (f64_add xMean (f64_of_int (r_x (m_boundingBox d))),
           f64_add yMean (f64_of_int (r_y (m_boundingBox d))),
           f64_add distMean (m_chamferDist d),
           f64_add scaleMean (f64_of_f32 (m_scale d)),
           map_insert Z.ltb (m_templateIndex d)
             (map_get Z.ltb 0 (m_templateIndex d) occ + 1) occ))
          cluster (f_zero, f_zero, f_zero, f_zero, []) in
      let size := f64_of_int (Z.of_nat (List.length cluster)) in
      let xMean := f64_div xMean size in
      let yMean := f64_div yMean size in
      let distMean := f64_div distMean size in
      let scaleMean := f64_div scaleMean size in
      let '(maxOccurrenceIndex, maxOccurrence) :=
        fold_left (fun '(maxIndex, maxOcc) '(index, occ) =>
          if maxOcc <? occ then (index, occ) else (maxIndex, maxOcc))
          mapOfOccurrences (-1, 0) in
      [ mkDetection
          (mkRect (f64_to_int xMean) (f64_to_int yMean)
             (r_width (m_boundingBox first)) (r_height (m_boundingBox first)))
          distMean (f32_of_f64 scaleMean) maxOccurrenceIndex ]
  end.

Definition groupDetections (detections groupedDetections : list Detection_t)
  (overlapPercentage : double) : list Detection_t :=
  let clustered_detections :=
    cluster_loop overlapPercentage detections
      (repeat false (List.length detections)) [] in
  groupedDetections ++ flat_map collapse_cluster clustered_detections.

(** ** [detect_impl] *)

Definition maxLoopIterations : Z := 100.

(** The [do ... while] loop that pulls minima out of the cost map. *)
Fixpoint extract_loop (fuel : nat) (template_info : Template_info_t) (scale : float)
  (distanceThresh : float) (chamferMap : Mat float) (iteration : Z)
  (all_detections : list Detection_t) : option (list Detection_t) :=
  match fuel with
  | O => None
  | S fuel' =>
      let iteration := iteration + 1 in
      let '(minVal, minLoc) := minMaxLoc chamferMap in
      chamferMap <- Mat_set chamferMap (pt_y minLoc) (pt_x minLoc) FLT_MAX ;;
      let pt1 := mkPoint (pt_x minLoc) (pt_y minLoc) in
      let pt2 := Point_add pt1 (mkPoint (cols (m_distImg template_info))
                                  (rows (m_distImg template_info))) in
      let all_detections :=
        if fltb minVal (f64_of_f32 distanceThresh)
        then all_detections ++ [Detection_new (Rect_of_points pt1 pt2) minVal scale]
        else all_detections in
      if fltb minVal (f64_of_f32 distanceThresh) && (iteration <=? maxLoopIterations)
      then extract_loop fuel' template_info scale distanceThresh chamferMap iteration
             all_detections
      else Some all_detections
  end.

(** The iteration counter bounds the loop; this much fuel is never used up
    (lemma [extract_loop_fuel]). *)
Definition extract_fuel : nat := S (Z.to_nat maxLoopIterations).

Definition detect_impl (st : ChamferMatcher) (template_info : Template_info_t)
  (scale : float) (currentDetections : list Detection_t) (useOrientation : bool)
  (distanceThresh lambda weight_forward weight_backward : float)
  (useGroupDetections : bool) : option (list Detection_t) :=
  chamferMap <- computeMatchingMap st template_info Mat_new useOrientation 5 5
                  lambda weight_forward weight_backward ;;
  if negb (Mat_empty chamferMap) then
    all_detections <- extract_loop extract_fuel template_info scale distanceThresh
                        chamferMap 0 [] ;;
    let currentDetections :=
      if useGroupDetections
      then groupDetections all_detections currentDetections default_overlapPercentage
      else all_detections in
    Some (std_sort Detection_lt currentDetections)
  else Some currentDetections.

(** ** [detect] and [detectMultiScale] *)

Definition f32_one : float := f32_of_int 1.

Definition detect (st : ChamferMatcher) (img_query : Image) (useOrientation : bool)
  (distanceThresh lambda weight_forward weight_backward : float)
  (useGroupDetections : bool) : option (list Detection_t * ChamferMatcher) :=
  let st := set_query_info (prepareQuery (m_cannyThreshold st) img_query) st in
  let scale := f32_one in
  detections <-
    for_each (fun _ '(id, scales) detections =>
      match map_find fltb f32_one scales with
      | Some template_info =>
          all_detections <- detect_impl st template_info scale [] useOrientation
                              distanceThresh lambda weight_forward weight_backward
                              useGroupDetections ;;
          Some (detections ++ map (set_templateIndex id) all_detections)
      | None => Some detections
      end)
      (m_mapOfTemplate_info st) 0%nat [] ;;
  Some (std_sort Detection_lt detections, st).

Definition detectMultiScale (st : ChamferMatcher) (img_query : Image)
  (useOrientation : bool) (distanceThresh lambda weight_forward weight_backward : float)
  (useNonMaximaSuppression useGroupDetections : bool)
  : option (list Detection_t * ChamferMatcher) :=
  if MatchingStrategyType_eqb (m_matchingStrategyType st) templatePoseMatching then
    Some ([], cerr "Cannot detect on multiple scales with the matching strategy=templatePoseMatching!"%string st)
  else
    let st := set_query_info (prepareQuery (m_cannyThreshold st) img_query) st in
    detections <-
      for_each (fun _ '(id, scales) detections =>
        all_detections <-
          for_each (fun _ '(scale, template_info) all_detections =>
            current_detections <- detect_impl st template_info scale [] useOrientation
                                    distanceThresh lambda weight_forward weight_backward
                                    useGroupDetections ;;
            Some (all_detections ++ map (set_templateIndex id) current_detections))
            scales 0%nat [] ;;
        Some (detections ++ all_detections))
        (m_mapOfTemplate_info st) 0%nat [] ;;
    Some (std_sort Detection_lt detections, st).


(** ** The template store *)

Definition Template_empty : Template_info_t :=
  mkTemplate [] Mat_new [] [] [] Mat_new Mat_new [] (mkRect 0 0 0 0) (mkRect 0 0 0 0).

(** [info[id][scale] = t] *)
Definition set_info (id : Z) (scale : float) (t : Template_info_t)
  (info : IntMap (FloatMap Template_info_t)) : IntMap (FloatMap Template_info_t) :=
  map_insert Z.ltb id (map_insert fltb scale t (map_get Z.ltb [] id info)) info.

(** [info[id][scale]] *)
Definition get_info (id : Z) (scale : float)
  (info : IntMap (FloatMap Template_info_t)) : Template_info_t :=
  map_get fltb Template_empty scale (map_get Z.ltb [] id info).

Definition f32_100 : float := f32_of_int 100.

(** The sweep [for(float scale = m_scaleMin; scale <= m_scaleMax; scale +=
    m_scaleStep)]: every scale away from 1 gets a template information of
    the resized image.  The loop does not end when the step is absorbed by
    the rounding of [scale += m_scaleStep]; [fuel] bounds its iterations. *)
Fixpoint scale_sweep (fuel : nat) (st : ChamferMatcher) (img : Image) (id : Z)
  (scale : float) (info : IntMap (FloatMap Template_info_t))
  : option (IntMap (FloatMap Template_info_t)) :=
  match fuel with
  | O => None
  | S fuel' =>
      if fleb scale (m_scaleMax st) then
        let info :=
          if fltb (m_scaleStep st) (f32_mul (f32_abs (f32_sub scale f32_one)) f32_100)
          then set_info id scale
                 (prepareTemplate (m_cannyThreshold st) (m_gridDescriptorSize st)
                    (cv_resize img scale)) info
          else info in
        scale_sweep fuel' st img id (f32_add scale (m_scaleStep st)) info
      else Some info
  end.

(** The loop of [setTemplateImages] and of the constructor over the template
    images; [return] leaves it with the state reached so far.  The message
    of the missing id prints a value read through the end iterator. *)
Fixpoint setTemplates_loop (fuel : nat) (mapOfTemplateRois : IntMap (Rect * Rect))
  (templates : list (Z * Image)) (st : ChamferMatcher) : option ChamferMatcher :=
  match templates with
  | [] => Some st
  | (id, img) :: templates' =>
      let imgs := map_insert Z.ltb id img (m_mapOfTemplateImages st) in
      let info := set_info id f32_one
                    (prepareTemplate (m_cannyThreshold st) (m_gridDescriptorSize st) img)
                    (m_mapOfTemplate_info st) in
      match map_find Z.ltb id mapOfTemplateRois with
      | None =>
          Some (cerr "The id: (end iterator) does not exist in template rois!"%string
                  (set_templates info imgs st))
      | Some (location, roi) =>
          let info := set_info id f32_one
                        (set_templateLocation location (get_info id f32_one info)) info in
          let info := set_info id f32_one
                        (set_queryROI roi (get_info id f32_one info)) info in
          info <- scale_sweep fuel st img id (m_scaleMin st) info ;;
          setTemplates_loop fuel mapOfTemplateRois templates' (set_templates info imgs st)
      end
  end.

Definition setTemplateImages (fuel : nat) (st : ChamferMatcher)
  (mapOfTemplateImages : IntMap Image) (mapOfTemplateRois : IntMap (Rect * Rect))
  : option ChamferMatcher :=
  let st := set_templates [] [] st in
  if negb (Nat.eqb (List.length mapOfTemplateImages) (List.length mapOfTemplateRois)) then
    Some (cerr "Different size between templates and rois!"%string st)
  else setTemplates_loop fuel mapOfTemplateRois mapOfTemplateImages st.

Definition Query_empty : Query_info_t :=
  mkQuery [] Mat_new (mkImage 0 0 1 []) Mat_new [] Mat_new [].

(** The default constructor. *)
Definition ChamferMatcher_new : ChamferMatcher :=
  mkMatcher (f64_of_int 50)
    (f32_of_int 10) (SFdiv 24 128 (f32_of_int 35) (f32_of_int 100))
    5 (4, 4) templateMatching edgeMatching Query_empty [] []
    gridDescriptorRejection
    (f32_of_int 2) (SFdiv 24 128 (f32_of_int 1) (f32_of_int 2))
    (SFdiv 24 128 (f32_of_int 1) (f32_of_int 10)) [].

(** The constructor from template images and regions. *)
Definition ChamferMatcher_of (fuel : nat) (mapOfTemplateImages : IntMap Image)
  (mapOfTemplateRois : IntMap (Rect * Rect)) : option ChamferMatcher :=
  let st := ChamferMatcher_new in
  if negb (Nat.eqb (List.length mapOfTemplateImages) (List.length mapOfTemplateRois)) then
    Some (cerr "Different size between templates and rois!"%string st)
  else setTemplates_loop fuel mapOfTemplateRois mapOfTemplateImages st.

Definition setScale (fuel : nat) (st : ChamferMatcher) (min max step : float)
  : option ChamferMatcher :=
  if fltb f_zero min && fltb f_zero max && fleb min max && fltb f_zero step then
    let st := set_scaleRange min max step st in
    for_each (fun _ '(id, _) st =>
      match map_find Z.ltb id (m_mapOfTemplateImages st) with
      | Some img =>
          info <- scale_sweep fuel st img id (m_scaleMin st) (m_mapOfTemplate_info st) ;;
          Some (set_templates info (m_mapOfTemplateImages st) st)
      | None => Some (cerr "Cannot find the template image!"%string st)
      end)
      (m_mapOfTemplate_info st) 0%nat st
  else Some (cerr "Invalid scale parameter !"%string st).

(** ** The binary file of the template store *)

Definition byte_of_Z (z : Z) : byte :=
  match Byte.of_N (Z.to_N (z mod 256)) with
  | Some b => b
  | None => Byte.x00
  end.

Definition Z_of_byte (b : byte) : Z := Z.of_N (Byte.to_N b).

(** The four bytes of an [int] in memory (little-endian, two's complement). *)
Definition int_bytes (n : Z) : list byte :=
  let u := n mod 2 ^ 32 in
  [ byte_of_Z u; byte_of_Z (u / 2 ^ 8); byte_of_Z (u / 2 ^ 16); byte_of_Z (u / 2 ^ 24) ].

Definition int_of_bytes (bs : list byte) : Z :=
  let u := fold_right (fun b acc => Z_of_byte b + 256 * acc) 0 bs in
  if u <? 2 ^ 31 then u else u - 2 ^ 32.

Definition rect_bytes (r : Rect) : list byte :=
  int_bytes (r_x r) ++ int_bytes (r_y r) ++ int_bytes (r_width r) ++ int_bytes (r_height r).

(** The values of a C++ [int], as a test. *)
Definition fits_int (z : Z) : bool := (- 2 ^ 31 <=? z) && (z <? 2 ^ 31).

(** A value in [size_t], of 64 bits. *)
Definition size_t_of (z : Z) : Z := z mod 2 ^ 64.

(** What [saveTemplateData] writes for one template.  The count of the image
    bytes, [sizeof(uchar)*nbRows*nbCols*nbChannels], is a product in
    [size_t].  The bytes are read from the buffer of the image; a buffer that
    is too short is read past its end. *)
Definition save_template (st : ChamferMatcher) (id : Z) (scales : FloatMap Template_info_t)
  : option (list byte * ChamferMatcher) :=
  match map_find fltb f32_one scales, map_find Z.ltb id (m_mapOfTemplateImages st) with
  | Some template_info, Some image =>
      let nbRows := img_rows image in
      let nbCols := img_cols image in
      let nbChannels := img_channels image in
      let n := Z.to_nat (size_t_of (nbRows * nbCols * nbChannels)) in
      if (n <=? List.length (img_data image))%nat then
        Some (int_bytes id ++ int_bytes nbRows ++ int_bytes nbCols ++ int_bytes nbChannels ++
              firstn n (img_data image) ++
              rect_bytes (m_templateLocation template_info) ++
              rect_bytes (m_queryROI template_info), st)
      else None
  | _, _ =>
      Some (int_bytes id,
            cerr "Cannot find the template info for scale=1 or cannot find the template image!"%string st)
  end.

(** [saveTemplateData]: the bytes written to the file when it opens. *)
Definition saveTemplateData (st : ChamferMatcher) (filename : string) (is_open : bool)
  : option (option (list byte) * ChamferMatcher) :=
  if is_open then
    let nbTemplates := Z.of_nat (List.length (m_mapOfTemplate_info st)) in
    '(file, st) <-
      for_each (fun _ '(id, scales) '(file, st) =>
        '(bytes, st) <- save_template st id scales ;;
        Some (file ++ bytes, st))
        (m_mapOfTemplate_info st) 0%nat (int_bytes nbTemplates, st) ;;
    Some (Some file, st)
  else
    Some (None, cerr ("File: " ++ filename ++ " cannot be opened !")%string st).

(** An input stream: the bytes left and the fail bit.  A read that finds too
    few bytes stores the ones there are, sets the fail bit and empties the
    stream; with the fail bit set a read stores nothing. *)
Record ifstream : Type := mkIfstream { if_bytes : list byte; if_fail : bool }.

Definition stream_read (n : nat) (init : list byte) (file : ifstream)
  : list byte * ifstream :=
  if if_fail file then (init, file)
  else if (n <=? List.length (if_bytes file))%nat
       then (firstn n (if_bytes file), mkIfstream (skipn n (if_bytes file)) false)
       else (if_bytes file ++ skipn (List.length (if_bytes file)) init, mkIfstream [] true).

(** [int x = 0; file.read((char * )(&x), sizeof(x));] *)
Definition read_int (file : ifstream) : Z * ifstream :=
  let '(bs, file) := stream_read 4 (int_bytes 0) file in (int_of_bytes bs, file).

Definition read_rect (file : ifstream) : Rect * ifstream :=
  let '(x, file) := read_int file in
  let '(y, file) := read_int file in
  let '(w, file) := read_int file in
  let '(h, file) := read_int file in
  (mkRect x y w h, file).

(** The body of the loop of [loadTemplateData].  The size of
    [new char[nbRows*nbCols*nbChannels]] is a product of [int]s, taken from
    the left: it has no value when one of the two products leaves the range
    of [int], and [new] throws on a negative size; in both cases the load
    does not return.  The fresh array is taken as zeros.  The count of the
    read, [sizeof(char)*nbRows*nbCols*nbChannels], is the product in
    [size_t].  The matrix header is [CV_8UC3] for three channels and [CV_8U]
    otherwise, over the array as it was read. *)
Definition load_template (fuel : nat) (file : ifstream) (st : ChamferMatcher)
  : option (ifstream * ChamferMatcher) :=
  let '(id, file) := read_int file in
  let '(nbRows, file) := read_int file in
  let '(nbCols, file) := read_int file in
  let '(nbChannels, file) := read_int file in
  let n := nbRows * nbCols * nbChannels in
  if negb (fits_int (nbRows * nbCols) && fits_int n) then None
  else if n <? 0 then None
  else
    let '(data, file) :=
      stream_read (Z.to_nat (size_t_of (nbRows * nbCols * nbChannels)))
        (repeat Byte.x00 (Z.to_nat n)) file in
    let img := if nbChannels =? 3 then mkImage nbRows nbCols 3 data
               else mkImage nbRows nbCols 1 data in
    let imgs := map_insert Z.ltb id img (m_mapOfTemplateImages st) in
    let '(templateLocation, file) := read_rect file in
    let '(queryROI, file) := read_rect file in
    let template_info :=
      prepareTemplate (m_cannyThreshold st) (m_gridDescriptorSize st) img in
    let template_info := set_queryROI queryROI template_info in
    let template_info := set_templateLocation templateLocation template_info in
    let info := set_info id f32_one template_info (m_mapOfTemplate_info st) in
    info <- scale_sweep fuel st img id (m_scaleMin st) info ;;
    Some (file, set_templates info imgs st).

Fixpoint load_loop (fuel : nat) (nbTemplates : nat) (file : ifstream) (st : ChamferMatcher)
  : option ChamferMatcher :=
  match nbTemplates with
  | O => Some st
  | S n =>
      '(file, st) <- load_template fuel file st ;;
      load_loop fuel n file st
  end.

(** [loadTemplateData]: [file] is the content of the file, [None] when it
    cannot be opened. *)
Definition loadTemplateData (fuel : nat) (st : ChamferMatcher) (filename : string)
  (file : option (list byte)) : option ChamferMatcher :=
  match file with
  | Some bytes =>
      let st := set_templates [] [] st in
      let '(nbTemplates, file) := read_int (mkIfstream bytes false) in
      load_loop fuel (Z.to_nat nbTemplates) file st
  | None => Some (cerr ("File: " ++ filename ++ " cannot be opened !")%string st)
  end.


(** ** What the specification counts and reads

    The definitions of this section follow the words of the specification;
    the theorems compare them with the functions above. *)

Definition pixel_count (contours : list (list Point)) : Z :=
  fold_right (fun contour n => Z.of_nat (List.length contour) + n) 0 contours.

(** A query pixel inside the template's footprint placed at the offset. *)
Definition in_footprint (template_info : Template_info_t) (offsetX offsetY : Z)
  (pt : Point) : bool :=
  (offsetX <=? pt_x pt) && (pt_x pt <? offsetX + cols (m_distImg template_info)) &&
  (offsetY <=? pt_y pt) && (pt_y pt <? offsetY + rows (m_distImg template_info)).

(** "Total pixel count across both passes": the template contour pixels and
    the query contour pixels inside the footprint. *)
Definition spec_total_pixel_count (q : Query_info_t) (template_info : Template_info_t)
  (offsetX offsetY : Z) : Z :=
  pixel_count (m_contours template_info) +
  Z.of_nat (List.length (filter (in_footprint template_info offsetX offsetY)
                           (List.concat (q_contours q)))).

(** "The template's distance-field value at the corresponding offset": for a
    query pixel [(x, y)], the value at [(x - offsetX, y - offsetY)]. *)
Definition spec_backward_read (template_info : Template_info_t) (offsetX offsetY : Z)
  (pt : Point) : option float :=
  Mat_ptr (m_distImg template_info) (pt_y pt - offsetY) (pt_x pt - offsetX).

(** The backward term without orientation, as the specification has it. *)
Definition spec_backward_sum (q : Query_info_t) (template_info : Template_info_t)
  (offsetX offsetY : Z) (weight_backward : float) : option double :=
  for_each (fun _ pt chamfer_dist =>
    d <- spec_backward_read template_info offsetX offsetY pt ;;
    Some (f64_add chamfer_dist (f64_of_f32 (f32_mul weight_backward d))))
    (filter (in_footprint template_info offsetX offsetY) (List.concat (q_contours q)))
    0%nat f_zero.

(** "Infinite/maximum cost": what the specification wants of an evaluation
    without contributing pixels. *)
Definition non_match_cost (c : double) : bool :=
  is_infinite c || feqb c DBL_MAX || feqb c FLT_MAX.

(** The forward term without orientation, as the specification has it: the
    query's distance at every template contour pixel moved by the offset. *)
Definition spec_forward_sum (q : Query_info_t) (template_info : Template_info_t)
  (offsetX offsetY : Z) (weight_forward : float) : option double :=
  for_each (fun _ pt chamfer_dist =>
    d <- Mat_ptr (q_distImg q) (pt_y pt + offsetY) (pt_x pt + offsetX) ;;
    Some (f64_add chamfer_dist (f64_of_f32 (f32_mul weight_forward d))))
    (List.concat (m_contours template_info)) 0%nat f_zero.

(** Forward+backward edge matching as the specification has it: both
    weighted sums, over the total pixel count of both passes. *)
Definition spec_edgeForwardBackward_cost (q : Query_info_t)
  (template_info : Template_info_t) (offsetX offsetY : Z)
  (weight_forward weight_backward : float) : option double :=
  forward <- spec_forward_sum q template_info offsetX offsetY weight_forward ;;
  backward <- spec_backward_sum q template_info offsetX offsetY weight_backward ;;
  Some (f64_div (f64_add forward backward)
          (f64_of_int (spec_total_pixel_count q template_info offsetX offsetY))).

(** The pixels the line iterators visit. *)
Definition contour_line_pixels (dist : Mat float) (contour_lines : list Line_info_t) : Z :=
  fold_right (fun line m =>
    Z.of_nat (List.length (LineIterator dist (m_pointStart line) (m_PointEnd line))) + m)
    0 contour_lines.

Definition line_pixel_count (lines : list (list Line_info_t)) (dist : Mat float) : Z :=
  fold_right (fun contour_lines n => contour_line_pixels dist contour_lines + n) 0 lines.

(** The pixels that contribute to the sum of [computeChamferDistance]. *)
Definition chamfer_pixels (st : ChamferMatcher) (template_info : Template_info_t)
  (offsetX offsetY : Z) : Z :=
  let q := m_query_info st in
  match m_matchingType st with
  | lineMatching =>
      line_pixel_count (m_vectorOfContourLines template_info) (q_distImg q)
  | lineForwardBackwardMatching =>
      line_pixel_count (m_vectorOfContourLines template_info) (q_distImg q) +
      line_pixel_count (q_vectorOfContourLines q) (m_distImg template_info)
  | edgeForwardBackwardMatching =>
      spec_total_pixel_count q template_info offsetX offsetY
  | _ => pixel_count (m_contours template_info)
  end.

Definition search_window (template_info : Template_info_t) (offsetX offsetY : Z) : Rect :=
  mkRect offsetX offsetY (cols (m_distImg template_info)) (rows (m_distImg template_info)).

(** The common mask of the masked strategies. *)
Definition common_mask_of (st : ChamferMatcher) (template_info : Template_info_t)
  (offsetX offsetY : Z) : option (Mat Z) :=
  if MatchingType_eqb (m_matchingType st) forwardBackwardMaskMatching then
    query_mask <- Mat_roi (q_mask (m_query_info st))
                    (search_window template_info offsetX offsetY) ;;
    bitwise_or (m_mask template_info) query_mask
  else Some (m_mask template_info).

(** The pixels that contribute to the sum of [computeFullChamferDistance]. *)
Definition full_pixels (st : ChamferMatcher) (template_info : Template_info_t)
  (offsetX offsetY : Z) : option Z :=
  if MatchingType_eqb (m_matchingType st) fullMatching
  then Some (rows (m_distImg template_info) * cols (m_distImg template_info))
  else common_mask <- common_mask_of st template_info offsetX offsetY ;;
       Some (countNonZero common_mask).

Definition is_some {A : Type} (o : option A) : bool :=
  match o with Some _ => true | None => false end.

(** The window lies inside the query's fields and the template's fields
    have one size: OpenCV raises no assertion. *)
Definition full_defined (st : ChamferMatcher) (template_info : Template_info_t)
  (offsetX offsetY : Z) : bool :=
  let q := m_query_info st in
  let window := search_window template_info offsetX offsetY in
  is_some (Mat_roi (q_distImg q) window) &&
  is_some (Mat_roi (q_mapOfEdgeOrientation q) window) &&
  same_size (m_mapOfEdgeOrientation template_info) (m_distImg template_info) &&
  (MatchingType_eqb (m_matchingType st) fullMatching ||
   (same_size (m_mask template_info) (m_distImg template_info) &&
    is_some (common_mask_of st template_info offsetX offsetY))).


(** ** Well-formed template stores *)

(** The values of a C++ [int]. *)
Definition int_range (z : Z) : Prop := - 2 ^ 31 <= z < 2 ^ 31.

Definition rect_in_range (r : Rect) : Prop :=
  int_range (r_x r) /\ int_range (r_y r) /\
  int_range (r_width r) /\ int_range (r_height r).

(** An image as [cv::Mat::clone] leaves it: its buffer holds exactly
    [rows * cols * channels] bytes. *)
Definition image_continuous (img : Image) : Prop :=
  0 <= img_rows img < 2 ^ 31 /\ 0 <= img_cols img < 2 ^ 31 /\
  1 <= img_channels img < 2 ^ 31 /\
  List.length (img_data img) =
    Z.to_nat (img_rows img * img_cols img * img_channels img).

(** A gray or a three-channel image. *)
Definition image_gray_or_bgr (img : Image) : Prop :=
  img_channels img = 1 \/ img_channels img = 3.

(** An image that [loadTemplateData] can read back: gray or three-channel,
    with a number of bytes that an [int] holds. *)
Definition image_loadable (img : Image) : Prop :=
  image_gray_or_bgr img /\
  img_rows img * img_cols img * img_channels img < 2 ^ 31.

(** One template of the collection: its id, its entry at scale 1 with its
    two rectangles, and its image. *)
Definition template_stored (channels_ok : Image -> Prop) (st : ChamferMatcher)
  (entry : Z * FloatMap Template_info_t) : Prop :=
  int_range (fst entry) /\
  (exists t, map_find fltb f32_one (snd entry) = Some t /\
             rect_in_range (m_templateLocation t) /\ rect_in_range (m_queryROI t)) /\
  (exists img, map_find Z.ltb (fst entry) (m_mapOfTemplateImages st) = Some img /\
               image_continuous img /\ channels_ok img).

(** A configured template collection: the ids of the [std::map] are
    distinct, every id has its scale-1 entry and its image, and the scale
    step is positive, as [setScale] and the constructor leave it. *)
Definition store_wf (channels_ok : Image -> Prop) (st : ChamferMatcher) : Prop :=
  NoDup (map fst (m_mapOfTemplate_info st)) /\
  Z.of_nat (List.length (m_mapOfTemplate_info st)) < 2 ^ 31 /\
  Forall (template_stored channels_ok st) (m_mapOfTemplate_info st) /\
  fltb f_zero (m_scaleStep st) = true.

(** The scale sweep leaves its loop within [fuel] iterations. *)
Fixpoint sweep_ends (fuel : nat) (smax sstep scale : float) : bool :=
  match fuel with
  | O => false
  | S fuel' =>
      if fleb scale smax then sweep_ends fuel' smax sstep (f32_add scale sstep)
      else true
  end.

(** The bytes of one template in the file. *)
Definition template_bytes (id : Z) (img : Image) (t : Template_info_t) : list byte :=
  int_bytes id ++ int_bytes (img_rows img) ++ int_bytes (img_cols img) ++
  int_bytes (img_channels img) ++ img_data img ++
  rect_bytes (m_templateLocation t) ++ rect_bytes (m_queryROI t).

Definition entry_bytes (st : ChamferMatcher) (entry : Z * FloatMap Template_info_t)
  : list byte :=
  match map_find fltb f32_one (snd entry),
        map_find Z.ltb (fst entry) (m_mapOfTemplateImages st) with
  | Some t, Some img => template_bytes (fst entry) img t
  | _, _ => int_bytes (fst entry)
  end.

(** The two rectangles of the entry at scale 1. *)
Definition scale1_anchors (scales : FloatMap Template_info_t) : option (Rect * Rect) :=
  t <- map_find fltb f32_one scales ;;
  Some (m_templateLocation t, m_queryROI t).

Definition anchors_of (info : IntMap (FloatMap Template_info_t)) (id : Z)
  : option (Rect * Rect) :=
  scales <- map_find Z.ltb id info ;; scale1_anchors scales.

Definition same_scale_range (a b : ChamferMatcher) : Prop :=
  m_scaleMax a = m_scaleMax b /\ m_scaleMin a = m_scaleMin b /\
  m_scaleStep a = m_scaleStep b.

Definition is_number (kv : float * Template_info_t) : Prop := is_nan (fst kv) = false.

(** ** Relations the theorems are stated with *)

(** Two runs end alike: both in an error, or both with results that [R]
    relates. *)
Definition agree_up_to {T : Type} (R : T -> T -> Prop) (o1 o2 : option T) : Prop :=
  match o1, o2 with
  | Some x, Some y => R x y
  | None, None => True
  | _, _ => False
  end.

(** A detection list that is not longer than another. *)
Definition shorter (l1 l2 : list Detection_t) : Prop :=
  (List.length l1 <= List.length l2)%nat.

(** A buffer of zeros. *)
Definition all_zero (l : list float) : Prop := Forall (fun v => v = f_zero) l.



End Matcher.


(** ** Example inputs *)

Definition nms_example : list Detection_t :=
  [ Detection_new (mkRect 0 0 10 10) f_zero f_zero;
    Detection_new (mkRect 2 2 3 3) f_zero f_zero;
    Detection_new (mkRect 20 20 4 4) f_zero f_zero ].

(** A box and a second box of negative width and height, with its corner in
    the first one. *)
Definition nested_example : list Detection_t :=
  [ Detection_new (mkRect 0 0 10 10) f_zero f_zero;
    Detection_new (mkRect 1 1 (-20) (-20)) f_zero f_zero ].

(** Modelled from the spec: [getMinAngleError] is declared in [Utils.hpp];
    it "returns the minimum of |a-b| and 2pi-|a-b|".  [two_pi] is the
    binary32 number next to 2 pi. *)
Definition two_pi : float := S754_finite false 13176795 (-21).

Definition minAngleError (a b : float) (degree customPolarAngle : bool) : float :=
  let d := f32_abs (f32_sub a b) in
  let d' := f32_sub two_pi d in
  if fltb d' d then d' else d.

(** An instance of the externals for the examples: segments are sampled at
    their end points, images are not resized, and the derived data of an
    image is a distance field of zeros of its size, without contours. *)
Definition flat_template (img : Image) : Template_info_t :=
  mkTemplate [] (Mat_fill (img_rows img) (img_cols img) f_zero) [] [] []
    (Mat_fill (img_rows img) (img_cols img) f_zero)
    (Mat_fill (img_rows img) (img_cols img) 0) []
    (mkRect 0 0 0 0) (mkRect 0 0 0 0).

Definition flat_query (img : Image) : Query_info_t :=
  mkQuery [] (Mat_fill (img_rows img) (img_cols img) f_zero) img
    (Mat_fill (img_rows img) (img_cols img) f_zero) []
    (Mat_fill (img_rows img) (img_cols img) 0) [].

Definition example_externals : Externals :=
  mkExternals minAngleError (fun _ pt1 pt2 => [pt1; pt2]) (fun img _ => img)
    (fun _ _ img => flat_template img) (fun _ img => flat_query img)
    (SFdiv 53 1024 (f64_of_int 1) (f64_of_int 2)).

Definition with_query (q : Query_info_t) (mt : MatchingType) (rt : RejectionType)
  (st : ChamferMatcher) : ChamferMatcher :=
  mkMatcher (m_cannyThreshold st) (m_maxDescriptorDistanceError st)
    (m_maxDescriptorOrientationError st) (m_minNbDescriptorMatches st)
    (m_gridDescriptorSize st) (m_matchingStrategyType st) mt
    q (m_mapOfTemplate_info st) (m_mapOfTemplateImages st)
    rt (m_scaleMax st) (m_scaleMin st) (m_scaleStep st) (std_cerr st).

Definition floats (l : list Z) : list float := map f32_of_int l.

(** A 1 x 3 template with the contour pixels (0,0), (1,0), and a 1 x 3 query
    with the contour pixels (1,0), (2,0). *)
Definition fb_template : Template_info_t :=
  mkTemplate [[mkPoint 0 0; mkPoint 1 0]] (mkMat 1 3 (floats [0; 0; 1]))
    [[f_zero; f_zero]] [] [] (mkMat 1 3 (floats [0; 0; 0])) (mkMat 1 3 [255; 255; 255]) []
    (mkRect 0 0 0 0) (mkRect 0 0 0 0).

Definition fb_query : Query_info_t :=
  mkQuery [[mkPoint 1 0; mkPoint 2 0]] (mkMat 1 3 (floats [1; 0; 0]))
    (mkImage 1 3 1 [Byte.x00; Byte.x00; Byte.x00])
    (mkMat 1 3 (floats [0; 0; 0])) [[f_zero; f_zero]] (mkMat 1 3 [255; 255; 255]) [].

Definition fb_matcher : ChamferMatcher :=
  with_query fb_query edgeForwardBackwardMatching gridDescriptorRejection ChamferMatcher_new.

(** A 1 x 3 template with the distances 0, 5, 7 and a 1 x 4 query, flat, with
    the contour pixels (1,0), (2,0): at the offset (1,0) both lie inside the
    footprint. *)
Definition shifted_template : Template_info_t :=
  mkTemplate [[mkPoint 0 0; mkPoint 1 0]] (mkMat 1 3 (floats [0; 5; 7]))
    [[f_zero; f_zero]] [] [] (mkMat 1 3 (floats [0; 0; 0])) (mkMat 1 3 [255; 255; 255]) []
    (mkRect 0 0 0 0) (mkRect 0 0 0 0).

Definition shifted_query : Query_info_t :=
  mkQuery [[mkPoint 1 0; mkPoint 2 0]] (mkMat 1 4 (floats [0; 0; 0; 0]))
    (mkImage 1 4 1 [Byte.x00; Byte.x00; Byte.x00; Byte.x00])
    (mkMat 1 4 (floats [0; 0; 0; 0])) [[f_zero; f_zero]] (mkMat 1 4 [0; 255; 255; 0]) [].

Definition shifted_matcher : ChamferMatcher :=
  with_query shifted_query edgeForwardBackwardMatching gridDescriptorRejection
    ChamferMatcher_new.

(** A template without contours and with an empty mask. *)
Definition bare_template : Template_info_t :=
  mkTemplate [] (mkMat 1 2 (floats [3; 4])) [] [] []
    (mkMat 1 2 (floats [0; 0])) (mkMat 1 2 [0; 0]) []
    (mkRect 0 0 0 0) (mkRect 0 0 0 0).

Definition bare_query : Query_info_t :=
  mkQuery [] (mkMat 1 3 (floats [1; 2; 3]))
    (mkImage 1 3 1 [Byte.x00; Byte.x00; Byte.x00])
    (mkMat 1 3 (floats [0; 0; 0])) [] (mkMat 1 3 [0; 0; 0]) [].

Definition bare_matcher (mt : MatchingType) : ChamferMatcher :=
  with_query bare_query mt gridDescriptorRejection ChamferMatcher_new.

(** A flat 1 x [n] query and a 1 x 2 template with the contour pixels (0,0),
    (1,0): the cost map is 1 x [n - 1], the search visits every fifth cell,
    and the cost of each is 0.  With [n = 502] these are 101 cells, with
    [n = 12] three. *)
Definition strip_image (n : nat) : Image := mkImage 1 (Z.of_nat n) 1 (repeat Byte.x00 n).

Definition strip_template : Template_info_t :=
  mkTemplate [[mkPoint 0 0; mkPoint 1 0]] (Mat_fill 1 2 f_zero)
    [[f_zero; f_zero]] [] [] (Mat_fill 1 2 f_zero) (Mat_fill 1 2 255) []
    (mkRect 0 0 0 0) (mkRect 0 0 0 0).

Definition strip_matcher (n : nat) (strategy : MatchingStrategyType) : ChamferMatcher :=
  mkMatcher (m_cannyThreshold ChamferMatcher_new)
    (m_maxDescriptorDistanceError ChamferMatcher_new)
    (m_maxDescriptorOrientationError ChamferMatcher_new)
    (m_minNbDescriptorMatches ChamferMatcher_new)
    (m_gridDescriptorSize ChamferMatcher_new)
    strategy edgeMatching (flat_query (strip_image n))
    [(7, [(f32_one, strip_template)])]
    [(7, mkImage 1 2 1 [Byte.x00; Byte.x00])]
    noRejection
    (m_scaleMax ChamferMatcher_new) (m_scaleMin ChamferMatcher_new)
    (m_scaleStep ChamferMatcher_new) [].

(** A 1 x 4 template, wider than the 1 x 3 query of [bare_query]. *)
Definition wide_template : Template_info_t :=
  mkTemplate [[mkPoint 0 0; mkPoint 3 0]] (Mat_fill 1 4 f_zero)
    [[f_zero; f_zero]] [] [] (Mat_fill 1 4 f_zero) (Mat_fill 1 4 255) []
    (mkRect 0 0 0 0) (mkRect 0 0 0 0).

(** Two template images and one pair of rectangles. *)
Definition two_images : IntMap Image :=
  [ (1, mkImage 1 2 1 [Byte.x00; Byte.x01]); (2, mkImage 1 2 1 [Byte.x02; Byte.x03]) ].

Definition one_roi : IntMap (Rect * Rect) :=
  [ (1, (mkRect 0 0 2 1, mkRect 0 0 0 0)) ].

(** A matcher that holds one template: its image and, at scale 1, the
    derived data with the two rectangles. *)
Definition store_of (id : Z) (img : Image) (location roi : Rect) : ChamferMatcher :=
  set_templates
    [(id, [(f32_one, set_templateLocation location (set_queryROI roi (flat_template img)))])]
    [(id, img)] ChamferMatcher_new.

Definition gray_image : Image := mkImage 1 2 1 [Byte.x10; Byte.x20].

Definition gray_matcher : ChamferMatcher :=
  store_of 3 gray_image (mkRect 4 5 2 1) (mkRect 0 0 8 8).

(** A 1 x 1 image with four channels. *)
Definition bgra_image : Image := mkImage 1 1 4 [Byte.x10; Byte.x20; Byte.x30; Byte.xff].

Definition bgra_matcher : ChamferMatcher :=
  store_of 3 bgra_image (mkRect 4 5 1 1) (mkRect 0 0 8 8).


(** ** Detections below a threshold *)

(** [retainDetections]: a vector that is not empty is sorted by cost, and
    the detections whose cost is below the threshold are pushed, in that
    order, to the vector that replaces it. *)
Definition retainDetections (bbDetections : list Detection_t) (threshold : float)
  : list Detection_t :=
  match bbDetections with
  | [] => bbDetections
  | _ :: _ =>
      fold_left (fun retained_detections it =>
                   if fltb (m_chamferDist it) (f64_of_f32 threshold)
                   then retained_detections ++ [it] else retained_detections)
        (std_sort Detection_lt bbDetections) []
  end.

(** The assignment of [m_matchingType]. *)
Definition set_matchingType (mt : MatchingType) (st : ChamferMatcher) : ChamferMatcher :=
  mkMatcher (m_cannyThreshold st) (m_maxDescriptorDistanceError st)
    (m_maxDescriptorOrientationError st) (m_minNbDescriptorMatches st)
    (m_gridDescriptorSize st) (m_matchingStrategyType st) mt
    (m_query_info st) (m_mapOfTemplate_info st) (m_mapOfTemplateImages st)
    (m_rejectionType st) (m_scaleMax st) (m_scaleMin st) (m_scaleStep st) (std_cerr st).

(** ** Contours *)

(** [filterSingleContourPoint]: the contours of at least [min] points are
    pushed to [contours_filtered], which then replaces [contours]. *)
Definition filterSingleContourPoint (contours : list (list Point)) (min : nat)
  : list (list Point) :=
  fold_left (fun contours_filtered it_contour =>
               if (min <=? List.length it_contour)%nat
               then contours_filtered ++ [it_contour] else contours_filtered)
    contours [].

(** [m[k]] on a [std::map] that is not [const]: a key that is absent enters
    the map with the default value. *)
Definition map_at {V : Type} (d : V) (k : Z) (m : IntMap V) : V * IntMap V :=
  match map_find Z.ltb k m with
  | Some v => (v, m)
  | None => (d, map_insert Z.ltb k d m)
  end.

(** [computeEdgeMapIndex]: the label under every contour point is mapped to
    the indexes [(i, j)] of the point. *)
Definition computeEdgeMapIndex (contours : list (list Point)) (labels : Mat Z)
  (mapOfIndex : IntMap (Z * Z)) : option (IntMap (Z * Z)) :=
  for_each (fun i contour mapOfIndex =>
    for_each (fun j pt mapOfIndex =>
      label <- Mat_ptr labels (pt_y pt) (pt_x pt) ;;
      Some (map_insert Z.ltb label (Z.of_nat i, Z.of_nat j) mapOfIndex))
      contour 0%nat mapOfIndex)
    contours 0%nat mapOfIndex.

Section Contours.

(** What the contour functions take from outside.  [getPolarLineEquation]
    is declared in [Utils.hpp]: from two points, the angle and the distance
    [rho] of the line through them, and in its longer form the length of the
    segment too.  [cv_Canny] and [cv_findContours] are OpenCV's edge detector
    and contour follower, [cv_approxPolyDP] its polygon simplification.
    [default_threshold] and [default_min] are the default arguments of
    [getContours] and [filterSingleContourPoint], given in [Chamfer.hpp]. *)
Variable getPolarLineEquation : Point -> Point -> double * double.
Variable getPolarLineEquation_length : Point -> Point -> double * double * double.
Variable cv_Canny : Image -> double -> double -> Mat Z.
Variable cv_findContours : Mat Z -> list (list Point).
Variable cv_approxPolyDP : list Point -> double -> bool -> list Point.
Variable default_threshold : double.
Variable default_min : nat.

(** [getContours] *)
Definition getContours (img : Image) (threshold : double) : list (list Point) :=
  let canny_img := cv_Canny img threshold (f64_mul (f64_of_int 3) threshold) in
  let contours := cv_findContours canny_img in
  filterSingleContourPoint contours default_min.

(** One step of the loop of [getContoursOrientation] over a contour of more
    than two points; [it_point] is the point of index [k], from the second
    point on.  The second point pushes its angle twice, the last point
    repeats the orientation before it, and every other point pushes the
    angle of the line through its two neighbours. *)
Definition orientation_step (it_contour : list Point) (k : nat) (orientations : list float)
  : option (list float) :=
  if Nat.eqb k 1 then
    p <- nth_error it_contour (k - 1) ;;
    q <- nth_error it_contour (k + 1) ;;
    let '(angle, rho) := getPolarLineEquation p q in
    Some (orientations ++ [f32_of_f64 angle; f32_of_f64 angle])
  else if Nat.eqb k (List.length it_contour - 1) then
    p <- nth_error it_contour (List.length it_contour - 2) ;;
    q <- nth_error it_contour 0 ;;
    let '(angle, rho) := getPolarLineEquation p q in
    o <- nth_error orientations (List.length orientations - 1) ;;
    Some (orientations ++ [o])
  else
    p <- nth_error it_contour (k - 1) ;;
    q <- nth_error it_contour (k + 1) ;;
    let '(angle, rho) := getPolarLineEquation p q in
    Some (orientations ++ [f32_of_f64 angle]).

(** The orientations of one contour.  A contour of one or two points gets
    the orientation 0 and a message for each of its points. *)
Definition contour_orientations (st : ChamferMatcher) (it_contour : list Point)
  : option (list float * ChamferMatcher) :=
  if (2 <? List.length it_contour)%nat then
    orientations <-
      for_each (fun k _ orientations => orientation_step it_contour k orientations)
        (tl it_contour) 1%nat [] ;;
    Some (orientations, st)
  else
    for_each (fun _ _ '(orientations, st) =>
                Some (orientations ++ [f_zero], cerr "Not enough contour points !"%string st))
      it_contour 0%nat ([], st).

(** [getContoursOrientation]: one vector of orientations is pushed for every
    contour. *)
Definition getContoursOrientation (st : ChamferMatcher) (contours : list (list Point))
  (contoursOrientation : list (list float))
  : option (list (list float) * ChamferMatcher) :=
  for_each (fun _ it_contour '(contoursOrientation, st) =>
    '(orientations, st) <- contour_orientations st it_contour ;;
    Some (contoursOrientation ++ [orientations], st))
    contours 0%nat (contoursOrientation, st).

(** The body of the double loop of [createMapOfEdgeOrientations] at the
    pixel [(i, j)]: the label of the pixel is looked up with [operator[]],
    once for each index, and the orientation of that contour point is
    written. *)
Definition edge_orientation_cell (labels : Mat Z) (edges_orientation : list (list float))
  (i j : Z) (s : IntMap (Z * Z) * Mat float) : option (IntMap (Z * Z) * Mat float) :=
  let '(mapOfIndex, mapOfEdgeOrientations) := s in
  label <- Mat_ptr labels i j ;;
  let '(idx, mapOfIndex) := map_at (0, 0) label mapOfIndex in
  let idx1 := fst idx in
  let '(idx, mapOfIndex) := map_at (0, 0) label mapOfIndex in
  let idx2 := snd idx in
  o <- vec2 edges_orientation (Z.to_nat idx1) (Z.to_nat idx2) ;;
  mapOfEdgeOrientations <- Mat_set mapOfEdgeOrientations i j o ;;
  Some (mapOfIndex, mapOfEdgeOrientations).

(** [createMapOfEdgeOrientations]: the orientation map, the contours and the
    orientations of their points. *)
Definition createMapOfEdgeOrientations (st : ChamferMatcher) (img : Image) (labels : Mat Z)
  (edges_orientation : list (list float))
  : option (Mat float * list (list Point) * list (list float) * ChamferMatcher) :=
  let contours := getContours img default_threshold in
  '(edges_orientation, st) <- getContoursOrientation st contours edges_orientation ;;
  mapOfIndex <- computeEdgeMapIndex contours labels [] ;;
  let mapOfEdgeOrientations := Mat_fill (img_rows img) (img_cols img) f_zero in
  '(_, mapOfEdgeOrientations) <-
    for_grid 0 (img_rows img) 1 0 (img_cols img) 1
      (edge_orientation_cell labels edges_orientation)
      (mapOfIndex, mapOfEdgeOrientations) ;;
  Some (mapOfEdgeOrientations, contours, edges_orientation, st).

(** The lines of one approximated contour: the bound of the loop is
    [approx_contour.size()-1] in [size_t], which wraps around for a contour
    without points, and the first read is then outside the vector. *)
Definition contour_lines_of (approx_contour : list Point) : option (list Line_info_t) :=
  match approx_contour with
  | [] => None
  | _ :: _ =>
      for_each (fun _ j lines =>
        p <- nth_error approx_contour j ;;
        q <- nth_error approx_contour (j + 1) ;;
        let '(theta, rho, length) := getPolarLineEquation_length p q in
        Some (lines ++ [mkLine length rho theta p q]))
        (seq 0 (List.length approx_contour - 1)) 0%nat []
  end.

(** [approximateContours]: what [contour_lines] holds when the function
    returns.  The vector is a parameter passed by value, the function's own
    copy of the caller's vector.  The members of a [Line_info_t] are taken to
    be set by its constructor, declared in [Chamfer.hpp], in the order of its
    arguments. *)
Definition approximateContours (contours : list (list Point))
  (contour_lines : list (list Line_info_t)) (epsilon : double)
  : option (list (list Line_info_t)) :=
  for_each (fun _ contour contour_lines =>
    let approx_contour := cv_approxPolyDP contour epsilon true in
    lines <- contour_lines_of approx_contour ;;
    Some (contour_lines ++ [lines]))
    contours 0%nat contour_lines.

End Contours.


(** ** The order of the costs *)

(** A cost that is a number, not NaN. *)
Definition cost_number (d : Detection_t) : bool := negb (is_nan (m_chamferDist d)).

(** A cost that is not above another one. *)
Definition cost_le (a b : Detection_t) : Prop :=
  fleb (m_chamferDist a) (m_chamferDist b) = true.

(** The test [m_chamferDist < threshold]. *)
Definition below (threshold : float) (d : Detection_t) : bool :=
  fltb (m_chamferDist d) (f64_of_f32 threshold).

(** ** The cost map *)

(** The dimensions of the cost map of a template. *)
Definition chamferMapWidth (st : ChamferMatcher) (template_info : Template_info_t) : Z :=
  cols (q_distImg (m_query_info st)) - cols (m_distImg template_info) + 1.

Definition chamferMapHeight (st : ChamferMatcher) (template_info : Template_info_t) : Z :=
  rows (q_distImg (m_query_info st)) - rows (m_distImg template_info) + 1.

Section CostMapCells.
Context {E : Externals}.

(** What a cell of the cost map holds: the initial value, or a cost that was
    computed at some position, narrowed to [float]. *)
Definition cell_of_map (st : ChamferMatcher) (template_info : Template_info_t)
  (useOrientation : bool) (lambda weight_forward weight_backward : float) (v : float) : Prop :=
  v = FLT_MAX \/
  exists i j cost,
    cost_at st template_info j i useOrientation lambda weight_forward weight_backward
    = Some cost /\ v = f32_of_f64 cost.

End CostMapCells.

(** The cells the double loop of [for_grid] visits, row by row. *)
Definition grid_cells (startI endI yStep startJ endJ xStep : Z) : list (Z * Z) :=
  match for_range startI endI yStep, for_range startJ endJ xStep with
  | Some range_i, Some range_j => list_prod range_i range_j
  | _, _ => []
  end.

(** A box of the size of the template that lies inside the query image. *)
Definition box_in_query (st : ChamferMatcher) (template_info : Template_info_t) (b : Rect)
  : Prop :=
  r_width b = cols (m_distImg template_info) /\
  r_height b = rows (m_distImg template_info) /\
  0 <= r_x b /\ r_x b + r_width b <= cols (q_distImg (m_query_info st)) /\
  0 <= r_y b /\ r_y b + r_height b <= rows (q_distImg (m_query_info st)).

(** ** The clusters of [groupDetections] *)

(** The detections that are not picked yet. *)
Fixpoint unpicked (detections : list Detection_t) (already_picked : list bool)
  : list Detection_t :=
  match detections, already_picked with
  | d :: detections', picked :: already_picked' =>
      if picked then unpicked detections' already_picked'
      else d :: unpicked detections' already_picked'
  | _, _ => []
  end.

(** The clusters that [groupDetections] forms. *)
Definition clusters_of (detections : list Detection_t) (overlapPercentage : double)
  : list (list Detection_t) :=
  cluster_loop overlapPercentage detections (repeat false (List.length detections)) [].


(** ** The labels of the detections *)

(** The template index of a detection is the id of a template that holds an
    entry at scale 1. *)
Definition labelled_at_scale_one (st : ChamferMatcher) (d : Detection_t) : Prop :=
  exists scales template_info,
    In (m_templateIndex d, scales) (m_mapOfTemplate_info st) /\
    map_find fltb f32_one scales = Some template_info.

(** The template index and the scale of a detection are the keys of an entry
    of the template store. *)
Definition labelled_with_entry (st : ChamferMatcher) (d : Detection_t) : Prop :=
  exists scales template_info,
    In (m_templateIndex d, scales) (m_mapOfTemplate_info st) /\
    In (m_scale d, template_info) scales.

(** ** The entries of the template store *)

(** The store holds an entry for the template [id] at the scale [scale]. *)
Definition has_entry (info : IntMap (FloatMap Template_info_t)) (id : Z) (scale : float)
  : bool :=
  match map_find Z.ltb id info with
  | Some scales => is_some (map_find fltb scale scales)
  | None => false
  end.

Section Configured.
Context {E : Externals}.

(** The template [id] with the image [img] is configured in [st']: its image
    is stored, and its entry at scale 1 is the data derived from the image,
    with the location and the region of interest that [rois] gives for it.
    The derived data is computed with the settings of [st]. *)
Definition template_configured (st st' : ChamferMatcher) (rois : IntMap (Rect * Rect))
  (id : Z) (img : Image) : Prop :=
  exists location roi scales,
    map_find Z.ltb id rois = Some (location, roi) /\
    map_find Z.ltb id (m_mapOfTemplateImages st') = Some img /\
    map_find Z.ltb id (m_mapOfTemplate_info st') = Some scales /\
    map_find fltb f32_one scales
    = Some (set_queryROI roi
              (set_templateLocation location
                 (prepareTemplate (m_cannyThreshold st) (m_gridDescriptorSize st) img))).

End Configured.

(** ** The orientation of a contour point *)

(** The angle of the line through the two neighbours of the point [k] of a
    contour, as a [float]. *)
Definition neighbour_angle (getPolarLineEquation : Point -> Point -> double * double)
  (it_contour : list Point) (k : nat) : option float :=
  match nth_error it_contour (k - 1), nth_error it_contour (k + 1) with
  | Some p, Some q => Some (f32_of_f64 (fst (getPolarLineEquation p q)))
  | _, _ => None
  end.

(** ** The index of the edge labels *)

(** The map sends [label] to the indexes of a contour point that lies on a
    pixel of this label. *)
Definition indexes_contour_point (contours : list (list Point)) (labels : Mat Z)
  (label : Z) (idx : Z * Z) : Prop :=
  exists i j pt,
    idx = (Z.of_nat i, Z.of_nat j) /\ vec2 contours i j = Some pt /\
    Mat_ptr labels (pt_y pt) (pt_x pt) = Some label.

(** ** The map of edge orientations *)

(** The orientation that the pixel [(y, x)] gets: the one at the indexes the
    map gives for the label of the pixel, at [(0, 0)] when the label is not
    a key of the map. *)
Definition pixel_orientation (labels : Mat Z) (mapOfIndex : IntMap (Z * Z))
  (edges_orientation : list (list float)) (y x : Z) : option float :=
  label <- Mat_ptr labels y x ;;
  let idx := map_get Z.ltb (0, 0) label mapOfIndex in
  vec2 edges_orientation (Z.to_nat (fst idx)) (Z.to_nat (snd idx)).

(** The pixel [(y, x)] of the orientation map holds the orientation of a
    contour point on a pixel of the same label, or, when no contour point
    lies on this label, the orientation of the first point of the first
    contour. *)
Definition orientation_of_nearest_edge (contours : list (list Point)) (labels : Mat Z)
  (edges_orientation : list (list float)) (field : Mat float) (y x : Z) : Prop :=
  exists label o,
    Mat_ptr labels y x = Some label /\ Mat_ptr field y x = Some o /\
    ((exists i j pt,
        vec2 contours i j = Some pt /\
        Mat_ptr labels (pt_y pt) (pt_x pt) = Some label /\
        vec2 edges_orientation i j = Some o) \/
     ((forall i j pt, vec2 contours i j = Some pt ->
         Mat_ptr labels (pt_y pt) (pt_x pt) <> Some label) /\
      vec2 edges_orientation 0 0 = Some o)).

(** ** The lines of an approximated contour *)

(** One line for every two consecutive points: the line [j] goes from the
    point [j] to the point [j + 1]. *)
Definition chained_lines (approx_contour : list Point) (lines : list Line_info_t) : Prop :=
  S (List.length lines) = List.length approx_contour /\
  forall j line, nth_error lines j = Some line ->
    nth_error approx_contour j = Some (m_pointStart line) /\
    nth_error approx_contour (S j) = Some (m_PointEnd line).

(** ** Templates at one scale *)

(** The template holds its entry at scale 1 and no other entry. *)
Definition only_scale_one (entry : Z * FloatMap Template_info_t) : Prop :=
  exists template_info, snd entry = [(f32_one, template_info)].

(** ** The cells below the threshold *)

(** The number of cells of a cost map whose cost is below the threshold. *)
Definition cells_below (distanceThresh : float) (cells : list float) : nat :=
  List.length (filter (fun v => fltb (f64_of_f32 v) (f64_of_f32 distanceThresh)) cells).


(** ** More example inputs *)

(** The binary32 number 2^-30: added to 1 it is absorbed by the rounding. *)
Definition tiny_step : float := S754_finite false 8388608 (-53).

(** Three detections with the costs 5, 1 and 3. *)
Definition retain_example : list Detection_t :=
  [ Detection_new (mkRect 0 0 2 2) (f64_of_int 5) f32_one;
    Detection_new (mkRect 4 0 2 2) (f64_of_int 1) f32_one;
    Detection_new (mkRect 8 0 2 2) (f64_of_int 3) f32_one ].

(** A pair of rectangles for each of the two images. *)
Definition two_rois : IntMap (Rect * Rect) :=
  [ (1, (mkRect 0 0 2 1, mkRect 0 0 0 0)); (2, (mkRect 3 4 2 1, mkRect 0 0 6 6)) ].

(** A stand-in for [getPolarLineEquation] in the examples: the angle is the
    difference of the abscissas. *)
Definition example_polar (p q : Point) : double * double :=
  (f64_of_int (pt_x q - pt_x p), f_zero).

Definition example_contour : list Point :=
  [mkPoint 0 0; mkPoint 1 0; mkPoint 3 0; mkPoint 6 0].

(** Stand-ins for OpenCV in the examples: the edge map is empty, the
    contour follower finds [example_contour], the polygon simplification
    keeps every point, and a segment has no length. *)
Definition example_Canny (img : Image) (threshold1 threshold2 : double) : Mat Z :=
  Mat_fill (img_rows img) (img_cols img) 0.

Definition example_findContours (canny_img : Mat Z) : list (list Point) :=
  [example_contour].

Definition no_contours (canny_img : Mat Z) : list (list Point) := [].

Definition example_approxPolyDP (contour : list Point) (epsilon : double) (closed : bool)
  : list Point := contour.

Definition example_polar_length (p q : Point) : double * double * double :=
  (f64_of_int (pt_x q - pt_x p), f_zero, f_zero).

(** The edge labels of a 1 x 7 image. *)
Definition example_labels : Mat Z := mkMat 1 7 [4; 4; 5; 5; 5; 6; 6].

(** * Properties *)

(** ** Sorting *)

Section SortPermutation.
Context {A : Type} (lt : A -> A -> bool).

Lemma sort_insert_perm (a : A) (l : list A) :
  Permutation (a :: l) (sort_insert lt a l).
Proof.
  induction l as [|b l IH]; simpl; [reflexivity|].
  destruct (lt a b); [reflexivity|].
  rewrite perm_swap. now constructor.
Qed.

Lemma std_sort_from_perm (l acc : list A) :
  Permutation (acc ++ l) (fold_left (fun acc a => sort_insert lt a acc) l acc).
Proof.
  revert acc; induction l as [|a l IH]; intros acc; simpl.
  - now rewrite app_nil_r.
  - eapply Permutation_trans; [|apply IH].
    eapply Permutation_trans; [symmetry; apply Permutation_middle|].
    change (a :: acc ++ l) with ((a :: acc) ++ l).
    apply Permutation_app_tail, sort_insert_perm.
Qed.

Lemma std_sort_perm (l : list A) : Permutation l (std_sort lt l).
Proof. exact (std_sort_from_perm l []). Qed.

Lemma std_sort_length (l : list A) : List.length (std_sort lt l) = List.length l.
Proof. symmetry. apply Permutation_length, std_sort_perm. Qed.

End SortPermutation.

Section SortByKey.
Context {A : Type} (key : A -> Z).

Let lt (a b : A) : bool := key a <? key b.
Let le (a b : A) : Prop := key a <= key b.

Lemma sort_insert_sorted (a : A) (l : list A) :
  StronglySorted le l -> StronglySorted le (sort_insert lt a l).
Proof.
  induction 1 as [|b l Hs IH Hb]; simpl.
  - repeat constructor.
  - destruct (lt a b) eqn:E; unfold lt in E.
    + apply Z.ltb_lt in E. constructor; [now constructor|].
      constructor; [unfold le; lia|].
      eapply Forall_impl; [|exact Hb]. unfold le. intros; simpl in *; lia.
    + apply Z.ltb_ge in E. constructor; [exact IH|].
      eapply Permutation_Forall; [apply sort_insert_perm|].
      constructor; [exact E | exact Hb].
Qed.

Lemma std_sort_from_sorted (l acc : list A) :
  StronglySorted le acc ->
  StronglySorted le (fold_left (fun acc a => sort_insert lt a acc) l acc).
Proof.
  revert acc; induction l as [|a l IH]; intros acc Hacc; simpl; [exact Hacc|].
  apply IH. now apply sort_insert_sorted.
Qed.

Lemma std_sort_sorted (l : list A) : StronglySorted le (std_sort lt l).
Proof. apply std_sort_from_sorted. constructor. Qed.

End SortByKey.

(** ** Non-maximum suppression *)

Lemma nms_loop_survivors (l acc : list Detection_t) :
  nms_loop l acc = acc ++ survivors l.
Proof.
  revert acc; induction l as [|d rest IH]; intros acc; simpl.
  - now rewrite app_nil_r.
  - rewrite IH. destruct (existsb _ rest); [reflexivity|].
    now rewrite <- app_assoc.
Qed.

Lemma survivors_incl (l : list Detection_t) (d : Detection_t) :
  In d (survivors l) -> In d l.
Proof.
  induction l as [|x rest IH]; simpl; [tauto|].
  destruct (existsb _ rest); simpl; intuition.
Qed.

Lemma wrap_int_fits (z : Z) : - 2 ^ 31 <= z < 2 ^ 31 -> wrap_int z = z.
Proof.
  intros Hz. unfold wrap_int. rewrite Z.mod_small; lia.
Qed.

Lemma is_inside_area (r1 r2 : Rect) :
  rect_fits r1 -> rect_fits r2 ->
  is_inside r1 r2 = true -> Rect_area r1 < Rect_area r2.
Proof.
  unfold is_inside, Rect_area.
  intros (Hw1 & Hh1 & Hx1 & Hr1 & Hy1 & Hb1 & Ha1) (Hw2 & Hh2 & Hx2 & Hr2 & Hy2 & Hb2 & Ha2) H.
  rewrite !(wrap_int_fits (_ + _)) in H by lia.
  repeat (apply andb_prop in H; destruct H as [H ?]).
  repeat match goal with H : (_ <? _) = true |- _ => apply Z.ltb_lt in H end.
  assert (Hlt : r_width r1 * r_height r1 < r_width r2 * r_height r2) by nia.
  rewrite !wrap_int_fits; nia.
Qed.

Lemma is_inside_irrefl (r : Rect) : is_inside r r = false.
Proof.
  unfold is_inside. rewrite (Z.ltb_irrefl (r_x r)).
  now rewrite andb_false_r.
Qed.

Lemma survivors_no_nested (l : list Detection_t) :
  StronglySorted area_le l -> Forall box_wf l ->
  forall a b, In a (survivors l) -> In b (survivors l) ->
    is_inside (m_boundingBox a) (m_boundingBox b) = false.
Proof.
  induction 1 as [|d rest Hs IH Hd]; intros Hwf a b Ha Hb; [destruct Ha|].
  inversion Hwf as [|? ? Hwd Hwrest]; subst.
  simpl in Ha, Hb.
  destruct (existsb _ rest) eqn:E.
  - now apply IH.
  - assert (Hnone : forall x, In x rest ->
              is_inside (m_boundingBox d) (m_boundingBox x) = false).
    { intros x Hx. destruct (is_inside _ (m_boundingBox x)) eqn:Ex; [|reflexivity].
      assert (existsb (fun d2 => is_inside (m_boundingBox d) (m_boundingBox d2)) rest = true)
        by (apply existsb_exists; eauto).
      congruence. }
    destruct Ha as [<-|Ha], Hb as [<-|Hb].
    + apply is_inside_irrefl.
    + apply Hnone. now apply survivors_incl.
    + destruct (is_inside (m_boundingBox a) (m_boundingBox d)) eqn:Ex; [|reflexivity].
      exfalso. apply survivors_incl in Ha.
      rewrite Forall_forall in Hd, Hwrest.
      specialize (Hd a Ha).
      apply is_inside_area in Ex; [|exact (Hwrest a Ha) | exact Hwd].
      unfold area_le in Hd. lia.
    + now apply IH.
Qed.

(** C7 (amended). After non-maximum suppression of detections whose boxes
    have a non-negative width and height, and edges and an area that an
    [int] holds, no surviving detection's bounding box is strictly contained
    (all four edges strictly inside) within another surviving detection's
    bounding box. *)
Theorem nonMaximaSuppression_no_nested (detections : list Detection_t) :
  Forall box_wf detections ->
  forall a b,
    In a (nonMaximaSuppression detections []) ->
    In b (nonMaximaSuppression detections []) ->
    is_inside (m_boundingBox a) (m_boundingBox b) = false.
Proof.
  intros Hwf a b. unfold nonMaximaSuppression.
  rewrite nms_loop_survivors. simpl.
  apply survivors_no_nested.
  - exact (std_sort_sorted (fun d => Rect_area (m_boundingBox d)) detections).
  - eapply Permutation_Forall; [|exact Hwf].
    exact (std_sort_perm less_than_area detections).
Qed.

Lemma nonMaximaSuppression_no_nested_witness :
  Forall box_wf nms_example /\
  List.length (nonMaximaSuppression nms_example []) = 2%nat /\
  forall a b,
    In a (nonMaximaSuppression nms_example []) ->
    In b (nonMaximaSuppression nms_example []) ->
    is_inside (m_boundingBox a) (m_boundingBox b) = false.
Proof.
  assert (H : Forall box_wf nms_example)
    by (repeat constructor; simpl; lia).
  split; [exact H|]. split; [reflexivity|].
  exact (nonMaximaSuppression_no_nested nms_example H).
Defined.

(** C7, as stated, fails on a box of negative width and height: the box
    [(1, 1, -20, -20)] passes the test of the inner loop against the box
    [(0, 0, 10, 10)], but its area, 400, sorts it behind that box, where the
    loop compares it with nothing; both survive. *)
Lemma nonMaximaSuppression_negative_box_survives :
  nonMaximaSuppression nested_example [] = nested_example /\
  exists a b,
    In a (nonMaximaSuppression nested_example []) /\
    In b (nonMaximaSuppression nested_example []) /\
    m_boundingBox a = mkRect 1 1 (-20) (-20) /\
    m_boundingBox b = mkRect 0 0 10 10 /\
    is_inside (m_boundingBox a) (m_boundingBox b) = true.
Proof.
  split; [reflexivity|].
  exists (Detection_new (mkRect 1 1 (-20) (-20)) f_zero f_zero),
         (Detection_new (mkRect 0 0 10 10) f_zero f_zero).
  split; [right; left; reflexivity|]. split; [left; reflexivity|].
  repeat split.
Qed.


(** ** The order of IEEE comparisons *)

Lemma aligned_scale (x : spec_float) (E E0 : Z) :
  E <= E0 -> exponent_ge x E0 -> aligned x E = aligned x E0 * 2 ^ (E0 - E).
Proof.
  destruct x as [s|s| |s m e]; cbn [aligned exponent_ge]; intros H1 H2;
    try reflexivity.
  replace (e - E) with ((e - E0) + (E0 - E)) by lia.
  rewrite Z.pow_add_r by lia.
  unfold cond_Zopp. destruct s; ring.
Qed.

Lemma common_exponent_le_l (x y : spec_float) : exponent_ge x (common_exponent x y).
Proof. destruct x, y; simpl; lia. Qed.

Lemma common_exponent_le_r (x y : spec_float) : exponent_ge y (common_exponent x y).
Proof. destruct x, y; simpl; lia. Qed.

Lemma exponent_ge_le (x : spec_float) (E E' : Z) :
  E <= E' -> exponent_ge x E' -> exponent_ge x E.
Proof. destruct x; simpl; lia. Qed.

(** Two finite numbers compare as their integers at any common alignment. *)
Lemma fcompare_aligned (x y : spec_float) (E : Z) :
  finite_or_zero x -> finite_or_zero y ->
  E <= common_exponent x y ->
  fcompare x y = Some (aligned x E ?= aligned y E).
Proof.
  intros Hx Hy HE.
  assert (Hc : fcompare x y =
               Some (aligned x (common_exponent x y) ?= aligned y (common_exponent x y))).
  { destruct x, y; simpl in Hx, Hy; try contradiction; reflexivity. }
  rewrite Hc. f_equal.
  rewrite (aligned_scale x E (common_exponent x y)) by (auto using common_exponent_le_l).
  rewrite (aligned_scale y E (common_exponent x y)) by (auto using common_exponent_le_r).
  apply Zmult_compare_compat_r. apply Z.lt_gt, Z.pow_pos_nonneg; lia.
Qed.

Lemma fcompare_three (x y z : spec_float) :
  finite_or_zero x -> finite_or_zero y -> finite_or_zero z ->
  fcompare x y = Some (aligned x (three_exponent x y z) ?= aligned y (three_exponent x y z)) /\
  fcompare y z = Some (aligned y (three_exponent x y z) ?= aligned z (three_exponent x y z)) /\
  fcompare x z = Some (aligned x (three_exponent x y z) ?= aligned z (three_exponent x y z)).
Proof.
  intros Hx Hy Hz. unfold three_exponent.
  repeat split; apply fcompare_aligned; trivial; lia.
Qed.

Lemma Zcompare_lt_le_trans (a b c : Z) :
  Some (a ?= b) = Some Lt ->
  Some (b ?= c) = Some Lt \/ Some (b ?= c) = Some Eq ->
  Some (a ?= c) = Some Lt.
Proof.
  intros H1 H2. injection H1 as H1. f_equal.
  change (a < c). change (a < b) in H1.
  destruct H2 as [H2|H2]; injection H2 as H2;
    [change (b < c) in H2 | apply Z.compare_eq_iff in H2]; lia.
Qed.

Lemma Zcompare_eq_trans (a b c : Z) :
  Some (a ?= b) = Some Eq -> Some (b ?= c) = Some Eq -> Some (a ?= c) = Some Eq.
Proof.
  intros H1 H2. injection H1 as H1. injection H2 as H2. f_equal.
  apply Z.compare_eq_iff in H1, H2. apply Z.compare_eq_iff. lia.
Qed.

(** The case analysis of a transitivity: three finite numbers are compared
    at one alignment by [lemma_Z], the other cases are decided by the signs
    of the infinities. *)
Ltac three_way H1 H2 lemma_Z :=
  first
    [ solve
        [ let E1 := fresh "E" in
          let E2 := fresh "E" in
          let E3 := fresh "E" in
          match goal with
          | |- fcompare ?a ?c = _ =>
              match type of H1 with
              | fcompare _ ?b = _ =>
                  destruct (fcompare_three a b c I I I) as (E1 & E2 & E3)
              end
          end;
          rewrite E1 in H1; rewrite E2 in H2; rewrite E3;
          exact (lemma_Z _ _ _ H1 H2) ]
    | cbn [fcompare] in H1, H2 |- *;
      repeat match goal with s : bool |- _ => destruct s end;
      cbv iota in H1, H2 |- *;
      first [ reflexivity | discriminate H1 | discriminate H2
            | destruct H2 as [H2|H2]; discriminate H2 ] ].

Lemma fcompare_lt_le_trans (x y z : spec_float) :
  fcompare x y = Some Lt ->
  fcompare y z = Some Lt \/ fcompare y z = Some Eq ->
  fcompare x z = Some Lt.
Proof.
  intros H1 H2.
  destruct x as [sx|sx| |sx mx ex], y as [sy|sy| |sy my ey], z as [sz|sz| |sz mz ez];
    three_way H1 H2 Zcompare_lt_le_trans.
Qed.

Lemma fcompare_eq_trans (x y z : spec_float) :
  fcompare x y = Some Eq -> fcompare y z = Some Eq -> fcompare x z = Some Eq.
Proof.
  intros H1 H2.
  destruct x as [sx|sx| |sx mx ex], y as [sy|sy| |sy my ey], z as [sz|sz| |sz mz ez];
    three_way H1 H2 Zcompare_eq_trans.
Qed.

Lemma common_exponent_comm (x y : spec_float) :
  common_exponent x y = common_exponent y x.
Proof. destruct x, y; simpl; trivial. apply Z.min_comm. Qed.

Lemma fcompare_antisym (x y : spec_float) :
  fcompare y x = option_map CompOpp (fcompare x y).
Proof.
  destruct x as [sx|sx| |sx mx ex], y as [sy|sy| |sy my ey];
    try (cbn [fcompare option_map]; rewrite (common_exponent_comm _ _);
         f_equal; apply Z.compare_antisym);
    cbn [fcompare option_map];
    repeat match goal with s : bool |- _ => destruct s end; reflexivity.
Qed.

Lemma fcompare_defined (x y : spec_float) :
  is_nan x = false -> is_nan y = false -> exists c, fcompare x y = Some c.
Proof.
  destruct x, y; simpl; intros Hx Hy; try discriminate; eexists; reflexivity.
Qed.

(** Among numbers, two keys that are not below each other are equal. *)
Lemma key_equiv_fcompare (x y : spec_float) :
  is_nan x = false -> is_nan y = false ->
  key_equiv fltb x y = true <-> fcompare x y = Some Eq.
Proof.
  intros Hx Hy. unfold key_equiv, fltb.
  rewrite (fcompare_antisym x y).
  destruct (fcompare_defined x y Hx Hy) as (c & ->).
  destruct c; simpl; split; congruence.
Qed.

Lemma fltb_fleb_trans (x y z : spec_float) :
  fltb x y = true -> fleb y z = true -> fltb x z = true.
Proof.
  unfold fltb, fleb. intros H1 H2.
  rewrite (fcompare_lt_le_trans x y z); [reflexivity| |].
  - destruct (fcompare x y) as [[]|]; congruence.
  - destruct (fcompare y z) as [[]|]; auto; discriminate.
Qed.

Lemma fltb_nan_l (x : spec_float) : fltb S754_nan x = false.
Proof. reflexivity. Qed.

Lemma fltb_asym (x y : spec_float) : fltb x y = true -> fltb y x = false.
Proof.
  unfold fltb. rewrite (fcompare_antisym x y).
  destruct (fcompare x y) as [[]|]; simpl; congruence.
Qed.

Lemma fleb_not_nan (x y : spec_float) : fleb x y = true -> is_nan x = false.
Proof. destruct x; simpl; trivial. discriminate. Qed.

(** *** A scale equal to 1 *)

Lemma iter_xO (m d : positive) : Zpos (Pos.iter xO m d) = Zpos m * 2 ^ Zpos d.
Proof.
  induction d as [|d IH] using Pos.peano_ind.
  - simpl. lia.
  - rewrite Pos.iter_succ, Pos2Z.inj_succ, Z.pow_succ_r by lia.
    rewrite Pos2Z.inj_xO, IH. ring.
Qed.

Lemma shl_align_fst (m : positive) (e ez : Z) :
  ez <= e -> Zpos (fst (shl_align m e ez)) = Zpos m * 2 ^ (e - ez).
Proof.
  intros Hle. unfold shl_align.
  destruct (ez - e) as [|d|d] eqn:Ed.
  - replace (e - ez) with 0 by lia. simpl. lia.
  - lia.
  - cbn [fst]. rewrite iter_xO. f_equal. f_equal. lia.
Qed.

Lemma f32_sub_one (s : float) :
  fcompare s f32_one = Some Eq -> f32_sub s f32_one = S754_zero false.
Proof.
  destruct s as [sg|sg| |sg m e]; try (destruct sg; discriminate); try discriminate.
  change f32_one with (S754_finite false 8388608 (-23)).
  set (E := Z.min e (-23)).
  set (A := cond_Zopp sg (Zpos m * 2 ^ (e - E))).
  set (B := Zpos 8388608 * 2 ^ (-23 - E)).
  intros H.
  assert (HAB : A = B).
  { apply Z.compare_eq_iff.
    change (Some (A ?= B) = Some Eq) in H. congruence. }
  change (binary_normalize 24 128
            (Z.sub (cond_Zopp sg (Zpos (fst (shl_align m e E))))
                   (Zpos (fst (shl_align 8388608 (-23) E)))) E false
          = S754_zero false).
  rewrite !shl_align_fst by (unfold E; lia).
  fold A. fold B. rewrite HAB, Z.sub_diag. reflexivity.
Qed.

(** The guard of the sweep keeps the scale 1 out, when the step is
    positive. *)
Lemma sweep_guard_not_one (sstep s : float) :
  fltb f_zero sstep = true ->
  is_nan s = false ->
  fltb sstep (f32_mul (f32_abs (f32_sub s f32_one)) f32_100) = true ->
  key_equiv fltb f32_one s = false.
Proof.
  intros Hstep Hs Hguard.
  destruct (key_equiv fltb f32_one s) eqn:Ek; [|reflexivity].
  apply key_equiv_fcompare in Ek; [|reflexivity | exact Hs].
  assert (Es : fcompare s f32_one = Some Eq)
    by (rewrite (fcompare_antisym f32_one s), Ek; reflexivity).
  rewrite (f32_sub_one s Es) in Hguard.
  change (f32_mul (f32_abs (S754_zero false)) f32_100) with f_zero in Hguard.
  apply fltb_asym in Hstep. congruence.
Qed.


Section CostProperties.
Context {E : Externals}.

(** ** The loops of the cost functions *)

Lemma for_each_skip {A T : Type} (body : nat -> A -> T -> option T) (l : list A) :
  (forall j a s, In a l -> body j a s = Some s) ->
  forall j s, for_each body l j s = Some s.
Proof.
  induction l as [|a l IH]; intros Hb j s; simpl; [reflexivity|].
  rewrite Hb by now left. apply IH. intros; apply Hb; now right.
Qed.

(** A loop whose body adds [w a] to [nbElements] adds the sum of the [w a]. *)
Lemma for_each_count {A : Type} (body : nat -> A -> cost_acc -> option cost_acc)
  (w : A -> Z) (l : list A) :
  (forall j a cd nb cd' nb',
      body j a (cd, nb) = Some (cd', nb') -> nb' = nb + w a) ->
  forall j cd nb cd' nb',
    for_each body l j (cd, nb) = Some (cd', nb') ->
    nb' = nb + fold_right (fun a n => w a + n) 0 l.
Proof.
  intros Hb. induction l as [|a l IH]; intros j cd nb cd' nb' H; simpl in *.
  - injection H as _ <-. apply Zplus_0_r_reverse.
  - destruct (body j a (cd, nb)) as [[cd1 nb1]|] eqn:Hbody; [|discriminate].
    apply Hb in Hbody. apply IH in H. lia.
Qed.

Lemma fold_right_zero {A : Type} (l : list A) :
  fold_right (fun (_ : A) n => 0 + n) 0 l = 0.
Proof. induction l as [|a l IH]; simpl; [reflexivity | exact IH]. Qed.

Lemma edge_forward_count q t ox oy uo lambda w cd nb cd' nb' :
  edge_forward q t ox oy uo lambda w (cd, nb) = Some (cd', nb') ->
  nb' = nb + pixel_count (m_contours t).
Proof.
  unfold edge_forward, pixel_count. intros H.
  revert H. generalize 0%nat at 2. intros i0 H.
  eapply (for_each_count _ (fun contour => Z.of_nat (List.length contour))) in H.
  - exact H.
  - clear. intros i contour cd nb cd' nb' H.
    eapply (for_each_count _ (fun _ => 1)) in H.
    + rewrite H. f_equal. clear. induction contour as [|p c IH]; [reflexivity|].
      cbn [fold_right List.length]. rewrite Nat2Z.inj_succ. lia.
    + clear. intros j pt cd nb cd' nb' H.
      destruct (Mat_ptr _ _ _); [|discriminate].
      destruct uo.
      * destruct (vec2 _ _ _); [|discriminate].
        destruct (Mat_ptr _ _ _); [|discriminate]. now injection H as _ <-.
      * now injection H as _ <-.
Qed.

(** The backward pass of the edge matching leaves [nbElements] as it was. *)
Lemma edge_backward_count q t ox oy uo lambda w cd nb cd' nb' :
  edge_backward q t ox oy uo lambda w (cd, nb) = Some (cd', nb') -> nb' = nb.
Proof.
  unfold edge_backward. intros H.
  revert H. generalize 0%nat at 2. intros i0 H.
  eapply (for_each_count _ (fun _ => 0)) in H.
  - rewrite H, fold_right_zero. lia.
  - clear. intros i contour cd nb cd' nb' H.
    eapply (for_each_count _ (fun _ => 0)) in H.
    + rewrite H, fold_right_zero. lia.
    + clear. intros j pt cd nb cd' nb' H.
      destruct (_ && _).
      * destruct uo.
        -- destruct (Mat_ptr _ _ _); [|discriminate].
           destruct (vec2 _ _ _); [|discriminate].
           destruct (Mat_ptr _ _ _); [|discriminate]. injection H as _ <-. lia.
        -- destruct (Mat_ptr _ _ _); [|discriminate]. injection H as _ <-. lia.
      * injection H as _ <-. lia.
Qed.

(** The divisor of the edge matching, forward only or forward+backward, is
    the number of template contour pixels. *)
Lemma computeChamferDistance_edge_divisor st t ox oy uo lambda wf wb c :
  is_lineType (m_matchingType st) = false ->
  computeChamferDistance st t ox oy uo lambda wf wb = Some c ->
  exists chamfer_dist,
    c = f64_div chamfer_dist (f64_of_int (pixel_count (m_contours t))).
Proof.
  unfold computeChamferDistance. intros -> H.
  destruct (edge_forward _ _ _ _ _ _ _ _) as [[cd1 nb1]|] eqn:Hf; [|discriminate].
  apply edge_forward_count in Hf. simpl in Hf.
  destruct (MatchingType_eqb _ _).
  - destruct (edge_backward _ _ _ _ _ _ _ _) as [[cd2 nb2]|] eqn:Hb; [|discriminate].
    apply edge_backward_count in Hb. subst. injection H as <-. now exists cd2.
  - injection H as <-. subst. now exists cd1.
Qed.

(** ** Evaluations without a contributing pixel *)

Lemma sum_nonneg {A : Type} (w : A -> Z) (l : list A) :
  (forall a, 0 <= w a) -> 0 <= fold_right (fun a n => w a + n) 0 l.
Proof.
  intros Hw. induction l as [|a l IH]; cbn [fold_right]; [lia|].
  specialize (Hw a). lia.
Qed.

Lemma sum_zero {A : Type} (w : A -> Z) (l : list A) :
  (forall a, 0 <= w a) ->
  fold_right (fun a n => w a + n) 0 l = 0 ->
  forall a, In a l -> w a = 0.
Proof.
  intros Hw. induction l as [|a0 l IH]; cbn [fold_right]; intros H a Hin; [destruct Hin|].
  pose proof (sum_nonneg w l Hw). pose proof (Hw a0).
  destruct Hin as [<-|Hin]; [lia|]. apply IH; [lia | exact Hin].
Qed.

Lemma pixel_count_nonneg (contours : list (list Point)) : 0 <= pixel_count contours.
Proof. apply (sum_nonneg (fun c => Z.of_nat (List.length c))). intros; lia. Qed.

Lemma pixel_count_zero (contours : list (list Point)) :
  pixel_count contours = 0 -> forall c, In c contours -> c = [].
Proof.
  intros H c Hin.
  apply (sum_zero (fun c => Z.of_nat (List.length c))) with (a := c) in H;
    [|intros; lia | exact Hin].
  apply length_zero_iff_nil. lia.
Qed.

Lemma edge_forward_no_pixels q t ox oy uo lambda w s :
  pixel_count (m_contours t) = 0 ->
  edge_forward q t ox oy uo lambda w s = Some s.
Proof.
  intros H. unfold edge_forward. apply for_each_skip.
  intros i contour s' Hin. now rewrite (pixel_count_zero _ H contour Hin).
Qed.

Lemma edge_backward_no_pixels q t ox oy uo lambda w s :
  filter (in_footprint t ox oy) (List.concat (q_contours q)) = [] ->
  edge_backward q t ox oy uo lambda w s = Some s.
Proof.
  intros H. unfold edge_backward. apply for_each_skip.
  intros i contour s' Hc. apply for_each_skip.
  intros j pt [cd nb] Hpt.
  assert (Hout : in_footprint t ox oy pt = false).
  { destruct (in_footprint t ox oy pt) eqn:Ein; [|reflexivity].
    assert (Hf : In pt (filter (in_footprint t ox oy) (List.concat (q_contours q)))).
    { apply filter_In. split; [|exact Ein]. apply in_concat. eauto. }
    rewrite H in Hf. destruct Hf. }
  unfold in_footprint in Hout. now rewrite Hout.
Qed.

Lemma contour_line_pixels_nonneg dist cl : 0 <= contour_line_pixels dist cl.
Proof.
  apply (sum_nonneg (fun line =>
    Z.of_nat (List.length (LineIterator dist (m_pointStart line) (m_PointEnd line))))).
  intros; lia.
Qed.

Lemma line_pixel_count_nonneg lines dist : 0 <= line_pixel_count lines dist.
Proof. apply (sum_nonneg (contour_line_pixels dist)), contour_line_pixels_nonneg. Qed.

Lemma line_pixel_count_zero lines dist :
  line_pixel_count lines dist = 0 ->
  forall cl line, In cl lines -> In line cl ->
    LineIterator dist (m_pointStart line) (m_PointEnd line) = [].
Proof.
  intros H cl line Hcl Hline.
  apply (sum_zero (contour_line_pixels dist)) with (a := cl) in H;
    [|apply contour_line_pixels_nonneg | exact Hcl].
  apply (sum_zero (fun line =>
    Z.of_nat (List.length (LineIterator dist (m_pointStart line) (m_PointEnd line)))))
    with (a := line) in H; [|intros; lia | exact Hline].
  apply length_zero_iff_nil. lia.
Qed.

Lemma line_pass_no_pixels lines dist o1 o2 uo lambda w s :
  line_pixel_count lines dist = 0 ->
  line_pass lines dist o1 o2 uo lambda w s = Some s.
Proof.
  intros H. unfold line_pass. apply for_each_skip.
  intros i cl s' Hcl. apply for_each_skip.
  intros j line s'' Hline.
  now rewrite (line_pixel_count_zero _ _ H cl line Hcl Hline).
Qed.

Lemma div_by_no_pixels (x : double) :
  x = S754_nan \/ (exists s, x = S754_zero s) ->
  f64_div x (f64_of_int 0) = S754_nan.
Proof. intros [->|[s ->]]; reflexivity. Qed.

(** An evaluation of [computeChamferDistance] in which no pixel contributes
    divides 0.0 by 0. *)
Lemma computeChamferDistance_no_pixels st t ox oy uo lambda wf wb :
  chamfer_pixels st t ox oy = 0 ->
  computeChamferDistance st t ox oy uo lambda wf wb = Some S754_nan.
Proof.
  unfold chamfer_pixels, computeChamferDistance, spec_total_pixel_count. intros H.
  pose proof (pixel_count_nonneg (m_contours t)).
  pose proof (line_pixel_count_nonneg (m_vectorOfContourLines t) (q_distImg (m_query_info st))).
  pose proof (line_pixel_count_nonneg (q_vectorOfContourLines (m_query_info st)) (m_distImg t)).
  destruct (m_matchingType st); cbn [is_lineType MatchingType_eqb];
    try (rewrite edge_forward_no_pixels by lia);
    try (rewrite edge_backward_no_pixels
           by (apply length_zero_iff_nil; lia));
    try (rewrite !line_pass_no_pixels by lia);
    reflexivity.
Qed.

(** *** The full-field and the masked strategies *)

Lemma Mat_roi_dims {A : Type} (m s : Mat A) (r : Rect) :
  Mat_roi m r = Some s ->
  rows s = r_height r /\ cols s = r_width r /\ 0 <= r_height r /\ 0 <= r_width r.
Proof.
  unfold Mat_roi. destruct (_ && _) eqn:Hc; [|discriminate].
  intros H; injection H as <-. simpl.
  repeat (apply andb_prop in Hc; destruct Hc as [Hc ?]).
  repeat match goal with H : (_ <=? _) = true |- _ => apply Z.leb_le in H end.
  auto.
Qed.

Lemma Mat_roi_no_pixels {A : Type} (m s : Mat A) (r : Rect) :
  Mat_roi m r = Some s -> r_height r * r_width r = 0 -> data s = [].
Proof.
  intros H Hz. pose proof (Mat_roi_dims _ _ _ H) as (_ & _ & Hh & Hw).
  unfold Mat_roi in H. destruct (_ && _); [|discriminate].
  injection H as <-. simpl.
  assert (Hcase : r_height r = 0 \/ r_width r = 0) by nia.
  destruct Hcase as [-> | ->]; [reflexivity|].
  simpl. induction (seq 0 (Z.to_nat (r_height r))); simpl; auto.
Qed.

Lemma map2_nil_l {A B C : Type} (f : A -> B -> C) (l : list B) : map2 f [] l = [].
Proof. reflexivity. Qed.

Lemma Mat_sum_all_zero (m : Mat float) : all_zero (data m) -> Mat_sum m = f_zero.
Proof.
  unfold Mat_sum, all_zero. induction 1 as [|v l -> _ IH]; simpl; [reflexivity|exact IH].
Qed.

Lemma Mat_sum_nil (r c : Z) : Mat_sum (mkMat r c []) = f_zero.
Proof. reflexivity. Qed.

Lemma absdiff_all_zero (a b r : Mat float) :
  absdiff a b = Some r -> all_zero (data a) -> all_zero (data b) -> all_zero (data r).
Proof.
  unfold absdiff, all_zero. destruct (same_size a b); [|discriminate].
  intros H; injection H as <-. simpl. intros Ha. revert b.
  induction Ha as [|v l -> _ IH]; intros b Hb; simpl; [constructor|].
  destruct Hb as [|w l' -> Hb]; simpl; constructor; [reflexivity|].
  assert (IH' := IH (mkMat (rows b) (cols b) l') Hb). exact IH'.
Qed.

Lemma absdiff_no_pixels (a b r : Mat float) :
  absdiff a b = Some r -> data a = [] -> all_zero (data r).
Proof.
  unfold absdiff. destruct (same_size a b); [|discriminate].
  intros H; injection H as <-. simpl. intros ->. constructor.
Qed.

Lemma countNonZero_zero (m : Mat Z) :
  countNonZero m = 0 -> Forall (fun k => k = 0) (data m).
Proof.
  unfold countNonZero. intros H.
  assert (Hf : filter (fun k => negb (k =? 0)) (data m) = [])
    by (apply length_zero_iff_nil; lia).
  clear H. induction (data m) as [|k l IH]; [constructor|].
  simpl in Hf. destruct (k =? 0) eqn:Hk; simpl in Hf; [|discriminate].
  apply Z.eqb_eq in Hk. constructor; auto.
Qed.

Lemma copyTo_masked_all_zero (src r : Mat float) (mask : Mat Z) :
  copyTo_masked src mask = Some r ->
  Forall (fun k => k = 0) (data mask) -> all_zero (data r).
Proof.
  unfold copyTo_masked, all_zero. destruct (same_size src mask); [|discriminate].
  intros H; injection H as <-. simpl. intros Hm.
  revert Hm. generalize (data src). induction (data mask) as [|k l IH];
    intros ds Hm; destruct ds; simpl; try constructor.
  - inversion Hm; subst. reflexivity.
  - inversion Hm; subst. now apply IH.
Qed.

Lemma orientation_term (lambda : float) :
  let x := f64_add f_zero (f64_mul (f64_of_f32 lambda) f_zero) in
  x = S754_nan \/ (exists s, x = S754_zero s).
Proof.
  destruct lambda as [s|s| |s m e]; simpl.
  - right. destruct s; eexists; reflexivity.
  - now left.
  - now left.
  - right. destruct s; eexists; reflexivity.
Qed.

Lemma same_size_eq {A B : Type} (a : Mat A) (b : Mat B) :
  same_size a b = true -> rows a = rows b /\ cols a = cols b.
Proof.
  unfold same_size. intros H. apply andb_prop in H as [H1 H2].
  split; now apply Z.eqb_eq.
Qed.

(** An evaluation of [computeFullChamferDistance] in which no pixel
    contributes divides 0.0 by 0. *)
Lemma computeFullChamferDistance_no_pixels st t ox oy uo lambda :
  full_defined st t ox oy = true ->
  full_pixels st t ox oy = Some 0 ->
  computeFullChamferDistance st t ox oy uo lambda = Some S754_nan.
Proof.
  unfold full_defined, full_pixels, computeFullChamferDistance.
  fold (search_window t ox oy). intros Hd Hp.
  repeat (apply andb_prop in Hd; destruct Hd as [Hd ?]).
  destruct (Mat_roi (q_distImg (m_query_info st)) (search_window t ox oy))
    as [sub|] eqn:Hsub; [|discriminate].
  destruct (Mat_roi (q_mapOfEdgeOrientation (m_query_info st)) (search_window t ox oy))
    as [subo|] eqn:Hsubo; [|discriminate].
  pose proof (Mat_roi_dims _ _ _ Hsub) as (Hr & Hc & _ & _).
  pose proof (Mat_roi_dims _ _ _ Hsubo) as (Hro & Hco & _ & _).
  simpl in Hr, Hc, Hro, Hco.
  match goal with H : same_size (m_mapOfEdgeOrientation t) _ = true |- _ =>
    apply same_size_eq in H; destruct H as [Hto1 Hto2] end.
  destruct (MatchingType_eqb (m_matchingType st) fullMatching).
  - injection Hp as Hp.
    assert (Hs : data sub = []).
    { eapply Mat_roi_no_pixels; [exact Hsub|]. simpl. exact Hp. }
    assert (Hso : data subo = []).
    { eapply Mat_roi_no_pixels; [exact Hsubo|]. simpl. exact Hp. }
    unfold absdiff at 1. unfold same_size at 1. rewrite Hr, Hc, !Z.eqb_refl. simpl andb. cbv iota.
    rewrite Hs. cbn [map2].
    rewrite Mat_sum_nil.
    rewrite Z.add_0_l, Hp.
    destruct uo.
    + unfold absdiff, same_size. rewrite Hro, Hco, Hto1, Hto2, !Z.eqb_refl. simpl andb. cbv iota.
      rewrite Hso. cbn [map2].
      rewrite Mat_sum_nil.
      f_equal. apply div_by_no_pixels.
      change (f64_add f_zero f_zero) with f_zero.
      apply orientation_term.
    + reflexivity.
  - simpl in H. apply andb_prop in H as [Hmask Hcm].
    apply same_size_eq in Hmask as [Hm1 Hm2].
    unfold common_mask_of in Hp, Hcm.
    fold (search_window t ox oy).
    match goal with |- context [x <- ?c ;; _] => idtac end.
    destruct (if MatchingType_eqb (m_matchingType st) forwardBackwardMaskMatching
              then query_mask <- Mat_roi (q_mask (m_query_info st)) (search_window t ox oy) ;;
                   bitwise_or (m_mask t) query_mask
              else Some (m_mask t)) as [cm|] eqn:Hcmask; [|discriminate].
    injection Hp as Hp.
    assert (Hcmsize : rows cm = rows (m_distImg t) /\ cols cm = cols (m_distImg t)).
    { destruct (MatchingType_eqb (m_matchingType st) forwardBackwardMaskMatching).
      - destruct (Mat_roi (q_mask _) _) as [qm|]; [|discriminate].
        unfold bitwise_or in Hcmask. destruct (same_size _ qm); [|discriminate].
        injection Hcmask as <-. simpl. auto.
      - injection Hcmask as <-. auto. }
    destruct Hcmsize as [Hcm1 Hcm2].
    pose proof (countNonZero_zero _ Hp) as Hzero.
    destruct (copyTo_masked sub cm) as [subm|] eqn:Hsm.
    2:{ unfold copyTo_masked, same_size in Hsm.
        rewrite Hr, Hc, Hcm1, Hcm2, !Z.eqb_refl in Hsm. discriminate. }
    destruct (copyTo_masked (m_distImg t) cm) as [tm|] eqn:Htm.
    2:{ unfold copyTo_masked, same_size in Htm.
        rewrite Hcm1, Hcm2, !Z.eqb_refl in Htm. discriminate. }
    destruct (absdiff subm tm) as [diff|] eqn:Hdiff.
    2:{ unfold copyTo_masked in Hsm, Htm.
        destruct (same_size sub cm); [|discriminate].
        destruct (same_size (m_distImg t) cm); [|discriminate].
        injection Hsm as <-. injection Htm as <-.
        unfold absdiff, same_size in Hdiff. simpl in Hdiff.
        rewrite Hr, Hc, !Z.eqb_refl in Hdiff. discriminate. }
    rewrite (Mat_sum_all_zero diff).
    2:{ eapply absdiff_all_zero; [exact Hdiff| |];
        eapply copyTo_masked_all_zero; eassumption. }
    replace (0 + countNonZero cm) with 0 by lia.
    destruct uo.
    + destruct (copyTo_masked subo cm) as [subom|] eqn:Hsom.
      2:{ unfold copyTo_masked, same_size in Hsom.
          rewrite Hro, Hco, Hcm1, Hcm2, !Z.eqb_refl in Hsom. discriminate. }
      destruct (copyTo_masked (m_mapOfEdgeOrientation t) cm) as [tom|] eqn:Htom.
      2:{ unfold copyTo_masked, same_size in Htom.
          rewrite Hto1, Hto2, Hcm1, Hcm2, !Z.eqb_refl in Htom. discriminate. }
      destruct (absdiff subom tom) as [diffo|] eqn:Hdiffo.
      2:{ unfold copyTo_masked in Hsom, Htom.
          destruct (same_size subo cm); [|discriminate].
          destruct (same_size (m_mapOfEdgeOrientation t) cm); [|discriminate].
          injection Hsom as <-. injection Htom as <-.
          unfold absdiff, same_size in Hdiffo. simpl in Hdiffo.
          rewrite Hro, Hco, Hto1, Hto2, !Z.eqb_refl in Hdiffo. discriminate. }
      rewrite (Mat_sum_all_zero diffo).
      2:{ eapply absdiff_all_zero; [exact Hdiffo| |];
          eapply copyTo_masked_all_zero; eassumption. }
      f_equal. apply div_by_no_pixels.
      change (f64_add f_zero f_zero) with f_zero.
      apply orientation_term.
    + reflexivity.
Qed.

(** C3 (amended). For every cost evaluation (edge, line, full-field or
    masked) in which zero pixels contribute to the sum, the evaluator divides
    0.0 by 0 without a guard and returns NaN: not an infinite and not the
    maximum cost.  NaN is below no distance threshold, so the cell is still
    not a match, and nothing crashes. *)
Theorem zero_contribution_cost_is_nan st t ox oy uo lambda wf wb :
  (chamfer_pixels st t ox oy = 0 ->
   computeChamferDistance st t ox oy uo lambda wf wb = Some S754_nan) /\
  (full_defined st t ox oy = true -> full_pixels st t ox oy = Some 0 ->
   computeFullChamferDistance st t ox oy uo lambda = Some S754_nan) /\
  non_match_cost S754_nan = false /\
  (forall distanceThresh : float,
     fltb (f64_of_f32 (f32_of_f64 S754_nan)) (f64_of_f32 distanceThresh) = false).
Proof.
  split; [apply computeChamferDistance_no_pixels|].
  split; [apply computeFullChamferDistance_no_pixels|].
  split; reflexivity.
Qed.

End CostProperties.

Lemma zero_contribution_cost_is_nan_witness :
  computeChamferDistance (E := example_externals) (bare_matcher edgeMatching)
    bare_template 0 0 false f_zero f32_one f32_one = Some S754_nan /\
  computeFullChamferDistance (bare_matcher forwardBackwardMaskMatching)
    bare_template 0 0 true f32_one = Some S754_nan.
Proof.
  split.
  - pose proof (zero_contribution_cost_is_nan (E := example_externals)
                  (bare_matcher edgeMatching) bare_template 0 0 false f_zero
                  f32_one f32_one) as (H & _).
    apply H. reflexivity.
  - pose proof (zero_contribution_cost_is_nan (E := example_externals)
                  (bare_matcher forwardBackwardMaskMatching) bare_template 0 0 true
                  f32_one f32_one f32_one) as (_ & H & _).
    apply H; reflexivity.
Defined.

(** C3, as stated, fails: a template without contour pixels is scored NaN by
    the edge matching, and a template with an empty mask is scored NaN by
    the masked matching; NaN is neither infinite nor a maximum. *)
Lemma zero_contribution_cost_not_infinite :
  chamfer_pixels (E := example_externals) (bare_matcher edgeMatching) bare_template 0 0 = 0 /\
  full_pixels (bare_matcher maskMatching) bare_template 0 0 = Some 0 /\
  (exists c,
     computeChamferDistance (E := example_externals) (bare_matcher edgeMatching)
       bare_template 0 0 false f_zero f32_one f32_one = Some c /\
     non_match_cost c = false) /\
  (exists c,
     computeFullChamferDistance (bare_matcher maskMatching)
       bare_template 0 0 false f_zero = Some c /\
     non_match_cost c = false).
Proof.
  split; [reflexivity|]. split; [reflexivity|].
  split; exists S754_nan; split; reflexivity.
Qed.

(** C2. At the offset (0,0) the template of the example has two contour
    pixels and the query has two contour pixels inside the footprint; the
    weighted sums add up to 2.  The code divides by the two pixels of the
    forward pass and returns 1; over the four pixels of both passes the cost
    is 1/2. *)
Theorem edgeForwardBackward_divides_by_forward_pixels :
  computeChamferDistance (E := example_externals) fb_matcher fb_template 0 0 false
    f_zero f32_one f32_one = Some (f64_of_int 1) /\
  spec_edgeForwardBackward_cost fb_query fb_template 0 0 f32_one f32_one
  = Some (f64_div (f64_of_int 2) (f64_of_int 4)) /\
  pixel_count (m_contours fb_template) = 2 /\
  spec_total_pixel_count fb_query fb_template 0 0 = 4 /\
  feqb (f64_of_int 1) (f64_div (f64_of_int 2) (f64_of_int 4)) = false.
Proof. repeat split; vm_compute; reflexivity. Qed.

(** C8. At the offset (1,0) the query contour pixels (1,0) and (2,0) lie
    inside the footprint of the template, whose distances are 0, 5, 7.  With
    orientation the backward term reads the distances at (0,0) and (1,0),
    which add up to 5; without orientation the code reads them at (1,0) and
    (2,0), which add up to 12. *)
Theorem edge_backward_without_orientation_reads_unshifted :
  (exists b,
     edge_backward (E := example_externals) shifted_query shifted_template 1 0 false
       f_zero f32_one (f_zero, 0) = Some (b, 0) /\
     feqb b (f64_of_int 12) = true) /\
  (exists b,
     edge_backward (E := example_externals) shifted_query shifted_template 1 0 true
       f_zero f32_one (f_zero, 0) = Some (b, 0) /\
     feqb b (f64_of_int 5) = true) /\
  (exists b,
     spec_backward_sum shifted_query shifted_template 1 0 f32_one = Some b /\
     feqb b (f64_of_int 5) = true) /\
  computeChamferDistance (E := example_externals) shifted_matcher shifted_template 1 0
    false f_zero f32_one f32_one = Some (f64_of_int 6) /\
  computeChamferDistance (E := example_externals) shifted_matcher shifted_template 1 0
    true f_zero f32_one f32_one = Some (f64_div (f64_of_int 5) (f64_of_int 2)).
Proof.
  split; [exists (f64_of_int 12); split; vm_compute; reflexivity|].
  split; [exists (f32_of_int 5); split; vm_compute; reflexivity|].
  split; [exists (f32_of_int 5); split; vm_compute; reflexivity|].
  split; vm_compute; reflexivity.
Qed.


(** ** The extraction of minima *)

Lemma minScan_index (l : list float) (idx : Z) (v : float) (i : Z) :
  snd (minScan l idx v i) = i \/
  idx <= snd (minScan l idx v i) < idx + Z.of_nat (List.length l).
Proof.
  revert idx v i. induction l as [|a l IH]; intros idx v i; cbn [minScan]; [now left|].
  cbn [List.length]. rewrite Nat2Z.inj_succ.
  destruct (fltb a v).
  - destruct (IH (idx + 1) a idx) as [H|H]; right; lia.
  - destruct (IH (idx + 1) v i) as [H|H]; [now left | right; lia].
Qed.

Lemma list_set_length {A : Type} (l : list A) (n : nat) (v : A) :
  (n < List.length l)%nat ->
  exists l', list_set l n v = Some l' /\ List.length l' = List.length l.
Proof.
  revert n. induction l as [|a l IH]; intros n Hn; simpl in Hn; [lia|].
  destruct n as [|n]; simpl.
  - eexists; split; reflexivity.
  - destruct (IH n) as (l' & -> & Hl); [lia|].
    eexists; split; [reflexivity|]. simpl. now rewrite Hl.
Qed.

(** The cell [cv::minMaxLoc] names lies in the buffer, so the reset of the
    cell succeeds and keeps the shape of the map. *)
Lemma Mat_set_minLoc (m : Mat float) (v : float) :
  data m <> [] ->
  exists m', Mat_set m (pt_y (snd (minMaxLoc m))) (pt_x (snd (minMaxLoc m))) v = Some m' /\
             List.length (data m') = List.length (data m).
Proof.
  intros Hne. unfold minMaxLoc.
  pose proof (minScan_index (data m) 1 f_inf 0) as Hidx.
  destruct (minScan (data m) 1 f_inf 0) as [minVal minIdx]. cbn [snd] in *.
  cbn [pt_x pt_y]. unfold Mat_set.
  set (k := if minIdx =? 0 then 1 else minIdx).
  assert (Hlen : (0 < List.length (data m))%nat)
    by (destruct (data m); [congruence | simpl; lia]).
  assert (Hk : 1 <= k <= Z.of_nat (List.length (data m))).
  { unfold k. destruct (minIdx =? 0) eqn:Ek; [lia|].
    apply Z.eqb_neq in Ek. lia. }
  replace ((k - 1) / cols m * cols m + (k - 1) mod cols m) with (k - 1)
    by (rewrite (Z_div_mod_eq_full (k - 1) (cols m)) at 1; lia).
  destruct (k - 1 <? 0) eqn:Eneg; [apply Z.ltb_lt in Eneg; lia|].
  destruct (list_set_length (data m) (Z.to_nat (k - 1)) v) as (d' & -> & Hd'); [lia|].
  eexists; split; [reflexivity | exact Hd'].
Qed.

Section Extraction.
Variables (template_info : Template_info_t) (scale : float).

(** With this much fuel the loop ends by itself, and it pushes at most one
    detection per iteration that is left. *)
Lemma extract_loop_total (distanceThresh : float) (fuel : nat) :
  forall (chamferMap : Mat float) (iteration : Z) (acc : list Detection_t),
    data chamferMap <> [] ->
    iteration <= maxLoopIterations ->
    maxLoopIterations + 1 <= Z.of_nat fuel + iteration ->
    exists r,
      extract_loop fuel template_info scale distanceThresh chamferMap iteration acc = Some r /\
      (List.length acc <= List.length r)%nat /\
      Z.of_nat (List.length r) <= Z.of_nat (List.length acc) + (maxLoopIterations + 1 - iteration).
Proof.
  induction fuel as [|fuel IH]; intros map it acc Hne Hit Hfuel;
    [unfold maxLoopIterations in *; simpl in Hfuel; lia|].
  cbn [extract_loop].
  destruct (Mat_set_minLoc map FLT_MAX Hne) as (map' & Hset & Hlen).
  destruct (minMaxLoc map) as [minVal minLoc]. cbn [snd] in Hset. rewrite Hset.
  assert (Hne' : data map' <> []).
  { intros E0. rewrite E0 in Hlen. destruct (data map); [congruence | discriminate]. }
  unfold maxLoopIterations in *.
  destruct (fltb minVal (f64_of_f32 distanceThresh)); cbn [andb].
  - destruct (it + 1 <=? 100) eqn:Ecap.
    + apply Z.leb_le in Ecap.
      destruct (IH map' (it + 1) (acc ++ [Detection_new
                  (Rect_of_points (mkPoint (pt_x minLoc) (pt_y minLoc))
                     (Point_add (mkPoint (pt_x minLoc) (pt_y minLoc))
                        (mkPoint (cols (m_distImg template_info))
                           (rows (m_distImg template_info))))) minVal scale]))
        as (r & Hr & Hl1 & Hl2); [exact Hne' | lia | lia |].
      rewrite length_app in Hl1, Hl2. cbn [List.length] in Hl1, Hl2.
      exists r. split; [exact Hr|]. lia.
    + apply Z.leb_gt in Ecap. eexists; split; [reflexivity|].
      rewrite length_app. cbn [List.length]. lia.
  - eexists; split; [reflexivity|]. lia.
Qed.

(** A higher threshold keeps the loop going at least as long. *)
Lemma extract_loop_monotone (t1 t2 : float) (fuel : nat) :
  fleb t1 t2 = true ->
  forall (chamferMap : Mat float) (iteration : Z) (acc1 acc2 : list Detection_t),
    data chamferMap <> [] ->
    iteration <= maxLoopIterations ->
    maxLoopIterations + 1 <= Z.of_nat fuel + iteration ->
    (List.length acc1 <= List.length acc2)%nat ->
    exists r1 r2,
      extract_loop fuel template_info scale t1 chamferMap iteration acc1 = Some r1 /\
      extract_loop fuel template_info scale t2 chamferMap iteration acc2 = Some r2 /\
      (List.length r1 <= List.length r2)%nat.
Proof.
  intros Hle. induction fuel as [|fuel IH]; intros map it acc1 acc2 Hne Hit Hfuel Hacc;
    [simpl in Hfuel; unfold maxLoopIterations in *; lia|].
  destruct (extract_loop_total t2 (S fuel) map it acc2 Hne Hit Hfuel)
    as (r2 & Hr2 & Hl2 & _).
  cbn [extract_loop] in *.
  destruct (Mat_set_minLoc map FLT_MAX Hne) as (map' & Hset & Hlen).
  destruct (minMaxLoc map) as [minVal minLoc]. cbn [snd] in Hset. rewrite Hset in *.
  assert (Hne' : data map' <> []).
  { intros E0. rewrite E0 in Hlen. destruct (data map); [congruence | discriminate]. }
  destruct (fltb minVal (f64_of_f32 t1)) eqn:E1; cbn [andb].
  - assert (E2 : fltb minVal (f64_of_f32 t2) = true)
      by (eapply fltb_fleb_trans; [exact E1 | exact Hle]).
    rewrite E2 in *. cbn [andb] in *.
    destruct (it + 1 <=? maxLoopIterations) eqn:Ecap.
    + apply Z.leb_le in Ecap. apply IH; trivial; try lia.
      rewrite !length_app. cbn [List.length]. lia.
    + do 2 eexists. split; [reflexivity|]. split; [reflexivity|].
      rewrite !length_app. cbn [List.length]. lia.
  - exists acc1, r2. split; [reflexivity|]. split; [exact Hr2|]. lia.
Qed.

End Extraction.

(** ** [detect_impl] and [detect] *)

Lemma for_each_related {A T : Type} (R : T -> T -> Prop)
  (b1 b2 : nat -> A -> T -> option T) (l : list A) :
  (forall j a s1 s2, R s1 s2 -> agree_up_to R (b1 j a s1) (b2 j a s2)) ->
  forall j s1 s2, R s1 s2 -> agree_up_to R (for_each b1 l j s1) (for_each b2 l j s2).
Proof.
  intros Hb. induction l as [|a l IH]; intros j s1 s2 HR; cbn [for_each]; [exact HR|].
  specialize (Hb j a s1 s2 HR).
  destruct (b1 j a s1), (b2 j a s2); simpl in Hb; try contradiction; [|exact I].
  now apply IH.
Qed.

Section Detect.
Context {E : Externals}.

Lemma Mat_not_empty_data {A : Type} (m : Mat A) : Mat_empty m = false -> data m <> [].
Proof.
  unfold Mat_empty. intros H. apply orb_false_elim in H as [_ H].
  intros E0. rewrite E0 in H. discriminate.
Qed.

Lemma detect_impl_monotone st t scale cur uo t1 t2 lambda wf wb :
  fleb t1 t2 = true ->
  agree_up_to shorter
    (detect_impl st t scale cur uo t1 lambda wf wb false)
    (detect_impl st t scale cur uo t2 lambda wf wb false).
Proof.
  intros Hle. unfold detect_impl.
  destruct (computeMatchingMap st t Mat_new uo 5 5 lambda wf wb) as [map|]; [|exact I].
  destruct (Mat_empty map) eqn:Em; cbn [negb].
  - unfold agree_up_to, shorter. lia.
  - destruct (extract_loop_monotone t scale t1 t2 extract_fuel Hle map 0 [] [])
      as (r1 & r2 & -> & -> & Hl).
    + now apply Mat_not_empty_data.
    + unfold maxLoopIterations. lia.
    + unfold extract_fuel, maxLoopIterations. simpl. lia.
    + reflexivity.
    + unfold agree_up_to, shorter. now rewrite !std_sort_length.
Qed.

(** C5. With clustering disabled, a higher distance threshold never gives
    [detect] fewer raw detections, for every query image and configuration;
    and the search under one threshold is defined exactly when the search
    under the other is. *)
Theorem detect_threshold_monotone st img_query uo t1 t2 lambda wf wb :
  fleb t1 t2 = true ->
  agree_up_to (fun r1 r2 => shorter (fst r1) (fst r2))
    (detect st img_query uo t1 lambda wf wb false)
    (detect st img_query uo t2 lambda wf wb false).
Proof.
  intros Hle. unfold detect.
  set (st' := set_query_info _ st).
  pose proof (for_each_related shorter
    (fun (_ : nat) '(id, scales) detections =>
       match map_find fltb f32_one scales with
       | Some template_info =>
           all_detections <- detect_impl st' template_info f32_one [] uo t1 lambda wf wb false ;;
           Some (detections ++ map (set_templateIndex id) all_detections)
       | None => Some detections
       end)
    (fun (_ : nat) '(id, scales) detections =>
       match map_find fltb f32_one scales with
       | Some template_info =>
           all_detections <- detect_impl st' template_info f32_one [] uo t2 lambda wf wb false ;;
           Some (detections ++ map (set_templateIndex id) all_detections)
       | None => Some detections
       end)
    (m_mapOfTemplate_info st')) as H.
  match type of H with ?P -> _ => assert (Hb : P) end.
  { clear H. intros j [id scales] s1 s2 HR.
    destruct (map_find fltb f32_one scales) as [t|]; [|exact HR].
    pose proof (detect_impl_monotone st' t f32_one [] uo t1 t2 lambda wf wb Hle) as Hi.
    destruct (detect_impl st' t f32_one [] uo t1 lambda wf wb false),
             (detect_impl st' t f32_one [] uo t2 lambda wf wb false);
      simpl in Hi; try contradiction; [|exact I].
    unfold agree_up_to, shorter in *. rewrite !length_app, !length_map. lia. }
  specialize (H Hb 0%nat [] [] (le_n _)).
  destruct (for_each _ _ _ _), (for_each _ _ _ _); simpl in H; try contradiction; [|exact I].
  unfold agree_up_to, shorter in *. cbn [fst]. now rewrite !std_sort_length.
Qed.

(** C10. For every template whose width or height exceeds the query's,
    [computeMatchingMap] returns at once and leaves the cost map as it got
    it, empty in [detect_impl], which then emits no detection and leaves
    [currentDetections] alone; both return normally. *)
Theorem oversized_template_yields_nothing st t scale cur uo thr lambda wf wb group :
  cols (q_distImg (m_query_info st)) < cols (m_distImg t) \/
  rows (q_distImg (m_query_info st)) < rows (m_distImg t) ->
  (forall chamferMap xStep yStep,
     computeMatchingMap st t chamferMap uo xStep yStep lambda wf wb = Some chamferMap) /\
  Mat_empty (@Mat_new float) = true /\
  detect_impl st t scale cur uo thr lambda wf wb group = Some cur /\
  detect_impl st t scale [] uo thr lambda wf wb group = Some [].
Proof.
  intros Hbig.
  assert (Hmap : forall chamferMap xStep yStep,
     computeMatchingMap st t chamferMap uo xStep yStep lambda wf wb = Some chamferMap).
  { intros. unfold computeMatchingMap.
    replace ((cols (q_distImg (m_query_info st)) - cols (m_distImg t) + 1 <=? 0) ||
             (rows (q_distImg (m_query_info st)) - rows (m_distImg t) + 1 <=? 0))
      with true; [reflexivity|].
    symmetry. apply orb_true_iff. destruct Hbig; [left | right]; apply Z.leb_le; lia. }
  split; [exact Hmap|]. split; [reflexivity|].
  unfold detect_impl. rewrite Hmap. split; reflexivity.
Qed.

(** C9. Under the pose-matching strategy [detectMultiScale] writes its error
    message and returns an empty detection list at once: the query
    information is the one of the last call, no template is searched, and
    nothing else of the matcher changes. *)
Theorem detectMultiScale_pose_fails_fast st img_query uo thr lambda wf wb nms group :
  m_matchingStrategyType st = templatePoseMatching ->
  let msg :=
    "Cannot detect on multiple scales with the matching strategy=templatePoseMatching!"%string in
  detectMultiScale st img_query uo thr lambda wf wb nms group = Some ([], cerr msg st) /\
  m_query_info (cerr msg st) = m_query_info st /\
  m_mapOfTemplate_info (cerr msg st) = m_mapOfTemplate_info st /\
  m_mapOfTemplateImages (cerr msg st) = m_mapOfTemplateImages st /\
  std_cerr (cerr msg st) = std_cerr st ++ [msg].
Proof.
  intros Hpose msg. unfold detectMultiScale. rewrite Hpose.
  cbn [MatchingStrategyType_eqb]. repeat split.
Qed.

End Detect.

Lemma detect_threshold_monotone_witness :
  fleb f_zero (f32_of_int 1) = true /\
  option_map (fun r => List.length (fst r))
    (detect (E := example_externals) (strip_matcher 12 templateMatching) (strip_image 12) false f_zero
       f_zero f32_one f32_one false) = Some 0%nat /\
  option_map (fun r => List.length (fst r))
    (detect (E := example_externals) (strip_matcher 12 templateMatching) (strip_image 12)
       false (f32_of_int 1) f_zero f32_one f32_one false) = Some 3%nat /\
  agree_up_to (fun r1 r2 => shorter (fst r1) (fst r2))
    (detect (E := example_externals) (strip_matcher 12 templateMatching) (strip_image 12) false f_zero
       f_zero f32_one f32_one false)
    (detect (E := example_externals) (strip_matcher 12 templateMatching) (strip_image 12) false (f32_of_int 1)
       f_zero f32_one f32_one false).
Proof.
  split; [reflexivity|]. split; [vm_compute; reflexivity|].
  split; [vm_compute; reflexivity|].
  apply (detect_threshold_monotone (E := example_externals)). reflexivity.
Defined.

Lemma oversized_template_yields_nothing_witness :
  cols (q_distImg bare_query) < cols (m_distImg wide_template) /\
  detect_impl (E := example_externals) (bare_matcher edgeMatching) wide_template
    f32_one [] false (f32_of_int 1) f_zero f32_one f32_one false = Some [].
Proof.
  split; [reflexivity|].
  apply (oversized_template_yields_nothing (E := example_externals)
           (bare_matcher edgeMatching) wide_template f32_one [] false (f32_of_int 1)
           f_zero f32_one f32_one false).
  left. reflexivity.
Defined.

Lemma detectMultiScale_pose_fails_fast_witness :
  exists st',
    detectMultiScale (E := example_externals) (strip_matcher 12 templatePoseMatching)
      (strip_image 12) false (f32_of_int 1) f_zero f32_one f32_one false false
    = Some ([], st') /\
    m_query_info st' = m_query_info (strip_matcher 12 templatePoseMatching).
Proof.
  destruct (detectMultiScale_pose_fails_fast (E := example_externals)
              (strip_matcher 12 templatePoseMatching) (strip_image 12) false (f32_of_int 1)
              f_zero f32_one f32_one false false eq_refl) as (H1 & H2 & _).
  eexists. split; [exact H1 | exact H2].
Defined.

(** C4. On the flat query of the example 101 cells of the cost map are below
    the threshold 1.  The loop counts [iteration <= maxLoopIterations] after
    the body, so the body runs 101 times and 101 detections are emitted, one
    more than the cap of 100. *)
Theorem detect_impl_emits_101_detections :
  maxLoopIterations = 100 /\
  option_map (@List.length Detection_t)
    (detect_impl (E := example_externals) (strip_matcher 502 templateMatching) strip_template f32_one []
       false (f32_of_int 1) f_zero f32_one f32_one false) = Some 101%nat.
Proof. split; [reflexivity | vm_compute; reflexivity]. Qed.


(** ** The template store *)

Section Store.
Context {E : Externals}.

(** C1 (amended). When the sizes of the two maps differ, [setTemplateImages]
    fails: it writes the size-mismatch message and configures nothing.  The
    templates configured before are not kept: both maps were cleared before
    the sizes were compared.  The rest of the matcher is as before. *)
Theorem setTemplateImages_size_mismatch fuel st mapOfTemplateImages mapOfTemplateRois :
  List.length mapOfTemplateImages <> List.length mapOfTemplateRois ->
  let st' := cerr "Different size between templates and rois!"%string
               (set_templates [] [] st) in
  setTemplateImages fuel st mapOfTemplateImages mapOfTemplateRois = Some st' /\
  m_mapOfTemplate_info st' = [] /\
  m_mapOfTemplateImages st' = [] /\
  std_cerr st' = std_cerr st ++ ["Different size between templates and rois!"%string] /\
  m_query_info st' = m_query_info st /\
  same_scale_range st' st.
Proof.
  intros Hsize st'. unfold setTemplateImages.
  destruct (Nat.eqb _ _) eqn:Heq; [apply Nat.eqb_eq in Heq; contradiction|].
  cbn [negb]. repeat split.
Qed.

End Store.

Lemma setTemplateImages_size_mismatch_witness :
  exists st',
    setTemplateImages (E := example_externals) 0 (strip_matcher 12 templateMatching)
      two_images one_roi = Some st' /\
    m_mapOfTemplate_info st' = [] /\ m_mapOfTemplateImages st' = [].
Proof.
  destruct (setTemplateImages_size_mismatch (E := example_externals) 0
              (strip_matcher 12 templateMatching) two_images one_roi)
    as (H1 & H2 & H3 & _).
  - discriminate.
  - eexists. split; [exact H1|]. split; [exact H2 | exact H3].
Defined.

(** C1, as stated, fails: a matcher that holds the template 7 is given two
    images and one region; after the call it holds no template. *)
Lemma setTemplateImages_mismatch_discards_templates :
  List.length two_images = 2%nat /\ List.length one_roi = 1%nat /\
  map fst (m_mapOfTemplate_info (strip_matcher 12 templateMatching)) = [7] /\
  map fst (m_mapOfTemplateImages (strip_matcher 12 templateMatching)) = [7] /\
  exists st',
    setTemplateImages (E := example_externals) 0 (strip_matcher 12 templateMatching)
      two_images one_roi = Some st' /\
    m_mapOfTemplate_info st' <> m_mapOfTemplate_info (strip_matcher 12 templateMatching) /\
    m_mapOfTemplateImages st' <> m_mapOfTemplateImages (strip_matcher 12 templateMatching).
Proof.
  repeat split; try reflexivity.
  eexists. split; [reflexivity|]. split; discriminate.
Qed.


(** ** The binary file *)

Lemma Z_of_byte_of_Z (z : Z) : Z_of_byte (byte_of_Z z) = z mod 256.
Proof.
  unfold Z_of_byte, byte_of_Z.
  pose proof (Z.mod_pos_bound z 256 eq_refl) as Hb.
  destruct (Byte.of_N (Z.to_N (z mod 256))) as [b|] eqn:Eb.
  - apply Byte.to_of_N in Eb. rewrite Eb. apply Z2N.id. lia.
  - apply Byte.of_N_None_iff in Eb. lia.
Qed.

Lemma int_bytes_length (n : Z) : List.length (int_bytes n) = 4%nat.
Proof. reflexivity. Qed.

Lemma int_of_bytes_int_bytes (n : Z) : int_range n -> int_of_bytes (int_bytes n) = n.
Proof.
  unfold int_range, int_of_bytes, int_bytes. intros Hn.
  cbn [fold_right]. rewrite !Z_of_byte_of_Z.
  change (2 ^ 31) with 2147483648 in *. change (2 ^ 32) with 4294967296.
  change (2 ^ 8) with 256. change (2 ^ 16) with 65536. change (2 ^ 24) with 16777216.
  pose proof (Z.mod_pos_bound n 4294967296 eq_refl) as Hu.
  set (u := n mod 4294967296) in *.
  assert (Hsum : u mod 256 + 256 * ((u / 256) mod 256 + 256 * ((u / 65536) mod 256 +
                   256 * ((u / 16777216) mod 256 + 256 * 0))) = u).
  { Z.div_mod_to_equations. lia. }
  rewrite Hsum.
  assert (Hcases : (0 <= n /\ u = n) \/ (n < 0 /\ u = n + 4294967296)).
  { unfold u. destruct (Z_lt_le_dec n 0).
    - right. split; [assumption|].
      symmetry. apply Z.mod_unique with (q := -1); lia.
    - left. split; [assumption|]. apply Z.mod_small. lia. }
  destruct (u <? 2147483648) eqn:Eu;
    [apply Z.ltb_lt in Eu | apply Z.ltb_ge in Eu]; lia.
Qed.

Lemma firstn_length_app {A : Type} (l l' : list A) : firstn (List.length l) (l ++ l') = l.
Proof. induction l as [|a l IH]; simpl; [reflexivity | now rewrite IH]. Qed.

Lemma skipn_length_app {A : Type} (l l' : list A) : skipn (List.length l) (l ++ l') = l'.
Proof. induction l as [|a l IH]; simpl; [reflexivity | exact IH]. Qed.

Lemma stream_read_app (n : nat) (bs rest init : list byte) :
  List.length bs = n ->
  stream_read n init (mkIfstream (bs ++ rest) false) = (bs, mkIfstream rest false).
Proof.
  intros <-. unfold stream_read. cbn [if_fail if_bytes].
  replace (List.length bs <=? List.length (bs ++ rest))%nat with true
    by (symmetry; apply Nat.leb_le; rewrite length_app; lia).
  now rewrite firstn_length_app, skipn_length_app.
Qed.

Lemma read_int_app (n : Z) (rest : list byte) :
  int_range n ->
  read_int (mkIfstream (int_bytes n ++ rest) false) = (n, mkIfstream rest false).
Proof.
  intros Hn. unfold read_int.
  rewrite (stream_read_app 4 (int_bytes n) rest) by reflexivity.
  now rewrite int_of_bytes_int_bytes.
Qed.

Lemma read_rect_app (r : Rect) (rest : list byte) :
  rect_in_range r ->
  read_rect (mkIfstream (rect_bytes r ++ rest) false) = (r, mkIfstream rest false).
Proof.
  intros (Hx & Hy & Hw & Hh). unfold read_rect, rect_bytes.
  rewrite <- !app_assoc.
  rewrite read_int_app by assumption.
  rewrite read_int_app by assumption.
  rewrite read_int_app by assumption.
  rewrite read_int_app by assumption.
  now destruct r.
Qed.

(** ** Association lists as maps *)

Section MapFacts.
Context {K V : Type} (ltb : K -> K -> bool).

Lemma map_find_insert_same (k : K) (v : V) (m : list (K * V)) :
  ltb k k = false -> map_find ltb k (map_insert ltb k v m) = Some v.
Proof.
  intros Hirr.
  assert (Hkk : key_equiv ltb k k = true) by (unfold key_equiv; now rewrite Hirr).
  induction m as [|[k' v'] m IH]; cbn [map_insert map_find].
  - now rewrite Hkk.
  - destruct (ltb k k') eqn:E1; cbn [map_find].
    + now rewrite Hkk.
    + destruct (ltb k' k) eqn:E2; cbn [map_find]; unfold key_equiv;
        rewrite E1, E2; cbn [negb andb]; [exact IH | reflexivity].
Qed.

(** A key that is not [k], and not one of the keys [k] would replace, is
    found as before. *)
Lemma map_find_insert_other (k k2 : K) (v : V) (m : list (K * V)) :
  key_equiv ltb k2 k = false ->
  (forall k', In k' (map fst m) -> ltb k k' = false -> ltb k' k = false ->
              key_equiv ltb k2 k' = false) ->
  map_find ltb k2 (map_insert ltb k v m) = map_find ltb k2 m.
Proof.
  intros Hk Hm. induction m as [|[k' v'] m IH]; cbn [map_insert map_find].
  - now rewrite Hk.
  - destruct (ltb k k') eqn:E1; cbn [map_find].
    + now rewrite Hk.
    + destruct (ltb k' k) eqn:E2; cbn [map_find].
      * destruct (key_equiv ltb k2 k'); [reflexivity|].
        apply IH. intros k'' Hin. apply Hm. now right.
      * rewrite (Hm k') by (trivial; now left). reflexivity.
Qed.

Lemma map_insert_keys (P : K -> Prop) (k : K) (v : V) (m : list (K * V)) :
  P k -> Forall (fun kv => P (fst kv)) m ->
  Forall (fun kv => P (fst kv)) (map_insert ltb k v m).
Proof.
  intros Hk. induction 1 as [|[k' v'] m Hk' Hm IH]; cbn [map_insert].
  - repeat constructor. exact Hk.
  - destruct (ltb k k'); [repeat constructor; assumption|].
    destruct (ltb k' k); constructor; assumption.
Qed.

End MapFacts.

Lemma key_equiv_Z (k k' : Z) : key_equiv Z.ltb k k' = (k =? k').
Proof.
  unfold key_equiv.
  destruct (Z.ltb_spec k k'), (Z.ltb_spec k' k), (Z.eqb_spec k k'); simpl; trivial; lia.
Qed.

Lemma IntMap_find_insert_same {V : Type} (k : Z) (v : V) (m : IntMap V) :
  map_find Z.ltb k (map_insert Z.ltb k v m) = Some v.
Proof. apply map_find_insert_same, Z.ltb_irrefl. Qed.

Lemma IntMap_find_insert_other {V : Type} (k k2 : Z) (v : V) (m : IntMap V) :
  k2 <> k -> map_find Z.ltb k2 (map_insert Z.ltb k v m) = map_find Z.ltb k2 m.
Proof.
  intros Hne. apply map_find_insert_other.
  - rewrite key_equiv_Z. now apply Z.eqb_neq.
  - intros k' _ H1 H2. rewrite key_equiv_Z. apply Z.eqb_neq.
    apply Z.ltb_ge in H1, H2. lia.
Qed.

Lemma IntMap_find_In {V : Type} (k : Z) (v : V) (m : IntMap V) :
  map_find Z.ltb k m = Some v -> In (k, v) m.
Proof.
  induction m as [|[k' v'] m IH]; cbn [map_find]; [discriminate|].
  rewrite key_equiv_Z. destruct (Z.eqb_spec k k') as [->|Hne]; intros H.
  - injection H as ->. now left.
  - right. now apply IH.
Qed.

Lemma IntMap_find_fresh {V : Type} (k : Z) (m : IntMap V) :
  ~ In k (map fst m) -> map_find Z.ltb k m = None.
Proof.
  induction m as [|[k' v'] m IH]; cbn [map_find map fst In]; [reflexivity|].
  intros Hn. rewrite key_equiv_Z.
  destruct (Z.eqb_spec k k') as [->|Hne]; [exfalso; apply Hn; now left|].
  apply IH. intros Hin. apply Hn. now right.
Qed.

Section Sweep.
Context {E : Externals}.

Lemma set_info_find_same id s v info :
  map_find Z.ltb id (set_info id s v info)
  = Some (map_insert fltb s v (map_get Z.ltb [] id info)).
Proof. apply IntMap_find_insert_same. Qed.

Lemma set_info_find_other id id' s v info :
  id' <> id -> map_find Z.ltb id' (set_info id s v info) = map_find Z.ltb id' info.
Proof. apply IntMap_find_insert_other. Qed.

(** Inserting a scale that the guard of the sweep lets through leaves the
    entry at scale 1 alone. *)
Lemma insert_scale_keeps_one sstep s v (scales : FloatMap Template_info_t) :
  fltb f_zero sstep = true ->
  is_nan s = false ->
  fltb sstep (f32_mul (f32_abs (f32_sub s f32_one)) f32_100) = true ->
  Forall is_number scales ->
  map_find fltb f32_one (map_insert fltb s v scales) = map_find fltb f32_one scales.
Proof.
  intros Hstep Hs Hguard Hnum.
  pose proof (sweep_guard_not_one sstep s Hstep Hs Hguard) as Hone.
  apply map_find_insert_other; [exact Hone|].
  intros k' Hin H1 H2.
  assert (Hk' : is_nan k' = false).
  { apply in_map_iff in Hin as ([k0 v0] & <- & Hin).
    rewrite Forall_forall in Hnum. exact (Hnum _ Hin). }
  destruct (key_equiv fltb f32_one k') eqn:Ek; [|reflexivity].
  exfalso.
  apply key_equiv_fcompare in Ek; [|reflexivity | exact Hk'].
  assert (Esk : fcompare s k' = Some Eq).
  { apply key_equiv_fcompare; trivial. unfold key_equiv. now rewrite H1, H2. }
  assert (Eks : fcompare k' s = Some Eq)
    by (rewrite (fcompare_antisym s k'), Esk; reflexivity).
  pose proof (fcompare_eq_trans _ _ _ Ek Eks) as H1s.
  apply key_equiv_fcompare in H1s; [|reflexivity | exact Hs]. congruence.
Qed.

(** The sweep ends within the fuel that [sweep_ends] grants, keeps the entry
    of the template at scale 1 and touches no other template. *)
Lemma scale_sweep_keeps cur img id (fuel : nat) :
  fltb f_zero (m_scaleStep cur) = true ->
  forall scale info scales t,
    sweep_ends fuel (m_scaleMax cur) (m_scaleStep cur) scale = true ->
    map_find Z.ltb id info = Some scales ->
    Forall is_number scales ->
    map_find fltb f32_one scales = Some t ->
    exists info' scales',
      scale_sweep fuel cur img id scale info = Some info' /\
      map_find Z.ltb id info' = Some scales' /\
      map_find fltb f32_one scales' = Some t /\
      (forall id', id' <> id -> map_find Z.ltb id' info' = map_find Z.ltb id' info).
Proof.
  intros Hstep. induction fuel as [|fuel IH]; intros scale info scales t Hends Hid Hnum Hone;
    [discriminate|].
  cbn [sweep_ends scale_sweep] in *.
  destruct (fleb scale (m_scaleMax cur)) eqn:Hle.
  - destruct (fltb (m_scaleStep cur) (f32_mul (f32_abs (f32_sub scale f32_one)) f32_100))
      eqn:Hguard.
    + set (v := prepareTemplate _ _ _).
      destruct (IH (f32_add scale (m_scaleStep cur)) (set_info id scale v info)
                  (map_insert fltb scale v scales) t Hends) as (info' & scales' & H1 & H2 & H3 & H4).
      * rewrite set_info_find_same. unfold map_get. now rewrite Hid.
      * apply (map_insert_keys fltb (fun k => is_nan k = false)); [|exact Hnum].
        eapply fleb_not_nan; exact Hle.
      * rewrite (insert_scale_keeps_one (m_scaleStep cur)); trivial.
        eapply fleb_not_nan; exact Hle.
      * exists info', scales'. repeat split; trivial.
        intros id' Hne. rewrite (H4 id' Hne). now apply set_info_find_other.
    + destruct (IH (f32_add scale (m_scaleStep cur)) info scales t Hends Hid Hnum Hone)
        as (info' & scales' & H1 & H2 & H3 & H4).
      exists info', scales'. repeat split; trivial.
  - exists info, scales. repeat split; trivial.
Qed.

End Sweep.

(** ** [saveTemplateData] and [loadTemplateData] *)

Section Persist.
Context {E : Externals}.

(** The number of bytes of an image that an [int] counts is the same in
    [size_t]. *)
Lemma image_size_t (img : Image) :
  image_continuous img ->
  img_rows img * img_cols img * img_channels img < 2 ^ 31 ->
  size_t_of (img_rows img * img_cols img * img_channels img)
  = img_rows img * img_cols img * img_channels img.
Proof.
  intros (Hrows & Hcols & Hch & _) Hfit. unfold size_t_of.
  apply Z.mod_small. split; [nia | lia].
Qed.

Lemma save_template_ok st entry :
  template_stored image_loadable st entry ->
  save_template st (fst entry) (snd entry) = Some (entry_bytes st entry, st).
Proof.
  intros (_ & (t & Ht & _) & (img & Himg & Hcont & (_ & Hfit))).
  unfold save_template, entry_bytes. rewrite Ht, Himg.
  rewrite (image_size_t img Hcont Hfit).
  destruct Hcont as (_ & _ & _ & Hlen).
  rewrite <- Hlen, Nat.leb_refl, firstn_all. reflexivity.
Qed.

Lemma save_loop_ok st (l : list (Z * FloatMap Template_info_t)) :
  Forall (template_stored image_loadable st) l ->
  forall j file,
    for_each (fun (_ : nat) '(id, scales) '(file, st) =>
                '(bytes, st) <- save_template st id scales ;; Some (file ++ bytes, st))
      l j (file, st)
    = Some (file ++ flat_map (entry_bytes st) l, st).
Proof.
  induction 1 as [|[id scales] l Hentry Hl IH]; intros j file; cbn [for_each flat_map].
  - now rewrite app_nil_r.
  - pose proof (save_template_ok st (id, scales) Hentry) as Hs. cbn [fst snd] in Hs.
    rewrite Hs, IH. now rewrite <- app_assoc.
Qed.

Lemma saveTemplateData_ok st filename :
  store_wf image_loadable st ->
  saveTemplateData st filename true
  = Some (Some (int_bytes (Z.of_nat (List.length (m_mapOfTemplate_info st))) ++
                flat_map (entry_bytes st) (m_mapOfTemplate_info st)), st).
Proof.
  intros (_ & _ & Hall & _). unfold saveTemplateData.
  now rewrite (save_loop_ok st _ Hall).
Qed.

End Persist.

Section Load.
Context {E : Externals}.

(** Reading back one template, gray or three-channel and of a size that an
    [int] holds, into a matcher that does not hold its id yet. *)
Lemma load_template_ok (fuel : nat) (st cur : ChamferMatcher) (id : Z) (img : Image)
  (t : Template_info_t) (rest : list byte) :
  int_range id -> image_continuous img -> image_loadable img ->
  rect_in_range (m_templateLocation t) -> rect_in_range (m_queryROI t) ->
  same_scale_range cur st ->
  fltb f_zero (m_scaleStep st) = true ->
  sweep_ends fuel (m_scaleMax st) (m_scaleStep st) (m_scaleMin st) = true ->
  map_find Z.ltb id (m_mapOfTemplate_info cur) = None ->
  exists cur' scales' t',
    load_template fuel (mkIfstream (template_bytes id img t ++ rest) false) cur
    = Some (mkIfstream rest false, cur') /\
    same_scale_range cur' st /\
    m_mapOfTemplateImages cur' = map_insert Z.ltb id img (m_mapOfTemplateImages cur) /\
    map_find Z.ltb id (m_mapOfTemplate_info cur') = Some scales' /\
    map_find fltb f32_one scales' = Some t' /\
    m_templateLocation t' = m_templateLocation t /\
    m_queryROI t' = m_queryROI t /\
    (forall id', id' <> id ->
       map_find Z.ltb id' (m_mapOfTemplate_info cur')
       = map_find Z.ltb id' (m_mapOfTemplate_info cur)).
Proof.
  intros Hid Hcont (Hgray & Hfit) Hloc Hroi (Hmax & Hmin & Hstep) Hpos Hends Hfresh.
  pose proof (image_size_t img Hcont Hfit) as Hsize_t.
  destruct Hcont as (Hrows & Hcols & Hch & Hlen).
  unfold load_template, template_bytes.
  assert (Hr : int_range (img_rows img)) by (unfold int_range; lia).
  assert (Hc : int_range (img_cols img)) by (unfold int_range; lia).
  assert (Hn : int_range (img_channels img)) by (unfold int_range; lia).
  rewrite <- !app_assoc.
  rewrite (read_int_app id) by assumption.
  rewrite (read_int_app (img_rows img)) by assumption.
  rewrite (read_int_app (img_cols img)) by assumption.
  rewrite (read_int_app (img_channels img)) by assumption.
  assert (Hsize : 0 <= img_rows img * img_cols img * img_channels img) by nia.
  assert (Hfits : fits_int (img_rows img * img_cols img) &&
                  fits_int (img_rows img * img_cols img * img_channels img) = true).
  { unfold fits_int. apply andb_true_iff. split; apply andb_true_iff; split;
      try apply Z.leb_le; try apply Z.ltb_lt; nia. }
  rewrite Hfits. cbn [negb].
  destruct (img_rows img * img_cols img * img_channels img <? 0) eqn:Eneg;
    [apply Z.ltb_lt in Eneg; lia|].
  rewrite Hsize_t.
  rewrite (stream_read_app _ (img_data img)) by exact Hlen.
  assert (Himg : (if img_channels img =? 3
                  then mkImage (img_rows img) (img_cols img) 3 (img_data img)
                  else mkImage (img_rows img) (img_cols img) 1 (img_data img)) = img).
  { clear -Hgray. destruct img as [r c ch d]. unfold image_gray_or_bgr in Hgray.
    cbn in Hgray |- *. destruct Hgray as [-> | ->]; reflexivity. }
  rewrite Himg.
  rewrite (read_rect_app (m_templateLocation t)) by assumption.
  rewrite (read_rect_app (m_queryROI t)) by assumption.
  set (t' := set_templateLocation (m_templateLocation t)
               (set_queryROI (m_queryROI t)
                  (prepareTemplate (m_cannyThreshold cur) (m_gridDescriptorSize cur) img))).
  assert (Hpos' : fltb f_zero (m_scaleStep cur) = true) by now rewrite Hstep.
  assert (Hends' : sweep_ends fuel (m_scaleMax cur) (m_scaleStep cur) (m_scaleMin cur) = true)
    by now rewrite Hmax, Hmin, Hstep.
  assert (Hfind : map_find Z.ltb id (set_info id f32_one t' (m_mapOfTemplate_info cur))
                  = Some [(f32_one, t')]).
  { rewrite set_info_find_same. unfold map_get, FloatMap, IntMap in *.
    now rewrite Hfresh. }
  assert (Hnum : Forall is_number [(f32_one, t')]) by (repeat constructor).
  destruct (scale_sweep_keeps cur img id fuel Hpos' (m_scaleMin cur) _ _ t' Hends' Hfind Hnum
              eq_refl) as (info' & scales' & H1 & H2 & H3 & H4).
  rewrite H1.
  exists (set_templates info' (map_insert Z.ltb id img (m_mapOfTemplateImages cur)) cur),
    scales', t'.
  repeat split; trivial.
  intros id' Hne. cbn. rewrite (H4 id' Hne). now apply set_info_find_other.
Qed.

Lemma load_loop_ok (fuel : nat) (st : ChamferMatcher)
  (l : list (Z * FloatMap Template_info_t)) :
  fltb f_zero (m_scaleStep st) = true ->
  sweep_ends fuel (m_scaleMax st) (m_scaleStep st) (m_scaleMin st) = true ->
  NoDup (map fst l) ->
  Forall (template_stored image_loadable st) l ->
  forall cur rest,
    same_scale_range cur st ->
    (forall id, In id (map fst l) -> map_find Z.ltb id (m_mapOfTemplate_info cur) = None) ->
    exists cur',
      load_loop fuel (List.length l)
        (mkIfstream (flat_map (entry_bytes st) l ++ rest) false) cur = Some cur' /\
      (forall id, ~ In id (map fst l) ->
         map_find Z.ltb id (m_mapOfTemplateImages cur')
         = map_find Z.ltb id (m_mapOfTemplateImages cur) /\
         map_find Z.ltb id (m_mapOfTemplate_info cur')
         = map_find Z.ltb id (m_mapOfTemplate_info cur)) /\
      (forall id scales, In (id, scales) l ->
         map_find Z.ltb id (m_mapOfTemplateImages cur')
         = map_find Z.ltb id (m_mapOfTemplateImages st) /\
         anchors_of (m_mapOfTemplate_info cur') id = scale1_anchors scales).
Proof.
  intros Hpos Hends. induction l as [|[id scales] l IH];
    intros Hnodup Hall cur rest Hrange Hfresh.
  - exists cur. split; [reflexivity|]. split; [auto|]. intros id scales [].
  - inversion Hnodup as [|? ? Hnotin Hnodup']; subst.
    inversion Hall as [|? ? Hentry Hall']; subst.
    destruct Hentry as (Hid & (t & Ht & Hloc & Hroi) & (img & Himg & Hcont & Hgray)).
    cbn [fst snd] in *.
    assert (Hbytes : entry_bytes st (id, scales) = template_bytes id img t).
    { unfold entry_bytes. cbn [fst snd]. now rewrite Ht, Himg. }
    cbn [flat_map List.length load_loop]. rewrite Hbytes, <- app_assoc.
    destruct (load_template_ok fuel st cur id img t (flat_map (entry_bytes st) l ++ rest))
      as (cur1 & scales1 & t1 & Hload & Hrange1 & Himgs1 & Hinfo1 & Hone1 & Hloc1 & Hroi1 & Hother1);
      trivial.
    { apply Hfresh. now left. }
    rewrite Hload.
    destruct (IH Hnodup' Hall' cur1 rest Hrange1) as (cur' & Hloop & Hout & Hin).
    { intros id' Hin'. rewrite Hother1.
      - apply Hfresh. now right.
      - intros ->. contradiction. }
    exists cur'. split; [exact Hloop|]. split.
    + intros id0 Hnot.
      assert (Hne : id0 <> id) by (intros ->; apply Hnot; now left).
      assert (Hnot' : ~ In id0 (map fst l)) by (intros H; apply Hnot; now right).
      destruct (Hout id0 Hnot') as [H1 H2]. split.
      * rewrite H1, Himgs1. now apply IntMap_find_insert_other.
      * rewrite H2. now apply Hother1.
    + intros id0 scales0 [Heq|Hin0].
      * injection Heq as <- <-.
        destruct (Hout id Hnotin) as [H1 H2]. split.
        -- rewrite H1, Himgs1, IntMap_find_insert_same. now rewrite Himg.
        -- unfold anchors_of, scale1_anchors. rewrite H2, Hinfo1, Hone1, Ht.
           now rewrite Hloc1, Hroi1.
      * now apply Hin.
Qed.

Lemma IntMap_find_present {V : Type} (k : Z) (m : IntMap V) :
  In k (map fst m) -> map_find Z.ltb k m <> None.
Proof.
  induction m as [|[k' v'] m IH]; cbn [map fst In map_find]; [tauto|].
  rewrite key_equiv_Z. destruct (Z.eqb_spec k k'); [discriminate|].
  intros [?|Hin]; [congruence | now apply IH].
Qed.

(** C6 (amended). For every configured template collection whose template
    images are gray or three-channel and hold fewer than 2^31 bytes each, and
    whose scale sweep ends, [save] writes a file from which [load]
    reproduces, for every template id, the scale-1.0 template image pixel
    for pixel and the template anchor and the search region exactly; no
    other id appears. *)
Theorem save_load_roundtrip (fuel : nat) (st : ChamferMatcher) (filename : string) :
  store_wf image_loadable st ->
  sweep_ends fuel (m_scaleMax st) (m_scaleStep st) (m_scaleMin st) = true ->
  exists bytes st',
    saveTemplateData st filename true = Some (Some bytes, st) /\
    loadTemplateData fuel st filename (Some bytes) = Some st' /\
    (forall id scales,
       map_find Z.ltb id (m_mapOfTemplate_info st) = Some scales ->
       map_find Z.ltb id (m_mapOfTemplateImages st')
       = map_find Z.ltb id (m_mapOfTemplateImages st) /\
       map_find Z.ltb id (m_mapOfTemplateImages st') <> None /\
       anchors_of (m_mapOfTemplate_info st') id = anchors_of (m_mapOfTemplate_info st) id /\
       anchors_of (m_mapOfTemplate_info st') id <> None) /\
    (forall id,
       map_find Z.ltb id (m_mapOfTemplate_info st) = None ->
       map_find Z.ltb id (m_mapOfTemplate_info st') = None).
Proof.
  intros Hwf Hends.
  pose proof (saveTemplateData_ok st filename Hwf) as Hsave.
  destruct Hwf as (Hnodup & Hcount & Hall & Hpos).
  destruct (load_loop_ok fuel st (m_mapOfTemplate_info st) Hpos Hends Hnodup Hall
              (set_templates [] [] st) [])
    as (st' & Hloop & Hout & Hin).
  { repeat split. }
  { reflexivity. }
  rewrite app_nil_r in Hloop.
  exists (int_bytes (Z.of_nat (List.length (m_mapOfTemplate_info st))) ++
          flat_map (entry_bytes st) (m_mapOfTemplate_info st)), st'.
  split; [exact Hsave|]. split.
  - unfold loadTemplateData.
    rewrite read_int_app by (unfold int_range; lia).
    rewrite Nat2Z.id. exact Hloop.
  - split.
    + intros id scales Hfind.
      pose proof (IntMap_find_In _ _ _ Hfind) as Hmem.
      destruct (Hin id scales Hmem) as [Himg Hanch].
      rewrite Forall_forall in Hall.
      destruct (Hall _ Hmem) as (_ & (t & Ht & _) & (img & Himg0 & _)).
      cbn [fst snd] in *.
      assert (Hanch0 : anchors_of (m_mapOfTemplate_info st) id = scale1_anchors scales)
        by (unfold anchors_of; now rewrite Hfind).
      repeat split.
      * exact Himg.
      * rewrite Himg, Himg0. discriminate.
      * now rewrite Hanch, Hanch0.
      * rewrite Hanch. unfold scale1_anchors. rewrite Ht. discriminate.
    + intros id Hnone.
      assert (Hnot : ~ In id (map fst (m_mapOfTemplate_info st))).
      { intros H. now apply IntMap_find_present in H. }
      destruct (Hout id Hnot) as [_ ->]. reflexivity.
Qed.

(** A file whose first template announces an image of 2^31 bytes or more
    is not read back: the size of the array is not a value of [int], and the
    load does not return. *)
Lemma loadTemplateData_image_too_large (fuel : nat) (st : ChamferMatcher)
  (filename : string) (nbTemplates id nbRows nbCols nbChannels : Z) (rest : list byte) :
  0 < nbTemplates < 2 ^ 31 -> int_range id ->
  0 <= nbRows < 2 ^ 31 -> 0 <= nbCols < 2 ^ 31 -> 1 <= nbChannels < 2 ^ 31 ->
  2 ^ 31 <= nbRows * nbCols * nbChannels ->
  loadTemplateData fuel st filename
    (Some (int_bytes nbTemplates ++ int_bytes id ++ int_bytes nbRows ++
           int_bytes nbCols ++ int_bytes nbChannels ++ rest)) = None.
Proof.
  intros Hcount Hid Hrows Hcols Hch Hbig. unfold loadTemplateData.
  rewrite read_int_app by (unfold int_range; lia).
  destruct (Z.to_nat nbTemplates) as [|n] eqn:En; [lia|].
  cbn [load_loop]. unfold load_template.
  rewrite (read_int_app id) by assumption.
  rewrite (read_int_app nbRows) by (unfold int_range; lia).
  rewrite (read_int_app nbCols) by (unfold int_range; lia).
  rewrite (read_int_app nbChannels) by (unfold int_range; lia).
  assert (Hfits : fits_int (nbRows * nbCols * nbChannels) = false).
  { unfold fits_int. apply andb_false_iff. right. apply Z.ltb_ge. exact Hbig. }
  rewrite Hfits, andb_false_r. reflexivity.
Qed.

End Load.

Lemma store_of_wf (channels_ok : Image -> Prop) (img : Image) (location roi : Rect) :
  image_continuous img -> channels_ok img ->
  rect_in_range location -> rect_in_range roi ->
  store_wf channels_ok (store_of 3 img location roi).
Proof.
  intros Himg Hch Hloc Hroi. unfold store_wf.
  split; [repeat constructor; simpl; tauto|].
  split; [reflexivity|].
  split; [|reflexivity].
  constructor; [|constructor].
  unfold template_stored. cbn [store_of set_templates m_mapOfTemplateImages fst snd].
  split; [unfold int_range; lia|]. split.
  - eexists. split; [reflexivity|]. split; assumption.
  - exists img. split; [reflexivity|]. split; assumption.
Qed.

Lemma save_load_roundtrip_witness :
  exists bytes st',
    saveTemplateData gray_matcher "templates.bin" true = Some (Some bytes, gray_matcher) /\
    loadTemplateData (E := example_externals) 20 gray_matcher "templates.bin" (Some bytes)
    = Some st' /\
    map_find Z.ltb 3 (m_mapOfTemplateImages st') = Some gray_image /\
    anchors_of (m_mapOfTemplate_info st') 3 = Some (mkRect 4 5 2 1, mkRect 0 0 8 8).
Proof.
  assert (Hwf : store_wf image_loadable gray_matcher).
  { apply store_of_wf.
    - unfold image_continuous. cbn. repeat split; try lia.
    - split; [left; reflexivity | reflexivity].
    - unfold rect_in_range, int_range. cbn. lia.
    - unfold rect_in_range, int_range. cbn. lia. }
  destruct (save_load_roundtrip (E := example_externals) 20 gray_matcher "templates.bin"
              Hwf eq_refl) as (bytes & st' & Hsave & Hload & Hsame & _).
  exists bytes, st'. split; [exact Hsave|]. split; [exact Hload|].
  destruct (Hsame 3 _ eq_refl) as (Himg & _ & Hanch & _).
  split; [rewrite Himg | rewrite Hanch]; reflexivity.
Defined.

(** C6, as stated, fails: the file keeps the four channels of the image, but
    [loadTemplateData] builds a one-channel matrix for every channel count
    other than 3. *)
Lemma save_load_drops_channels :
  store_wf (fun _ => True) bgra_matcher /\
  exists bytes st',
    saveTemplateData bgra_matcher "templates.bin" true = Some (Some bytes, bgra_matcher) /\
    loadTemplateData (E := example_externals) 20 bgra_matcher "templates.bin" (Some bytes)
    = Some st' /\
    map_find Z.ltb 3 (m_mapOfTemplateImages bgra_matcher) = Some bgra_image /\
    map_find Z.ltb 3 (m_mapOfTemplateImages st')
    = Some (mkImage 1 1 1 (img_data bgra_image)) /\
    map_find Z.ltb 3 (m_mapOfTemplateImages st')
    <> map_find Z.ltb 3 (m_mapOfTemplateImages bgra_matcher).
Proof.
  split.
  - apply store_of_wf; trivial.
    + unfold image_continuous. cbn. repeat split; try lia.
    + unfold rect_in_range, int_range. cbn. lia.
    + unfold rect_in_range, int_range. cbn. lia.
  - eexists. eexists. split; [vm_compute; reflexivity|].
    split; [vm_compute; reflexivity|].
    split; [reflexivity|]. split; [reflexivity|]. discriminate.
Qed.


(** ** Detections in the order of their cost *)

Lemma Zcompare_eq_lt_trans (a b c : Z) :
  Some (a ?= b) = Some Eq -> Some (b ?= c) = Some Lt -> Some (a ?= c) = Some Lt.
Proof.
  intros H1 H2. injection H1 as H1. injection H2 as H2. f_equal.
  apply Z.compare_eq_iff in H1. change (b < c) in H2. change (a < c). lia.
Qed.

Lemma fcompare_eq_lt_trans (x y z : spec_float) :
  fcompare x y = Some Eq -> fcompare y z = Some Lt -> fcompare x z = Some Lt.
Proof.
  intros H1 H2.
  destruct x as [sx|sx| |sx mx ex], y as [sy|sy| |sy my ey], z as [sz|sz| |sz mz ez];
    three_way H1 H2 Zcompare_eq_lt_trans.
Qed.

Lemma fleb_trans (x y z : spec_float) :
  fleb x y = true -> fleb y z = true -> fleb x z = true.
Proof.
  unfold fleb. intros H1 H2.
  destruct (fcompare x y) as [[]|] eqn:E1; try discriminate;
    destruct (fcompare y z) as [[]|] eqn:E2; try discriminate.
  - now rewrite (fcompare_eq_trans x y z E1 E2).
  - now rewrite (fcompare_eq_lt_trans x y z E1 E2).
  - now rewrite (fcompare_lt_le_trans x y z E1 (or_intror E2)).
  - now rewrite (fcompare_lt_le_trans x y z E1 (or_introl E2)).
Qed.

Lemma fltb_numbers (x y : spec_float) :
  fltb x y = true -> is_nan x = false /\ is_nan y = false.
Proof. destruct x, y; simpl; intros H; try discriminate; split; reflexivity. Qed.

Lemma fltb_fleb (x y : spec_float) : fltb x y = true -> fleb x y = true.
Proof. unfold fltb, fleb. destruct (fcompare x y) as [[]|]; congruence. Qed.

Lemma fleb_total (x y : spec_float) :
  is_nan x = false -> is_nan y = false -> fltb x y = false -> fleb y x = true.
Proof.
  intros Hx Hy. unfold fltb, fleb. rewrite (fcompare_antisym x y).
  destruct (fcompare_defined x y Hx Hy) as (c & ->).
  destruct c; simpl; congruence.
Qed.

Lemma Detection_lt_numbers (a b : Detection_t) :
  Detection_lt a b = true -> cost_number a = true /\ cost_number b = true.
Proof.
  unfold Detection_lt, cost_number. intros H.
  destruct (fltb_numbers _ _ H) as [-> ->]. split; reflexivity.
Qed.

(** The sort moves a detection past the costs that are NaN: among the
    numbers it is an insertion among numbers, and a NaN does not move them. *)
Lemma sort_insert_numbers (a : Detection_t) (l : list Detection_t) :
  filter cost_number (sort_insert Detection_lt a l)
  = if cost_number a then sort_insert Detection_lt a (filter cost_number l)
    else filter cost_number l.
Proof.
  induction l as [|b l IH]; cbn [sort_insert filter].
  - destruct (cost_number a); reflexivity.
  - destruct (Detection_lt a b) eqn:Elt.
    + destruct (Detection_lt_numbers a b Elt) as [Ha Hb].
      cbn [filter]. rewrite Ha, Hb. cbn [sort_insert]. now rewrite Elt.
    + cbn [filter]. rewrite IH.
      destruct (cost_number b) eqn:Eb, (cost_number a) eqn:Ea; trivial.
      cbn [sort_insert]. now rewrite Elt.
Qed.

Lemma sort_insert_cost_sorted (a : Detection_t) (l : list Detection_t) :
  cost_number a = true -> Forall (fun d => cost_number d = true) l ->
  StronglySorted cost_le l -> StronglySorted cost_le (sort_insert Detection_lt a l).
Proof.
  intros Ha Hnum Hs. induction Hs as [|b l Hs IH Hb]; cbn [sort_insert].
  - repeat constructor.
  - inversion Hnum as [|? ? Hnb Hnl]; subst.
    destruct (Detection_lt a b) eqn:Elt.
    + constructor; [now constructor|].
      assert (Hab : cost_le a b) by (apply fltb_fleb; exact Elt).
      constructor; [exact Hab|].
      eapply Forall_impl; [|exact Hb]. intros c Hc. unfold cost_le in *.
      eapply fleb_trans; eassumption.
    + constructor; [now apply IH|].
      eapply Permutation_Forall; [apply sort_insert_perm|].
      constructor; [|exact Hb].
      unfold cost_number in Ha, Hnb. apply negb_true_iff in Ha, Hnb.
      now apply fleb_total.
Qed.

Lemma filter_all {A : Type} (f : A -> bool) (l : list A) :
  Forall (fun a => f a = true) (filter f l).
Proof. apply Forall_forall. intros a Ha. now apply filter_In in Ha. Qed.

Lemma std_sort_from_cost_sorted (l acc : list Detection_t) :
  StronglySorted cost_le (filter cost_number acc) ->
  StronglySorted cost_le
    (filter cost_number (fold_left (fun acc a => sort_insert Detection_lt a acc) l acc)).
Proof.
  revert acc. induction l as [|a l IH]; intros acc Hacc; cbn [fold_left]; [exact Hacc|].
  apply IH. rewrite sort_insert_numbers.
  destruct (cost_number a) eqn:Ea; [|exact Hacc].
  apply sort_insert_cost_sorted; trivial. apply filter_all.
Qed.

(** After [std::sort] the costs that are numbers are in ascending order. *)
Lemma std_sort_cost_sorted (l : list Detection_t) :
  StronglySorted cost_le (filter cost_number (std_sort Detection_lt l)).
Proof. apply std_sort_from_cost_sorted. constructor. Qed.

Lemma filter_id {A : Type} (f : A -> bool) (l : list A) :
  Forall (fun a => f a = true) l -> filter f l = l.
Proof.
  induction 1 as [|a l Ha Hl IH]; cbn [filter]; [reflexivity|]. now rewrite Ha, IH.
Qed.

Lemma StronglySorted_filter {A : Type} (R : A -> A -> Prop) (f : A -> bool) (l : list A) :
  StronglySorted R l -> StronglySorted R (filter f l).
Proof.
  induction 1 as [|a l Hs IH Ha]; cbn [filter]; [constructor|].
  destruct (f a); [|exact IH].
  constructor; [exact IH|].
  apply Forall_forall. intros b Hb. apply filter_In in Hb as [Hb _].
  rewrite Forall_forall in Ha. now apply Ha.
Qed.

Lemma filter_perm {A : Type} (f : A -> bool) (l l' : list A) :
  Permutation l l' -> Permutation (filter f l) (filter f l').
Proof.
  induction 1 as [|a l l' Hp IH|a b l|l l' l'' H1 IH1 H2 IH2]; cbn [filter].
  - constructor.
  - destruct (f a); [now constructor | exact IH].
  - destruct (f a), (f b); try reflexivity. apply perm_swap.
  - eapply Permutation_trans; eassumption.
Qed.

(** A loop that pushes the elements that pass a test is a filter. *)
Lemma push_if_filter {A : Type} (f : A -> bool) (l acc : list A) :
  fold_left (fun acc a => if f a then acc ++ [a] else acc) l acc = acc ++ filter f l.
Proof.
  revert acc. induction l as [|a l IH]; intros acc; cbn [fold_left filter].
  - now rewrite app_nil_r.
  - rewrite IH. destruct (f a); [|reflexivity]. now rewrite <- app_assoc.
Qed.

(** ** [retainDetections] *)

Lemma retainDetections_filter (l : list Detection_t) (threshold : float) :
  retainDetections l threshold = filter (below threshold) (std_sort Detection_lt l).
Proof.
  destruct l as [|d l]; [reflexivity|].
  unfold retainDetections.
  exact (push_if_filter (below threshold) (std_sort Detection_lt (d :: l)) []).
Qed.

(** X1. [retainDetections] keeps exactly the detections whose cost is below
    the threshold, each as often as it was given: what it returns is a
    rearrangement of the detections of the input that pass the test.  A cost
    that is NaN is below no threshold, so such a detection is dropped. *)
Theorem retainDetections_keeps_exactly_below (l : list Detection_t) (threshold : float) :
  Permutation (retainDetections l threshold) (filter (below threshold) l) /\
  (forall d, In d (retainDetections l threshold) ->
     In d l /\ fltb (m_chamferDist d) (f64_of_f32 threshold) = true /\
     is_nan (m_chamferDist d) = false).
Proof.
  rewrite retainDetections_filter. split.
  - apply filter_perm. symmetry. apply std_sort_perm.
  - intros d Hd. apply filter_In in Hd as [Hd Hb].
    split; [|split; [exact Hb|]].
    + eapply Permutation_in; [symmetry; apply std_sort_perm | exact Hd].
    + unfold below in Hb. now apply fltb_numbers in Hb.
Qed.

(** X2. When no cost of the input is NaN, the detections that
    [retainDetections] returns are in the order of their cost, cheapest
    first. *)
Theorem retainDetections_sorted (l : list Detection_t) (threshold : float) :
  Forall (fun d => is_nan (m_chamferDist d) = false) l ->
  StronglySorted cost_le (retainDetections l threshold).
Proof.
  intros Hnumbers. rewrite retainDetections_filter.
  apply StronglySorted_filter.
  rewrite <- (filter_id cost_number (std_sort Detection_lt l)).
  - apply std_sort_cost_sorted.
  - eapply Permutation_Forall; [apply std_sort_perm|].
    eapply Forall_impl; [|exact Hnumbers].
    intros d Hd. unfold cost_number. now rewrite Hd.
Qed.

Lemma retainDetections_sorted_witness :
  Forall (fun d => is_nan (m_chamferDist d) = false) retain_example /\
  map m_chamferDist (retainDetections retain_example (f32_of_int 4))
  = [f64_of_int 1; f64_of_int 3] /\
  StronglySorted cost_le (retainDetections retain_example (f32_of_int 4)).
Proof.
  assert (H : Forall (fun d => is_nan (m_chamferDist d) = false) retain_example)
    by (repeat constructor).
  split; [exact H|]. split; [reflexivity|].
  exact (retainDetections_sorted retain_example (f32_of_int 4) H).
Defined.

(** ** [nonMaximaSuppression]: what is kept *)

Lemma survivors_keep (l : list Detection_t) (d : Detection_t) :
  In d l ->
  (forall d2, In d2 l -> is_inside (m_boundingBox d) (m_boundingBox d2) = false) ->
  In d (survivors l).
Proof.
  induction l as [|x rest IH]; intros Hin Hout; [destruct Hin|].
  cbn [survivors].
  destruct Hin as [->|Hin].
  - assert (E0 : existsb (fun d2 => is_inside (m_boundingBox d) (m_boundingBox d2)) rest
                 = false).
    { destruct (existsb _ rest) eqn:Ex; [|reflexivity].
      apply existsb_exists in Ex as (d2 & Hd2 & Hins).
      rewrite Hout in Hins by (now right). discriminate. }
    rewrite E0. now left.
  - assert (Hd : In d (survivors rest))
      by (apply IH; [exact Hin | intros d2 Hd2; apply Hout; now right]).
    destruct (existsb _ rest); [exact Hd | now right].
Qed.

(** X3. Non-maximum suppression invents no detection and loses none that
    matters: every detection it returns is one of its input, and a detection
    of the input whose box lies strictly inside the box of no other
    detection of the input is returned. *)
Theorem nonMaximaSuppression_keeps_outermost (detections : list Detection_t) :
  (forall d, In d (nonMaximaSuppression detections []) -> In d detections) /\
  (forall d, In d detections ->
     (forall d2, In d2 detections ->
        is_inside (m_boundingBox d) (m_boundingBox d2) = false) ->
     In d (nonMaximaSuppression detections [])).
Proof.
  unfold nonMaximaSuppression. rewrite nms_loop_survivors. cbn [app].
  pose proof (std_sort_perm less_than_area detections) as Hp.
  split.
  - intros d Hd. apply survivors_incl in Hd.
    eapply Permutation_in; [symmetry; exact Hp | exact Hd].
  - intros d Hd Hout. apply survivors_keep.
    + eapply Permutation_in; [exact Hp | exact Hd].
    + intros d2 Hd2. apply Hout.
      eapply Permutation_in; [symmetry; exact Hp | exact Hd2].
Qed.

Lemma nonMaximaSuppression_keeps_outermost_witness :
  In (Detection_new (mkRect 0 0 10 10) f_zero f_zero) (nonMaximaSuppression nms_example []) /\
  List.length (nonMaximaSuppression nms_example []) = 2%nat.
Proof.
  split; [|reflexivity].
  apply (proj2 (nonMaximaSuppression_keeps_outermost nms_example)).
  - left. reflexivity.
  - intros d2 [<-|[<-|[<-|[]]]]; reflexivity.
Defined.


(** ** The matching type and the cost map *)

Section MatchingType.
Context {E : Externals}.

(** X4. Under the two line matching types [computeChamferDistance] never
    reads its offset: the cost it returns is the same at every position of
    the template in the query. *)
Theorem computeChamferDistance_line_ignores_offset st t ox oy ox' oy' uo lambda wf wb :
  is_lineType (m_matchingType st) = true ->
  computeChamferDistance st t ox oy uo lambda wf wb
  = computeChamferDistance st t ox' oy' uo lambda wf wb.
Proof.
  intros Hline. unfold computeChamferDistance. now rewrite Hline.
Qed.

(** X5. [computeMatchingMap] sends every matching type but the two edge
    types to [computeFullChamferDistance], which treats every type but
    [fullMatching] and [forwardBackwardMaskMatching] as [maskMatching]: under
    a line matching type the cost map is the one of [maskMatching], and the
    line costs of [computeChamferDistance] are not used. *)
Theorem computeMatchingMap_line_is_mask st t chamferMap uo xStep yStep lambda wf wb :
  is_lineType (m_matchingType st) = true ->
  computeMatchingMap st t chamferMap uo xStep yStep lambda wf wb
  = computeMatchingMap (set_matchingType maskMatching st) t chamferMap uo xStep yStep
      lambda wf wb.
Proof.
  intros Hline. destruct st as [ct de oe mn gs ms mt q info imgs rt smax smin sstep err].
  cbn [m_matchingType] in Hline.
  destruct mt; try discriminate Hline; reflexivity.
Qed.

End MatchingType.

Lemma computeChamferDistance_line_ignores_offset_witness :
  is_lineType (m_matchingType (bare_matcher lineMatching)) = true /\
  computeChamferDistance (E := example_externals) (bare_matcher lineMatching) bare_template
    0 0 false f_zero f32_one f32_one
  = computeChamferDistance (E := example_externals) (bare_matcher lineMatching) bare_template
    7 9 false f_zero f32_one f32_one.
Proof.
  split; [reflexivity|].
  apply (computeChamferDistance_line_ignores_offset (E := example_externals)).
  reflexivity.
Defined.

Lemma computeMatchingMap_line_is_mask_witness :
  is_lineType (m_matchingType (bare_matcher lineForwardBackwardMatching)) = true /\
  computeMatchingMap (E := example_externals) (bare_matcher lineForwardBackwardMatching)
    bare_template Mat_new false 5 5 f_zero f32_one f32_one
  = computeMatchingMap (E := example_externals)
      (set_matchingType maskMatching (bare_matcher lineForwardBackwardMatching))
      bare_template Mat_new false 5 5 f_zero f32_one f32_one.
Proof.
  split; [reflexivity|].
  apply (computeMatchingMap_line_is_mask (E := example_externals)).
  reflexivity.
Defined.


(** ** Loops and buffers *)

Lemma for_each_invariant {A T : Type} (P : T -> Prop)
  (body : nat -> A -> T -> option T) (l : list A) :
  (forall j a s s', P s -> body j a s = Some s' -> P s') ->
  forall j s s', P s -> for_each body l j s = Some s' -> P s'.
Proof.
  intros Hb. induction l as [|a l IH]; intros j s s' HP H; cbn [for_each] in H.
  - now injection H as <-.
  - destruct (body j a s) as [s1|] eqn:E1; [|discriminate].
    eapply IH; [|exact H]. eapply Hb; eassumption.
Qed.

Lemma for_grid_invariant {T : Type} (P : T -> Prop) (startI endI yStep startJ endJ xStep : Z)
  (body : Z -> Z -> T -> option T) :
  (forall i j s s', P s -> body i j s = Some s' -> P s') ->
  forall s s', P s ->
    for_grid startI endI yStep startJ endJ xStep body s = Some s' -> P s'.
Proof.
  intros Hb s s' HP H. unfold for_grid in H.
  destruct (for_range startI endI yStep) as [ri|]; [|discriminate].
  eapply (for_each_invariant P); [|exact HP | exact H].
  intros j0 i s1 s2 HP1 H1. cbn beta in H1.
  destruct (for_range startJ endJ xStep) as [rj|]; [|discriminate].
  eapply (for_each_invariant P); [|exact HP1 | exact H1].
  intros j1 j s3 s4 HP3 H3. exact (Hb _ _ _ _ HP3 H3).
Qed.

Lemma list_set_spec {A : Type} (l : list A) (n : nat) (v : A) (l' : list A) :
  list_set l n v = Some l' ->
  List.length l' = List.length l /\
  forall k, nth_error l' k = if Nat.eqb k n then Some v else nth_error l k.
Proof.
  revert n l'. induction l as [|a l IH]; intros n l' H; cbn [list_set] in H; [discriminate|].
  destruct n as [|n].
  - injection H as <-. split; [reflexivity|]. intros [|k]; reflexivity.
  - destruct (list_set l n v) as [l1|] eqn:E1; [|discriminate]. injection H as <-.
    destruct (IH n l1 E1) as [Hl Hk]. split; [cbn [List.length]; now rewrite Hl|].
    intros [|k]; [reflexivity|]. cbn [nth_error Nat.eqb]. apply Hk.
Qed.

Lemma list_set_Forall {A : Type} (P : A -> Prop) (l : list A) (n : nat) (v : A) (l' : list A) :
  list_set l n v = Some l' -> Forall P l -> P v -> Forall P l'.
Proof.
  revert n l'. induction l as [|a l IH]; intros n l' H Hl Hv; cbn [list_set] in H;
    [discriminate|].
  inversion Hl as [|? ? Ha Hl']; subst.
  destruct n as [|n].
  - injection H as <-. now constructor.
  - destruct (list_set l n v) as [l1|] eqn:E1; [|discriminate]. injection H as <-.
    constructor; [exact Ha|]. eapply IH; eassumption.
Qed.

Lemma Mat_set_shape {A : Type} (m m' : Mat A) (y x : Z) (v : A) :
  Mat_set m y x v = Some m' ->
  rows m' = rows m /\ cols m' = cols m /\ List.length (data m') = List.length (data m).
Proof.
  unfold Mat_set. destruct (y * cols m + x <? 0); [discriminate|].
  destruct (list_set _ _ _) as [d|] eqn:Ed; [|discriminate]. intros H. injection H as <-.
  cbn [rows cols data]. repeat split. now apply list_set_spec in Ed.
Qed.

Lemma Mat_set_Forall {A : Type} (P : A -> Prop) (m m' : Mat A) (y x : Z) (v : A) :
  Mat_set m y x v = Some m' -> Forall P (data m) -> P v -> Forall P (data m').
Proof.
  unfold Mat_set. destruct (y * cols m + x <? 0); [discriminate|].
  destruct (list_set _ _ _) as [d|] eqn:Ed; [|discriminate]. intros H. injection H as <-.
  cbn [data]. now apply list_set_Forall with (1 := Ed).
Qed.

(** A cell read after a write: the value written at the cell of the write,
    the old value elsewhere. *)
Lemma Mat_set_ptr {A : Type} (m m' : Mat A) (y x : Z) (v : A) (y' x' : Z) :
  Mat_set m y x v = Some m' ->
  Mat_ptr m' y' x' = if y' * cols m + x' =? y * cols m + x then Some v else Mat_ptr m y' x'.
Proof.
  unfold Mat_set, Mat_ptr. destruct (y * cols m + x <? 0) eqn:Eneg; [discriminate|].
  destruct (list_set _ _ _) as [d|] eqn:Ed; [|discriminate]. intros H. injection H as <-.
  cbn [cols data]. apply Z.ltb_ge in Eneg.
  destruct (list_set_spec _ _ _ _ Ed) as [_ Hk].
  destruct (Z.eqb_spec (y' * cols m + x') (y * cols m + x)) as [->|Hne].
  - apply Z.ltb_ge in Eneg. rewrite Eneg, Hk. now rewrite Nat.eqb_refl.
  - destruct (y' * cols m + x' <? 0) eqn:Eneg'; [reflexivity|].
    apply Z.ltb_ge in Eneg'. rewrite Hk.
    destruct (Nat.eqb_spec (Z.to_nat (y' * cols m + x')) (Z.to_nat (y * cols m + x)));
      [lia | reflexivity].
Qed.

Section CostMap.
Context {E : Externals}.

Lemma computeMatchingMap_cells st t chamferMap uo xStep yStep lambda wf wb m' :
  0 < chamferMapWidth st t -> 0 < chamferMapHeight st t ->
  computeMatchingMap st t chamferMap uo xStep yStep lambda wf wb = Some m' ->
  rows m' = chamferMapHeight st t /\ cols m' = chamferMapWidth st t /\
  List.length (data m') = Z.to_nat (chamferMapHeight st t * chamferMapWidth st t) /\
  Forall (cell_of_map st t uo lambda wf wb) (data m').
Proof.
  unfold chamferMapWidth, chamferMapHeight, computeMatchingMap. intros HW HH.
  set (W := cols (q_distImg (m_query_info st)) - cols (m_distImg t) + 1) in *.
  set (H := rows (q_distImg (m_query_info st)) - rows (m_distImg t) + 1) in *.
  destruct (Z.leb_spec W 0); [lia|]. destruct (Z.leb_spec H 0); [lia|]. cbn [orb].
  destruct (if MatchingStrategyType_eqb _ _ then _ else _) as [[[startI endI] startJ] endJ].
  destruct (match m_rejectionType st with
            | noRejection => _ | gridDescriptorRejection => _ end) as [mask|]; [|discriminate].
  apply (for_grid_invariant
           (fun m => rows m = H /\ cols m = W /\
                     List.length (data m) = Z.to_nat (H * W) /\
                     Forall (cell_of_map st t uo lambda wf wb) (data m))).
  - intros i j m m1 (Hr & Hc & Hl & Hf) Hbody.
    destruct (Mat_ptr mask i j) as [keep|]; [|discriminate].
    destruct (keep =? 0); [injection Hbody as <-; auto|].
    destruct (cost_at st t j i uo lambda wf wb) as [cost|] eqn:Ecost; [|discriminate].
    destruct (Mat_set_shape _ _ _ _ _ Hbody) as (Hr1 & Hc1 & Hl1).
    repeat split; try congruence.
    eapply Mat_set_Forall; [exact Hbody | exact Hf|].
    right. now exists i, j, cost.
  - cbn [rows cols data Mat_fill]. repeat split.
    + apply repeat_length.
    + apply Forall_forall. intros v Hv. apply repeat_spec in Hv. now left.
Qed.

End CostMap.

Lemma for_each_index {A T : Type} (body : A -> T -> option T) (l : list A) (j j' : nat) (s : T) :
  for_each (fun _ => body) l j s = for_each (fun _ => body) l j' s.
Proof.
  revert j j' s. induction l as [|a l IH]; intros j j' s; cbn [for_each]; [reflexivity|].
  destruct (body a s); [apply IH | reflexivity].
Qed.

Lemma for_each_app {A T : Type} (body : A -> T -> option T) (l1 l2 : list A) (s : T) :
  for_each (fun _ => body) (l1 ++ l2) 0%nat s
  = match for_each (fun _ => body) l1 0%nat s with
    | Some s1 => for_each (fun _ => body) l2 0%nat s1
    | None => None
    end.
Proof.
  generalize 0%nat at 1 2. revert s.
  induction l1 as [|a l1 IH]; intros s j; cbn [app for_each].
  - apply for_each_index.
  - destruct (body a s); [apply IH | reflexivity].
Qed.

Lemma for_each_map {A B T : Type} (f : A -> B) (body : B -> T -> option T) (l : list A)
  (j : nat) (s : T) :
  for_each (fun _ => body) (map f l) j s = for_each (fun _ a => body (f a)) l j s.
Proof.
  revert j s. induction l as [|a l IH]; intros j s; cbn [map for_each]; [reflexivity|].
  destruct (body (f a) s); [apply IH | reflexivity].
Qed.

(** The double loop is one loop over the cells it visits. *)
Lemma for_grid_cells {T : Type} (startI endI yStep startJ endJ xStep : Z)
  (body : Z -> Z -> T -> option T) (s s' : T) :
  for_grid startI endI yStep startJ endJ xStep body s = Some s' ->
  for_each (fun _ ij s => body (fst ij) (snd ij) s)
    (grid_cells startI endI yStep startJ endJ xStep) 0%nat s = Some s'.
Proof.
  unfold for_grid, grid_cells.
  destruct (for_range startI endI yStep) as [ri|]; [|discriminate].
  destruct (for_range startJ endJ xStep) as [rj|].
  - revert s. induction ri as [|i ri IH]; intros s H; [exact H|].
    cbn [list_prod].
    rewrite (for_each_app (fun ij s => body (fst ij) (snd ij) s)).
    cbn [for_each] in H.
    rewrite (for_each_map (fun j => (i, j)) (fun ij s => body (fst ij) (snd ij) s)).
    cbn [fst snd].
    destruct (for_each (fun _ j s => body i j s) rj 0%nat s) as [s1|]; [|discriminate].
    apply IH.
    rewrite <- H. apply (for_each_index (fun i s => for_each (fun _ j s => body i j s) rj 0%nat s)).
  - destruct ri as [|i ri]; [intros H; exact H | discriminate].
Qed.

(** A loop whose body establishes a property of the element it visits, and
    keeps the property of the other elements. *)
Lemma for_each_establish {A T : Type} (Q : A -> T -> Prop)
  (body : nat -> A -> T -> option T) (l : list A) :
  (forall j a s s', body j a s = Some s' -> Q a s') ->
  (forall j a b s s', Q b s -> body j a s = Some s' -> Q b s') ->
  forall j s s', for_each body l j s = Some s' -> forall a, In a l -> Q a s'.
Proof.
  intros Hest Hkeep. induction l as [|a l IH]; intros j s s' H b Hin; [destruct Hin|].
  cbn [for_each] in H. destruct (body j a s) as [s1|] eqn:E1; [|discriminate].
  destruct Hin as [<-|Hin].
  - apply (for_each_invariant (Q a) body l) with (j := S j) (s := s1); trivial.
    + intros j' a' s2 s3 HQ Hb. eapply Hkeep; eassumption.
    + eapply Hest; exact E1.
  - eapply IH; eassumption.
Qed.

Lemma for_each_count_le {A : Type} (body : nat -> A -> Z -> option Z) (l : list A) :
  (forall j a n n', body j a n = Some n' -> n' <= n + 1) ->
  forall j n n', for_each body l j n = Some n' -> n' <= n + Z.of_nat (List.length l).
Proof.
  intros Hb. induction l as [|a l IH]; intros j n n' H; cbn [for_each] in H.
  - injection H as <-. cbn [List.length]. lia.
  - destruct (body j a n) as [n1|] eqn:E1; [|discriminate].
    apply Hb in E1. apply IH in H. cbn [List.length]. lia.
Qed.

Section Rejection.
Context {E : Externals}.

(** With too few descriptors the admission filter strikes the cell. *)
Lemma gridDescriptor_cell_strikes st t i j mask mask' :
  Z.of_nat (List.length (m_gridDescriptorsLocations t)) < m_minNbDescriptorMatches st ->
  gridDescriptor_cell st t i j mask = Some mask' ->
  Mat_set mask i j 0 = Some mask'.
Proof.
  unfold gridDescriptor_cell. intros Hfew H.
  destruct (for_each _ (m_gridDescriptorsLocations t) 0%nat 0) as [nbMatches|] eqn:Ecount;
    [|discriminate].
  apply for_each_count_le in Ecount.
  - destruct (Z.ltb_spec nbMatches (m_minNbDescriptorMatches st)); [exact H | lia].
  - clear. intros cpt loc n n' H.
    destruct (Mat_ptr _ _ _); [|discriminate].
    destruct (Mat_ptr _ _ _); [|discriminate].
    destruct (nth_error _ _); [|discriminate].
    destruct (_ && _); injection H as <-; lia.
Qed.

Lemma computeMatchingMap_all_struck st t chamferMap uo xStep yStep lambda wf wb m' :
  m_rejectionType st = gridDescriptorRejection ->
  Z.of_nat (List.length (m_gridDescriptorsLocations t)) < m_minNbDescriptorMatches st ->
  0 < chamferMapWidth st t -> 0 < chamferMapHeight st t ->
  computeMatchingMap st t chamferMap uo xStep yStep lambda wf wb = Some m' ->
  m' = Mat_fill (chamferMapHeight st t) (chamferMapWidth st t) FLT_MAX.
Proof.
  unfold chamferMapWidth, chamferMapHeight, computeMatchingMap. intros Hrej Hfew HW HH.
  set (W := cols (q_distImg (m_query_info st)) - cols (m_distImg t) + 1) in *.
  set (H := rows (q_distImg (m_query_info st)) - rows (m_distImg t) + 1) in *.
  destruct (Z.leb_spec W 0); [lia|]. destruct (Z.leb_spec H 0); [lia|]. cbn [orb].
  destruct (if MatchingStrategyType_eqb _ _ then _ else _) as [[[startI endI] startJ] endJ].
  rewrite Hrej.
  destruct (for_grid startI endI yStep startJ endJ xStep (gridDescriptor_cell st t) _)
    as [mask|] eqn:Epass1; [|discriminate].
  intros Epass2. apply for_grid_cells in Epass1, Epass2.
  assert (Hzero : forall ij, In ij (grid_cells startI endI yStep startJ endJ xStep) ->
                    Mat_ptr mask (fst ij) (snd ij) = Some 0).
  { eapply (for_each_establish (fun ij m => Mat_ptr m (fst ij) (snd ij) = Some 0));
      [| |exact Epass1].
    - intros k0 ij m m1 Hcell. cbn beta in Hcell. apply gridDescriptor_cell_strikes in Hcell; [|exact Hfew].
      rewrite (Mat_set_ptr _ _ _ _ _ _ _ Hcell). now rewrite Z.eqb_refl.
    - intros k0 ij ij' m m1 HQ Hcell. cbn beta in Hcell. apply gridDescriptor_cell_strikes in Hcell; [|exact Hfew].
      rewrite (Mat_set_ptr _ _ _ _ _ _ _ Hcell). now destruct (_ =? _). }
  rewrite for_each_skip in Epass2; [now injection Epass2 as <-|].
  intros k0 ij m Hin. cbn beta. now rewrite (Hzero ij Hin).
Qed.

End Rejection.

Section CostMapShape.
Context {E : Externals}.

(** X7. When the query is at least as large as the template, the cost map
    that [computeMatchingMap] returns has one cell for every position of the
    template in the query, [rows - rows + 1] by [cols - cols + 1], whatever
    map it was given; and every cell holds the initial value [FLT_MAX] or a
    cost that was computed at some position. *)
Theorem computeMatchingMap_shape st t chamferMap uo xStep yStep lambda wf wb m' :
  0 < chamferMapWidth st t -> 0 < chamferMapHeight st t ->
  computeMatchingMap st t chamferMap uo xStep yStep lambda wf wb = Some m' ->
  rows m' = chamferMapHeight st t /\ cols m' = chamferMapWidth st t /\
  List.length (data m') = Z.to_nat (chamferMapHeight st t * chamferMapWidth st t) /\
  Forall (cell_of_map st t uo lambda wf wb) (data m').
Proof. apply computeMatchingMap_cells. Qed.

(** X8. Under [gridDescriptorRejection], a template with fewer grid
    descriptors than [m_minNbDescriptorMatches] is rejected at every visited
    position: no cost is computed and the cost map stays at [FLT_MAX] in
    every cell. *)
Theorem computeMatchingMap_too_few_descriptors st t chamferMap uo xStep yStep lambda wf wb m' :
  m_rejectionType st = gridDescriptorRejection ->
  Z.of_nat (List.length (m_gridDescriptorsLocations t)) < m_minNbDescriptorMatches st ->
  0 < chamferMapWidth st t -> 0 < chamferMapHeight st t ->
  computeMatchingMap st t chamferMap uo xStep yStep lambda wf wb = Some m' ->
  m' = Mat_fill (chamferMapHeight st t) (chamferMapWidth st t) FLT_MAX.
Proof. apply computeMatchingMap_all_struck. Qed.

End CostMapShape.

Lemma computeMatchingMap_shape_witness :
  exists m',
    computeMatchingMap (E := example_externals) (strip_matcher 12 templateMatching)
      strip_template Mat_new false 5 5 f_zero f32_one f32_one = Some m' /\
    rows m' = 1 /\ cols m' = 11 /\
    List.length (data m') = 11%nat /\
    Forall (cell_of_map (E := example_externals) (strip_matcher 12 templateMatching)
              strip_template false f_zero f32_one f32_one) (data m').
Proof.
  eexists. split; [vm_compute; reflexivity|].
  apply (computeMatchingMap_shape (E := example_externals)
           (strip_matcher 12 templateMatching) strip_template Mat_new false 5 5
           f_zero f32_one f32_one).
  - reflexivity.
  - reflexivity.
  - vm_compute. reflexivity.
Defined.

Lemma computeMatchingMap_too_few_descriptors_witness :
  m_minNbDescriptorMatches (bare_matcher edgeMatching) = 5 /\
  exists m',
    computeMatchingMap (E := example_externals) (bare_matcher edgeMatching) bare_template
      Mat_new false 5 5 f_zero f32_one f32_one = Some m' /\
    m' = Mat_fill 1 2 FLT_MAX.
Proof.
  split; [reflexivity|]. eexists. split; [vm_compute; reflexivity|].
  apply (computeMatchingMap_too_few_descriptors (E := example_externals)
           (bare_matcher edgeMatching) bare_template Mat_new false 5 5
           f_zero f32_one f32_one).
  - reflexivity.
  - reflexivity.
  - reflexivity.
  - reflexivity.
  - vm_compute. reflexivity.
Defined.


(** ** The detections of [detect_impl] *)

Lemma minMaxLoc_inside (m : Mat float) :
  data m <> [] -> 0 < cols m -> Z.of_nat (List.length (data m)) = rows m * cols m ->
  0 <= pt_x (snd (minMaxLoc m)) < cols m /\ 0 <= pt_y (snd (minMaxLoc m)) < rows m.
Proof.
  intros Hne Hc Hlen. unfold minMaxLoc.
  pose proof (minScan_index (data m) 1 f_inf 0) as Hidx.
  destruct (minScan (data m) 1 f_inf 0) as [minVal minIdx]. cbn [snd pt_x pt_y] in *.
  set (k := if minIdx =? 0 then 1 else minIdx).
  assert (Hpos : (0 < List.length (data m))%nat)
    by (destruct (data m); [congruence | simpl; lia]).
  assert (Hk : 1 <= k <= Z.of_nat (List.length (data m))).
  { unfold k. destruct (minIdx =? 0) eqn:Ek; [lia|]. apply Z.eqb_neq in Ek. lia. }
  split.
  - apply Z.mod_pos_bound. lia.
  - split; [apply Z.div_pos; lia|].
    apply Z.div_lt_upper_bound; lia.
Qed.

Section Detections.
Context {E : Externals}.
Variables (st : ChamferMatcher) (t : Template_info_t) (scale thr : float).

(** A property [P] of every detection that the loop can push holds of the
    detections it returns. *)
Variable P : Detection_t -> Prop.
Hypothesis P_pushed :
  forall x y minVal,
    fltb minVal (f64_of_f32 thr) = true ->
    0 <= x < chamferMapWidth st t -> 0 <= y < chamferMapHeight st t ->
    P (Detection_new
         (Rect_of_points (mkPoint x y)
            (Point_add (mkPoint x y)
               (mkPoint (cols (m_distImg t)) (rows (m_distImg t))))) minVal scale).

Lemma extract_loop_pushes (fuel : nat) :
  forall (map : Mat float) (it : Z) (acc r : list Detection_t),
    rows map = chamferMapHeight st t -> cols map = chamferMapWidth st t ->
    0 < cols map -> data map <> [] ->
    Z.of_nat (List.length (data map)) = rows map * cols map ->
    Forall P acc ->
    extract_loop fuel t scale thr map it acc = Some r ->
    Forall P r.
Proof.
  induction fuel as [|fuel IH]; intros map it acc r Hr Hc Hpos Hne Hlen Hacc H;
    [discriminate|].
  cbn [extract_loop] in H.
  pose proof (minMaxLoc_inside map Hne Hpos Hlen) as Hloc.
  destruct (minMaxLoc map) as [minVal minLoc]. cbn [snd] in Hloc.
  destruct (Mat_set map (pt_y minLoc) (pt_x minLoc) FLT_MAX) as [map'|] eqn:Eset;
    [|discriminate].
  destruct (Mat_set_shape _ _ _ _ _ Eset) as (Hr' & Hc' & Hl').
  destruct (fltb minVal (f64_of_f32 thr)) eqn:Eb; cbn [andb] in H.
  - assert (Hacc' : Forall P
              (acc ++ [Detection_new
                 (Rect_of_points (mkPoint (pt_x minLoc) (pt_y minLoc))
                    (Point_add (mkPoint (pt_x minLoc) (pt_y minLoc))
                       (mkPoint (cols (m_distImg t)) (rows (m_distImg t))))) minVal scale])).
    { apply Forall_app. split; [exact Hacc|]. constructor; [|constructor].
      apply P_pushed; [exact Eb | lia | lia]. }
    destruct (it + 1 <=? maxLoopIterations).
    + eapply IH; [| | | | |exact Hacc'|exact H]; try congruence.
      intros E0. rewrite E0 in Hl'. destruct (data map); [congruence | discriminate].
    + now injection H as <-.
  - now injection H as <-.
Qed.

(** Without grouping, [detect_impl] returns the sorted vector of at most
    101 detections that the loop pushed. *)
Lemma detect_impl_pushes uo lambda wf wb l :
  detect_impl st t scale [] uo thr lambda wf wb false = Some l ->
  exists raw,
    l = std_sort Detection_lt raw /\ (List.length raw <= 101)%nat /\ Forall P raw.
Proof.
  unfold detect_impl.
  destruct (computeMatchingMap st t Mat_new uo 5 5 lambda wf wb) as [map|] eqn:Emap;
    [|discriminate].
  destruct (Mat_empty map) eqn:Eempty; cbn [negb].
  { intros H. injection H as <-. exists [].
    split; [reflexivity|]. split; [cbn [List.length]; lia | constructor]. }
  destruct (extract_loop extract_fuel t scale thr map 0 []) as [raw|] eqn:Eraw;
    [|discriminate].
  intros H. injection H as <-. exists raw. split; [reflexivity|].
  assert (Hne : data map <> []) by (now apply Mat_not_empty_data).
  assert (Hdims : 0 < chamferMapWidth st t /\ 0 < chamferMapHeight st t).
  { destruct (Z.leb_spec (chamferMapWidth st t) 0) as [Hw|Hw];
      [|destruct (Z.leb_spec (chamferMapHeight st t) 0) as [Hh|Hh]; [|lia]];
      exfalso; unfold computeMatchingMap in Emap;
      fold (chamferMapWidth st t) (chamferMapHeight st t) in Emap.
    - apply Z.leb_le in Hw. rewrite Hw in Emap. cbn [orb] in Emap.
      injection Emap as <-. discriminate.
    - apply Z.leb_le in Hh. rewrite Hh, orb_true_r in Emap.
      injection Emap as <-. discriminate. }
  destruct Hdims as [HW HH].
  destruct (computeMatchingMap_cells st t Mat_new uo 5 5 lambda wf wb map HW HH Emap)
    as (Hr & Hc & Hl & _).
  assert (Hlen : Z.of_nat (List.length (data map)) = rows map * cols map)
    by (rewrite Hl, Hr, Hc; apply Z2Nat.id; lia).
  split.
  - destruct (extract_loop_total t scale thr extract_fuel map 0 [] Hne)
      as (r & Hr0 & _ & Hle); [unfold maxLoopIterations; lia | reflexivity |].
    rewrite Eraw in Hr0. injection Hr0 as <-.
    unfold maxLoopIterations in Hle. cbn [List.length] in Hle. lia.
  - eapply extract_loop_pushes; [exact Hr | exact Hc | lia | exact Hne | exact Hlen
                                 | constructor | exact Eraw].
Qed.

End Detections.

Section DetectImpl.
Context {E : Externals}.

(** X9. Without grouping, [detect_impl] on an empty vector returns at most
    101 detections, each with a cost strictly below the threshold (so no cost
    is NaN) and with the scale it was called with, in the order of their
    cost, cheapest first. *)
Theorem detect_impl_below_threshold_sorted st t scale uo thr lambda wf wb l :
  detect_impl st t scale [] uo thr lambda wf wb false = Some l ->
  (List.length l <= 101)%nat /\
  Forall (fun d => fltb (m_chamferDist d) (f64_of_f32 thr) = true /\ m_scale d = scale) l /\
  StronglySorted cost_le l.
Proof.
  intros H.
  destruct (detect_impl_pushes st t scale thr
              (fun d => fltb (m_chamferDist d) (f64_of_f32 thr) = true /\ m_scale d = scale))
    with (2 := H) as (raw & -> & Hlen & Hraw).
  { intros x y minVal Hb _ _. now split. }
  pose proof (std_sort_perm Detection_lt raw) as Hperm.
  assert (Hsorted : Forall (fun d => fltb (m_chamferDist d) (f64_of_f32 thr) = true /\
                                     m_scale d = scale) (std_sort Detection_lt raw))
    by (eapply Permutation_Forall; eassumption).
  split; [now rewrite std_sort_length|]. split; [exact Hsorted|].
  rewrite <- (filter_id cost_number (std_sort Detection_lt raw)).
  - apply std_sort_cost_sorted.
  - eapply Forall_impl; [|exact Hsorted]. intros d (Hb & _). unfold cost_number.
    apply fltb_numbers in Hb. now rewrite (proj1 Hb).
Qed.

(** X10. Without grouping, every detection of [detect_impl] has a box of
    the size of the template's distance image, placed inside the query
    image. *)
Theorem detect_impl_boxes_inside_query st t scale uo thr lambda wf wb l :
  0 <= cols (m_distImg t) -> 0 <= rows (m_distImg t) ->
  detect_impl st t scale [] uo thr lambda wf wb false = Some l ->
  Forall (fun d => box_in_query st t (m_boundingBox d)) l.
Proof.
  intros Hcols Hrows H.
  destruct (detect_impl_pushes st t scale thr
              (fun d => box_in_query st t (m_boundingBox d)))
    with (2 := H) as (raw & -> & _ & Hraw).
  { intros x y minVal _ Hx Hy.
    unfold box_in_query, Detection_new, Rect_of_points, Point_add.
    cbn [m_boundingBox pt_x pt_y r_x r_y r_width r_height].
    unfold chamferMapHeight, chamferMapWidth in Hx, Hy.
    repeat split; lia. }
  eapply Permutation_Forall; [apply std_sort_perm | exact Hraw].
Qed.

End DetectImpl.

Lemma detect_impl_below_threshold_sorted_witness :
  exists l,
    detect_impl (E := example_externals) (strip_matcher 12 templateMatching) strip_template
      f32_one [] false (f32_of_int 1) f_zero f32_one f32_one false = Some l /\
    List.length l = 3%nat /\
    Forall (fun d => fltb (m_chamferDist d) (f64_of_f32 (f32_of_int 1)) = true /\
                     m_scale d = f32_one) l /\
    StronglySorted cost_le l.
Proof.
  eexists. split; [vm_compute; reflexivity|]. split; [reflexivity|].
  refine (proj2 (detect_impl_below_threshold_sorted (E := example_externals)
                   (strip_matcher 12 templateMatching) strip_template
                   f32_one false (f32_of_int 1) f_zero f32_one f32_one _ _)).
  vm_compute. reflexivity.
Defined.

Lemma detect_impl_boxes_inside_query_witness :
  exists l,
    detect_impl (E := example_externals) (strip_matcher 12 templateMatching) strip_template
      f32_one [] false (f32_of_int 1) f_zero f32_one f32_one false = Some l /\
    map m_boundingBox l = [mkRect 0 0 2 1; mkRect 5 0 2 1; mkRect 10 0 2 1] /\
    Forall (fun d => box_in_query (strip_matcher 12 templateMatching) strip_template
                       (m_boundingBox d)) l.
Proof.
  eexists. split; [vm_compute; reflexivity|]. split; [reflexivity|].
  apply (detect_impl_boxes_inside_query (E := example_externals)
           (strip_matcher 12 templateMatching) strip_template
           f32_one false (f32_of_int 1) f_zero f32_one f32_one).
  - vm_compute. discriminate.
  - vm_compute. discriminate.
  - vm_compute. reflexivity.
Defined.

(** ** [groupDetections] *)

Lemma absorb_spec (d : Detection_t) (ov : double) (rest : list Detection_t) :
  forall (picked : list bool) (cur : list Detection_t) p c,
    List.length picked = List.length rest ->
    absorb d ov rest picked cur = (p, c) ->
    exists new,
      c = cur ++ new /\ List.length p = List.length rest /\
      Permutation (unpicked rest picked) (new ++ unpicked rest p).
Proof.
  induction rest as [|d2 rest IH]; intros picked cur p c Hlen H.
  - destruct picked; [|discriminate]. cbn [absorb] in H. injection H as <- <-.
    exists []. rewrite app_nil_r. repeat split. constructor.
  - destruct picked as [|pk picked]; [discriminate|]. cbn [List.length] in Hlen.
    injection Hlen as Hlen. cbn [absorb] in H.
    destruct pk; cbn [negb] in H.
    + destruct (absorb d ov rest picked cur) as [p0 c0] eqn:E0. injection H as <- <-.
      destruct (IH picked cur p0 c0 Hlen E0) as (new & -> & Hl & Hp).
      exists new. cbn [unpicked List.length]. repeat split; [now rewrite Hl | exact Hp].
    + destruct (fltb ov _).
      * destruct (absorb d ov rest picked (cur ++ [d2])) as [p0 c0] eqn:E0.
        injection H as <- <-.
        destruct (IH picked (cur ++ [d2]) p0 c0 Hlen E0) as (new & -> & Hl & Hp).
        exists (d2 :: new). cbn [unpicked List.length].
        repeat split; [now rewrite <- app_assoc | now rewrite Hl |].
        cbn [app]. now constructor.
      * destruct (absorb d ov rest picked cur) as [p0 c0] eqn:E0. injection H as <- <-.
        destruct (IH picked cur p0 c0 Hlen E0) as (new & -> & Hl & Hp).
        exists new. cbn [unpicked List.length]. repeat split; [now rewrite Hl|].
        eapply Permutation_trans; [|apply Permutation_middle]. now constructor.
Qed.

Lemma cluster_loop_spec (ov : double) (detections : list Detection_t) :
  forall (picked : list bool) (acc : list (list Detection_t)),
    List.length picked = List.length detections ->
    exists clusters,
      cluster_loop ov detections picked acc = acc ++ clusters /\
      Forall (fun c => exists first rest, c = first :: rest) clusters /\
      Permutation (List.concat clusters) (unpicked detections picked).
Proof.
  induction detections as [|d ds IH]; intros picked acc Hlen.
  - destruct picked; [|discriminate]. exists []. cbn [cluster_loop].
    rewrite app_nil_r. repeat split; constructor.
  - destruct picked as [|pk picked]; [discriminate|]. cbn [List.length] in Hlen.
    injection Hlen as Hlen. cbn [cluster_loop unpicked].
    destruct pk; cbn [negb].
    + apply IH, Hlen.
    + destruct (absorb d ov ds picked [d]) as [p cur] eqn:E0.
      destruct (absorb_spec d ov ds picked [d] p cur Hlen E0) as (new & -> & Hl & Hp).
      destruct (IH p (acc ++ [[d] ++ new]) Hl) as (clusters & -> & Hne & Hperm).
      exists (([d] ++ new) :: clusters). rewrite <- app_assoc. cbn [app List.concat].
      repeat split.
      * constructor; [now exists d, new | exact Hne].
      * constructor. eapply Permutation_trans; [|symmetry; exact Hp].
        now apply Permutation_app_head.
Qed.

Lemma unpicked_none (detections : list Detection_t) :
  unpicked detections (repeat false (List.length detections)) = detections.
Proof.
  induction detections as [|d ds IH]; [reflexivity|].
  cbn [List.length repeat unpicked]. now rewrite IH.
Qed.

Lemma clusters_of_spec (detections : list Detection_t) (ov : double) :
  Forall (fun c => exists first rest, c = first :: rest) (clusters_of detections ov) /\
  Permutation (List.concat (clusters_of detections ov)) detections.
Proof.
  unfold clusters_of.
  destruct (cluster_loop_spec ov detections (repeat false (List.length detections)) [])
    as (clusters & -> & Hne & Hperm); [apply repeat_length|].
  rewrite unpicked_none in Hperm. cbn [app]. now split.
Qed.



(** X11. [groupDetections] appends the detections of its clusters, and the
    clusters partition its input: every detection of the input is a member
    of exactly one cluster, and no cluster is empty. *)
Theorem groupDetections_clusters_partition (detections groupedDetections : list Detection_t)
  (ov : double) :
  groupDetections detections groupedDetections ov
  = groupedDetections ++ flat_map collapse_cluster (clusters_of detections ov) /\
  Permutation (List.concat (clusters_of detections ov)) detections /\
  Forall (fun c => c <> []) (clusters_of detections ov).
Proof.
  split; [reflexivity|].
  destruct (clusters_of_spec detections ov) as [Hne Hperm]. split; [exact Hperm|].
  eapply Forall_impl; [|exact Hne]. intros c (first & rest & ->). discriminate.
Qed.


(** ** [detect] and [detectMultiScale] *)

Lemma for_each_invariant_in {A T : Type} (P : T -> Prop)
  (body : nat -> A -> T -> option T) (l : list A) :
  (forall j a s s', In a l -> P s -> body j a s = Some s' -> P s') ->
  forall j s s', P s -> for_each body l j s = Some s' -> P s'.
Proof.
  induction l as [|a l IH]; intros Hb j s s' HP H; cbn [for_each] in H.
  - now injection H as <-.
  - destruct (body j a s) as [s1|] eqn:E1; [|discriminate].
    eapply IH; [| |exact H].
    + intros j' a' s2 s3 Hin. apply Hb. now right.
    + eapply Hb; [now left | exact HP | exact E1].
Qed.

Lemma map_find_In_float {V : Type} (k : float) (v : V) (m : FloatMap V) :
  map_find fltb k m = Some v -> exists k', In (k', v) m.
Proof.
  induction m as [|[k' v'] m IH]; cbn [map_find]; [discriminate|].
  destruct (key_equiv fltb k k'); intros H.
  - injection H as ->. exists k'. now left.
  - destruct (IH H) as (k0 & Hk0). exists k0. now right.
Qed.

Section DetectLabels.
Context {E : Externals}.

(** X13. Every detection that [detect] returns carries the id of a
    configured template that has an entry at scale 1, with or without
    grouping; the call leaves the templates and their images as they
    were. *)
Theorem detect_labels_configured_templates st img_query uo thr lambda wf wb group l st' :
  detect st img_query uo thr lambda wf wb group = Some (l, st') ->
  m_mapOfTemplate_info st' = m_mapOfTemplate_info st /\
  m_mapOfTemplateImages st' = m_mapOfTemplateImages st /\
  Forall (labelled_at_scale_one st) l.
Proof.
  unfold detect.
  set (st1 := set_query_info (prepareQuery (m_cannyThreshold st) img_query) st).
  change (m_mapOfTemplate_info st1) with (m_mapOfTemplate_info st).
  match goal with
  | |- context [for_each ?b (m_mapOfTemplate_info st) 0%nat []] =>
      destruct (for_each b (m_mapOfTemplate_info st) 0%nat []) as [detections|] eqn:Eloop;
        [|discriminate]
  end.
  intros H. injection H as <- <-. split; [reflexivity|]. split; [reflexivity|].
  eapply Permutation_Forall; [apply std_sort_perm|].
  revert Eloop.
  apply (for_each_invariant_in (Forall (labelled_at_scale_one st))); [|constructor].
  intros j [id scales] s s' Hin Hs Hbody.
  destruct (map_find fltb f32_one scales) as [t|] eqn:Eone;
    [|injection Hbody as <-; exact Hs].
  destruct (detect_impl st1 t f32_one [] uo thr lambda wf wb group) as [all|];
    [|discriminate].
  injection Hbody as <-. apply Forall_app. split; [exact Hs|].
  apply Forall_forall. intros d Hd. apply in_map_iff in Hd as (d0 & <- & _).
  exists scales, t. cbn [set_templateIndex m_templateIndex]. now split.
Qed.

(** X14. Without grouping, every detection that [detectMultiScale] returns
    has a cost below the threshold and carries the id and the scale of an
    entry of the template store; the detections of all templates and scales
    come in one vector in the order of their cost, cheapest first. *)
Theorem detectMultiScale_detections st img_query uo thr lambda wf wb nms l st' :
  detectMultiScale st img_query uo thr lambda wf wb nms false = Some (l, st') ->
  Forall (fun d => fltb (m_chamferDist d) (f64_of_f32 thr) = true /\
                   labelled_with_entry st d) l /\
  StronglySorted cost_le l.
Proof.
  unfold detectMultiScale.
  destruct (MatchingStrategyType_eqb (m_matchingStrategyType st) templatePoseMatching).
  { intros H. injection H as <- <-. split; constructor. }
  set (st1 := set_query_info (prepareQuery (m_cannyThreshold st) img_query) st).
  change (m_mapOfTemplate_info st1) with (m_mapOfTemplate_info st).
  match goal with
  | |- context [for_each ?b (m_mapOfTemplate_info st) 0%nat []] =>
      destruct (for_each b (m_mapOfTemplate_info st) 0%nat []) as [detections|] eqn:Eloop;
        [|discriminate]
  end.
  intros H. injection H as <- <-.
  set (Q := fun d => fltb (m_chamferDist d) (f64_of_f32 thr) = true /\
                     labelled_with_entry st d).
  assert (Hall : Forall Q detections).
  { revert Eloop. apply (for_each_invariant_in (Forall Q)); [|constructor].
    intros j [id scales] s s' Hin Hs Hbody.
    match type of Hbody with
    | context [for_each ?b scales 0%nat []] =>
        destruct (for_each b scales 0%nat []) as [all|] eqn:Einner; [|discriminate]
    end.
    injection Hbody as <-. apply Forall_app. split; [exact Hs|].
    revert Einner. apply (for_each_invariant_in (Forall Q)); [|constructor].
    intros j' [scale t] a a' Hin' Ha Hbody.
    destruct (detect_impl st1 t scale [] uo thr lambda wf wb false) as [cur|] eqn:Ecur;
      [|discriminate].
    injection Hbody as <-. apply Forall_app. split; [exact Ha|].
    destruct (detect_impl_pushes st1 t scale thr
                (fun d => fltb (m_chamferDist d) (f64_of_f32 thr) = true /\ m_scale d = scale))
      with (2 := Ecur) as (raw & -> & _ & Hraw).
    { intros x y minVal Hb _ _. now split. }
    apply Forall_forall. intros d Hd. apply in_map_iff in Hd as (d0 & <- & Hd0).
    apply (Permutation_in _ (Permutation_sym (std_sort_perm Detection_lt raw))) in Hd0.
    rewrite Forall_forall in Hraw. destruct (Hraw d0 Hd0) as [Hb Hscale].
    split; [exact Hb|]. exists scales, t.
    cbn [set_templateIndex m_templateIndex m_scale]. rewrite Hscale. now split. }
  pose proof (std_sort_perm Detection_lt detections) as Hperm.
  assert (Hsorted : Forall Q (std_sort Detection_lt detections))
    by (eapply Permutation_Forall; eassumption).
  split; [exact Hsorted|].
  rewrite <- (filter_id cost_number (std_sort Detection_lt detections)).
  - apply std_sort_cost_sorted.
  - eapply Forall_impl; [|exact Hsorted]. intros d (Hb & _). unfold cost_number.
    apply fltb_numbers in Hb. now rewrite (proj1 Hb).
Qed.

End DetectLabels.

Lemma detect_labels_configured_templates_witness :
  exists l st',
    detect (E := example_externals) (strip_matcher 12 templateMatching) (strip_image 12)
      false (f32_of_int 1) f_zero f32_one f32_one false = Some (l, st') /\
    map m_templateIndex l = [7; 7; 7] /\
    Forall (labelled_at_scale_one (strip_matcher 12 templateMatching)) l.
Proof.
  eexists. eexists. split; [vm_compute; reflexivity|]. split; [reflexivity|].
  refine (proj2 (proj2 (detect_labels_configured_templates (E := example_externals)
                   (strip_matcher 12 templateMatching) (strip_image 12)
                   false (f32_of_int 1) f_zero f32_one f32_one false _ _ _))).
  vm_compute. reflexivity.
Defined.

Lemma detectMultiScale_detections_witness :
  exists l st',
    detectMultiScale (E := example_externals) (strip_matcher 12 templateMatching)
      (strip_image 12) false (f32_of_int 1) f_zero f32_one f32_one true false
    = Some (l, st') /\
    List.length l = 3%nat /\
    Forall (fun d => fltb (m_chamferDist d) (f64_of_f32 (f32_of_int 1)) = true /\
                     labelled_with_entry (strip_matcher 12 templateMatching) d) l /\
    StronglySorted cost_le l.
Proof.
  eexists. eexists. split; [vm_compute; reflexivity|]. split; [reflexivity|].
  refine (detectMultiScale_detections (E := example_externals)
            (strip_matcher 12 templateMatching) (strip_image 12)
            false (f32_of_int 1) f_zero f32_one f32_one true _ _ _).
  vm_compute. reflexivity.
Defined.

(** A loop that only appends keeps what it holds, and what each step
    establishes of the result so far holds of the final result when it is
    kept by appending. *)
Lemma for_each_grows {A B : Type} (Q : A -> list B -> Prop)
  (body : nat -> A -> list B -> option (list B)) (l : list A) :
  (forall j a acc acc', body j a acc = Some acc' -> incl acc acc' /\ Q a acc') ->
  (forall a acc acc', Q a acc -> incl acc acc' -> Q a acc') ->
  forall j acc res,
    for_each body l j acc = Some res ->
    incl acc res /\ forall a, In a l -> Q a res.
Proof.
  intros Hb Hmono. induction l as [|a l IH]; intros j acc res H; cbn [for_each] in H.
  - injection H as <-. split; [apply incl_refl | intros a []].
  - destruct (body j a acc) as [acc1|] eqn:E1; [|discriminate].
    destruct (Hb _ _ _ _ E1) as [Hinc HQ].
    destruct (IH _ _ _ H) as [Hinc' HQ'].
    split; [eapply incl_tran; eassumption|].
    intros a' [<-|Hin]; [eapply Hmono; eassumption | now apply HQ'].
Qed.

Section MultiScale.
Context {E : Externals}.

(** X6. Under the template matching strategy [detectMultiScale] returns
    every detection that [detect_impl] finds for every stored template at
    every stored scale, labelled with the id of the template: none is
    suppressed, whatever the flag [useNonMaximaSuppression] says. *)
Theorem detectMultiScale_returns_every_detection st img_query uo thr lambda wf wb nms group
  l st' :
  m_matchingStrategyType st = templateMatching ->
  detectMultiScale st img_query uo thr lambda wf wb nms group = Some (l, st') ->
  forall id scales scale t cur,
    In (id, scales) (m_mapOfTemplate_info st) -> In (scale, t) scales ->
    detect_impl (set_query_info (prepareQuery (m_cannyThreshold st) img_query) st)
      t scale [] uo thr lambda wf wb group = Some cur ->
    forall d, In d cur -> In (set_templateIndex id d) l.
Proof.
  intros Hstrategy. unfold detectMultiScale. rewrite Hstrategy.
  cbn [MatchingStrategyType_eqb].
  set (st1 := set_query_info (prepareQuery (m_cannyThreshold st) img_query) st).
  change (m_mapOfTemplate_info st1) with (m_mapOfTemplate_info st).
  match goal with
  | |- context [for_each ?b (m_mapOfTemplate_info st) 0%nat []] =>
      destruct (for_each b (m_mapOfTemplate_info st) 0%nat []) as [detections|] eqn:Eloop;
        [|discriminate]
  end.
  intros H. injection H as <- <-.
  intros id scales scale t cur Hid Hscale Hcur d Hd.
  eapply Permutation_in; [apply std_sort_perm|].
  revert Eloop.
  set (Q := fun (entry : Z * FloatMap Template_info_t) (res : list Detection_t) =>
              forall scale t cur,
                In (scale, t) (snd entry) ->
                detect_impl st1 t scale [] uo thr lambda wf wb group = Some cur ->
                incl (map (set_templateIndex (fst entry)) cur) res).
  intros Eloop. apply (for_each_grows Q) in Eloop.
  - destruct Eloop as [_ HQ]. apply (HQ (id, scales) Hid scale t cur Hscale Hcur).
    now apply in_map.
  - clear. intros j [id scales] acc acc' Hbody.
    match type of Hbody with
    | context [for_each ?b scales 0%nat []] =>
        destruct (for_each b scales 0%nat []) as [all|] eqn:Einner; [|discriminate]
    end.
    injection Hbody as <-. split; [now apply incl_appl, incl_refl|].
    set (Q' := fun (entry : float * Template_info_t) (res : list Detection_t) =>
                 forall cur,
                   detect_impl st1 (snd entry) (fst entry) [] uo thr lambda wf wb group
                   = Some cur ->
                   incl (map (set_templateIndex id) cur) res).
    apply (for_each_grows Q') in Einner.
    + destruct Einner as [_ HQ']. intros scale t cur Hin Hcur. cbn [fst snd] in *.
      apply incl_appr. exact (HQ' (scale, t) Hin cur Hcur).
    + clear. intros j' [scale t] acc acc' Hbody.
      destruct (detect_impl st1 t scale [] uo thr lambda wf wb group) as [current|] eqn:Ecur;
        [|discriminate].
      injection Hbody as <-. split; [now apply incl_appl, incl_refl|].
      intros cur Hcur. cbn [fst snd] in Hcur. rewrite Ecur in Hcur. injection Hcur as <-.
      now apply incl_appr, incl_refl.
    + clear. intros entry acc acc' HQ Hinc cur Hcur.
      eapply incl_tran; [exact (HQ cur Hcur) | exact Hinc].
  - clear. intros entry acc acc' HQ Hinc scale t cur Hin Hcur.
    eapply incl_tran; [exact (HQ scale t cur Hin Hcur) | exact Hinc].
Qed.

End MultiScale.

Lemma detectMultiScale_returns_every_detection_witness :
  exists l st' cur,
    detectMultiScale (E := example_externals) (strip_matcher 12 templateMatching)
      (strip_image 12) false (f32_of_int 1) f_zero f32_one f32_one true false
    = Some (l, st') /\
    detect_impl (E := example_externals)
      (set_query_info (flat_query (strip_image 12)) (strip_matcher 12 templateMatching))
      strip_template f32_one [] false (f32_of_int 1) f_zero f32_one f32_one false = Some cur /\
    List.length cur = 3%nat /\
    forall d, In d cur -> In (set_templateIndex 7 d) l.
Proof.
  eexists. eexists. eexists.
  split; [vm_compute; reflexivity|]. split; [vm_compute; reflexivity|].
  split; [reflexivity|].
  eapply (detectMultiScale_returns_every_detection (E := example_externals)
           (strip_matcher 12 templateMatching) (strip_image 12)
           false (f32_of_int 1) f_zero f32_one f32_one true false _ _ eq_refl)
    with (scales := [(f32_one, strip_template)]) (scale := f32_one) (t := strip_template).
  - vm_compute. reflexivity.
  - left. reflexivity.
  - left. reflexivity.
  - vm_compute. reflexivity.
Defined.


(** ** The scale range *)

Lemma fltb_zero_nan (x : spec_float) : is_nan x = true -> fltb f_zero x = false.
Proof. destruct x; simpl; intros H; try discriminate; reflexivity. Qed.

Lemma fleb_fltb_false (x y : spec_float) : fleb x y = true -> fltb y x = false.
Proof.
  unfold fleb, fltb. rewrite (fcompare_antisym x y).
  destruct (fcompare x y) as [[]|]; simpl; congruence.
Qed.

Lemma fltb_fleb_false (x y : spec_float) : fltb x y = true -> fleb y x = false.
Proof.
  unfold fleb, fltb. rewrite (fcompare_antisym x y).
  destruct (fcompare x y) as [[]|]; simpl; congruence.
Qed.

Lemma fleb_nan_l (x y : spec_float) : is_nan x = true -> fleb x y = false.
Proof. destruct x; simpl; intros H; try discriminate; reflexivity. Qed.

Section MapPresence.
Context {K V : Type} (ltb : K -> K -> bool).

(** An assignment removes no key. *)
Lemma map_find_insert_present (k0 k : K) (v : V) (m : list (K * V)) :
  is_some (map_find ltb k0 m) = true ->
  is_some (map_find ltb k0 (map_insert ltb k v m)) = true.
Proof.
  induction m as [|[k' v'] m IH]; cbn [map_find map_insert]; [discriminate|].
  intros H. destruct (ltb k k'); cbn [map_find].
  - destruct (key_equiv ltb k0 k); [reflexivity|].
    destruct (key_equiv ltb k0 k'); [reflexivity | exact H].
  - destruct (ltb k' k); cbn [map_find];
      (destruct (key_equiv ltb k0 k'); [reflexivity|]); [now apply IH | exact H].
Qed.

End MapPresence.

Section ScaleRange.
Context {E : Externals}.

Lemma set_info_has_entry id s v info id0 s0 :
  has_entry info id0 s0 = true -> has_entry (set_info id s v info) id0 s0 = true.
Proof.
  unfold has_entry. intros H.
  destruct (Z.eq_dec id0 id) as [->|Hne].
  - rewrite set_info_find_same. unfold map_get, FloatMap, IntMap in *.
    destruct (map_find Z.ltb id info) as [scales|]; [|discriminate].
    now apply map_find_insert_present.
  - now rewrite set_info_find_other.
Qed.

Lemma scale_sweep_has_entry (fuel : nat) st img id id0 s0 :
  forall scale info info',
    scale_sweep fuel st img id scale info = Some info' ->
    has_entry info id0 s0 = true -> has_entry info' id0 s0 = true.
Proof.
  induction fuel as [|fuel IH]; intros scale info info' H Hin; [discriminate|].
  cbn [scale_sweep] in H.
  destruct (fleb scale (m_scaleMax st)); [|now injection H as <-].
  eapply IH; [exact H|].
  destruct (fltb _ _); [now apply set_info_has_entry | exact Hin].
Qed.

Lemma scale_sweep_absorbed st img id scale :
  fleb scale (m_scaleMax st) = true ->
  f32_add scale (m_scaleStep st) = scale ->
  forall fuel info, scale_sweep fuel st img id scale info = None.
Proof.
  intros Hle Hfix. induction fuel as [|fuel IH]; intros info; [reflexivity|].
  cbn [scale_sweep]. rewrite Hle, Hfix. apply IH.
Qed.

(** X15. [setScale] rejects a range with a bound or a step that is NaN,
    zero or negative, or with a maximum below the minimum: it writes its
    message and changes nothing else, the scale range included. *)
Theorem setScale_rejects_invalid fuel st min max step :
  is_nan min = true \/ is_nan max = true \/ is_nan step = true \/
  fleb min f_zero = true \/ fleb max f_zero = true \/ fleb step f_zero = true \/
  fltb max min = true ->
  setScale fuel st min max step = Some (cerr "Invalid scale parameter !"%string st).
Proof.
  intros H. unfold setScale.
  assert (Hguard : fltb f_zero min && fltb f_zero max && fleb min max && fltb f_zero step
                   = false).
  { destruct H as [H|[H|[H|[H|[H|[H|H]]]]]].
    - now rewrite (fltb_zero_nan _ H).
    - now rewrite (fltb_zero_nan _ H), andb_false_r.
    - now rewrite (fltb_zero_nan _ H), andb_false_r.
    - now rewrite (fleb_fltb_false _ _ H).
    - now rewrite (fleb_fltb_false _ _ H), andb_false_r.
    - now rewrite (fleb_fltb_false _ _ H), andb_false_r.
    - now rewrite (fltb_fleb_false _ _ H), andb_false_r. }
  now rewrite Hguard.
Qed.

(** X16. [setScale] removes nothing: the template images are the same
    afterwards, and every entry of the template store is still there, also
    at a scale outside the new range. *)
Theorem setScale_keeps_entries fuel st min max step st' :
  setScale fuel st min max step = Some st' ->
  m_mapOfTemplateImages st' = m_mapOfTemplateImages st /\
  forall id scale,
    has_entry (m_mapOfTemplate_info st) id scale = true ->
    has_entry (m_mapOfTemplate_info st') id scale = true.
Proof.
  unfold setScale.
  destruct (_ && _); [|intros H; injection H as <-; split; [reflexivity | auto]].
  set (st1 := set_scaleRange min max step st).
  change (m_mapOfTemplate_info st1) with (m_mapOfTemplate_info st).
  apply (for_each_invariant
           (fun s => m_mapOfTemplateImages s = m_mapOfTemplateImages st /\
                     forall id scale,
                       has_entry (m_mapOfTemplate_info st) id scale = true ->
                       has_entry (m_mapOfTemplate_info s) id scale = true)).
  - intros j [id scales] s s' [Himgs Hinfo] Hbody.
    destruct (map_find Z.ltb id (m_mapOfTemplateImages s)) as [img|];
      [|injection Hbody as <-; split; assumption].
    destruct (scale_sweep fuel s img id (m_scaleMin s) (m_mapOfTemplate_info s))
      as [info|] eqn:Esweep; [|discriminate].
    injection Hbody as <-. split; [exact Himgs|].
    intros id0 s0 H0. cbn [set_templates m_mapOfTemplate_info].
    eapply scale_sweep_has_entry; [exact Esweep|]. now apply Hinfo.
  - split; [reflexivity | auto].
Qed.

(** X17. When the step is so small that [scale += m_scaleStep] leaves the
    minimum scale where it is, the sweep of [setScale] over the scales does
    not end: with a stored template and its image, [setScale] does not
    return, whatever the number of iterations it is given. *)
Theorem setScale_step_absorbed st min max step id scales rest img :
  fltb f_zero min && fltb f_zero max && fleb min max && fltb f_zero step = true ->
  f32_add min step = min ->
  m_mapOfTemplate_info st = (id, scales) :: rest ->
  map_find Z.ltb id (m_mapOfTemplateImages st) = Some img ->
  forall fuel, setScale fuel st min max step = None.
Proof.
  intros Hguard Hfix Hinfo Himg fuel. unfold setScale. rewrite Hguard.
  set (st1 := set_scaleRange min max step st).
  change (m_mapOfTemplate_info st1) with (m_mapOfTemplate_info st).
  rewrite Hinfo. cbn [for_each].
  change (m_mapOfTemplateImages st1) with (m_mapOfTemplateImages st). rewrite Himg.
  rewrite scale_sweep_absorbed; [reflexivity | | exact Hfix].
  change (fleb min max = true).
  apply andb_prop in Hguard as [Hguard _]. now apply andb_prop in Hguard as [_ Hguard].
Qed.

(** X18. A file that opens and holds a template count that is zero or
    negative (an empty file reads as zero) makes [loadTemplateData] clear the
    templates of the matcher and load none, without a message; a file that
    does not open leaves the templates as they are. *)
Theorem loadTemplateData_no_template fuel st filename bytes :
  fst (read_int (mkIfstream bytes false)) <= 0 ->
  loadTemplateData fuel st filename (Some bytes) = Some (set_templates [] [] st) /\
  loadTemplateData fuel st filename None
  = Some (cerr ("File: " ++ filename ++ " cannot be opened !")%string st).
Proof.
  intros Hcount. split; [|reflexivity]. unfold loadTemplateData.
  destruct (read_int (mkIfstream bytes false)) as [nbTemplates file]. cbn [fst] in Hcount.
  replace (Z.to_nat nbTemplates) with 0%nat by lia. reflexivity.
Qed.

End ScaleRange.

Lemma setScale_rejects_invalid_witness :
  fltb (f32_of_int 1) (f32_of_int 2) = true /\
  setScale (E := example_externals) 10 gray_matcher (f32_of_int 2) (f32_of_int 1) f32_one
  = Some (cerr "Invalid scale parameter !"%string gray_matcher).
Proof.
  split; [reflexivity|].
  apply (setScale_rejects_invalid (E := example_externals)).
  do 6 right. reflexivity.
Defined.

Lemma setScale_keeps_entries_witness :
  exists st',
    setScale (E := example_externals) 10 gray_matcher
      (SFdiv 24 128 (f32_of_int 3) (f32_of_int 2)) (f32_of_int 2)
      (SFdiv 24 128 (f32_of_int 1) (f32_of_int 2)) = Some st' /\
    List.length (map_get Z.ltb [] 3 (m_mapOfTemplate_info st')) = 3%nat /\
    m_mapOfTemplateImages st' = m_mapOfTemplateImages gray_matcher /\
    forall id scale,
      has_entry (m_mapOfTemplate_info gray_matcher) id scale = true ->
      has_entry (m_mapOfTemplate_info st') id scale = true.
Proof.
  eexists. split; [vm_compute; reflexivity|]. split; [reflexivity|].
  apply (setScale_keeps_entries (E := example_externals) 10 gray_matcher
           (SFdiv 24 128 (f32_of_int 3) (f32_of_int 2)) (f32_of_int 2)
           (SFdiv 24 128 (f32_of_int 1) (f32_of_int 2))).
  vm_compute. reflexivity.
Defined.

Lemma setScale_step_absorbed_witness :
  f32_add f32_one tiny_step = f32_one /\
  forall fuel,
    setScale (E := example_externals) fuel gray_matcher f32_one (f32_of_int 2) tiny_step
    = None.
Proof.
  split; [reflexivity|].
  apply (setScale_step_absorbed (E := example_externals) gray_matcher f32_one (f32_of_int 2)
           tiny_step 3
           [(f32_one, set_templateLocation (mkRect 4 5 2 1)
                        (set_queryROI (mkRect 0 0 8 8) (flat_template gray_image)))]
           [] gray_image); reflexivity.
Defined.

Lemma loadTemplateData_no_template_witness :
  loadTemplateData (E := example_externals) 10 gray_matcher "templates.bin"%string (Some [])
  = Some (set_templates [] [] gray_matcher).
Proof.
  apply (loadTemplateData_no_template (E := example_externals) 10 gray_matcher
           "templates.bin"%string []).
  vm_compute. discriminate.
Defined.

(** ** [setTemplateImages] *)

Lemma app_singleton_neq {A : Type} (l : list A) (a : A) : l ++ [a] <> l.
Proof.
  intros H. apply (f_equal (@List.length A)) in H.
  rewrite length_app in H. cbn [List.length] in H. lia.
Qed.

Section Configure.
Context {E : Externals}.

(** A sweep that ends keeps the entry of the template at scale 1 and touches
    no other template. *)
Lemma scale_sweep_result cur img id (fuel : nat) :
  fltb f_zero (m_scaleStep cur) = true ->
  forall scale info info' scales t,
    scale_sweep fuel cur img id scale info = Some info' ->
    map_find Z.ltb id info = Some scales ->
    Forall is_number scales ->
    map_find fltb f32_one scales = Some t ->
    (exists scales',
       map_find Z.ltb id info' = Some scales' /\ map_find fltb f32_one scales' = Some t) /\
    (forall id', id' <> id -> map_find Z.ltb id' info' = map_find Z.ltb id' info).
Proof.
  intros Hstep. induction fuel as [|fuel IH]; intros scale info info' scales t H Hid Hnum Hone;
    [discriminate|].
  cbn [scale_sweep] in H.
  destruct (fleb scale (m_scaleMax cur)) eqn:Hle.
  - destruct (fltb (m_scaleStep cur) (f32_mul (f32_abs (f32_sub scale f32_one)) f32_100))
      eqn:Hguard.
    + set (v := prepareTemplate _ _ _) in H.
      destruct (IH (f32_add scale (m_scaleStep cur)) (set_info id scale v info) info'
                  (map_insert fltb scale v scales) t H) as [H1 H2].
      * rewrite set_info_find_same. unfold map_get, FloatMap, IntMap in *. now rewrite Hid.
      * apply (map_insert_keys fltb (fun k => is_nan k = false)); [|exact Hnum].
        eapply fleb_not_nan; exact Hle.
      * rewrite (insert_scale_keeps_one (m_scaleStep cur)); trivial.
        eapply fleb_not_nan; exact Hle.
      * split; [exact H1|].
        intros id' Hne. rewrite (H2 id' Hne). now apply set_info_find_other.
    + exact (IH _ _ _ _ _ H Hid Hnum Hone).
  - injection H as <-. split; [now exists scales | reflexivity].
Qed.

Lemma setTemplates_loop_spec (fuel : nat) (rois : IntMap (Rect * Rect)) :
  forall (templates : list (Z * Image)) (cur st' : ChamferMatcher),
    setTemplates_loop fuel rois templates cur = Some st' ->
    std_cerr st' = std_cerr cur ->
    fltb f_zero (m_scaleStep cur) = true ->
    NoDup (map fst templates) ->
    (forall id, In id (map fst templates) ->
       map_find Z.ltb id (m_mapOfTemplate_info cur) = None) ->
    (forall id0, ~ In id0 (map fst templates) ->
       map_find Z.ltb id0 (m_mapOfTemplateImages st')
       = map_find Z.ltb id0 (m_mapOfTemplateImages cur) /\
       map_find Z.ltb id0 (m_mapOfTemplate_info st')
       = map_find Z.ltb id0 (m_mapOfTemplate_info cur)) /\
    (forall id img, In (id, img) templates -> template_configured cur st' rois id img).
Proof.
  induction templates as [|[id img] templates IH]; intros cur st' H Hok Hstep Hnodup Hfresh.
  { cbn [setTemplates_loop] in H. injection H as <-.
    split; [intros; split; reflexivity | intros id img []]. }
  cbn [setTemplates_loop] in H.
  destruct (map_find Z.ltb id rois) as [[location roi]|] eqn:Eroi.
  2:{ injection H as <-. cbn [cerr std_cerr] in Hok.
      now apply app_singleton_neq in Hok. }
  set (T0 := prepareTemplate (m_cannyThreshold cur) (m_gridDescriptorSize cur) img) in *.
  set (imgs1 := map_insert Z.ltb id img (m_mapOfTemplateImages cur)) in *.
  set (info1 := set_info id f32_one T0 (m_mapOfTemplate_info cur)) in *.
  assert (Hfind0 : map_find Z.ltb id (m_mapOfTemplate_info cur) = None)
    by (apply Hfresh; now left).
  assert (Hfind1 : map_find Z.ltb id info1 = Some [(f32_one, T0)]).
  { unfold info1. rewrite set_info_find_same. unfold map_get, FloatMap, IntMap in *. now rewrite Hfind0. }
  assert (Hget1 : get_info id f32_one info1 = T0).
  { unfold get_info, map_get, FloatMap, IntMap in *. now rewrite Hfind1. }
  rewrite Hget1 in H.
  set (info2 := set_info id f32_one (set_templateLocation location T0) info1) in *.
  assert (Hfind2 : map_find Z.ltb id info2
                   = Some [(f32_one, set_templateLocation location T0)]).
  { unfold info2. rewrite set_info_find_same. unfold map_get, FloatMap, IntMap in *. now rewrite Hfind1. }
  assert (Hget2 : get_info id f32_one info2 = set_templateLocation location T0).
  { unfold get_info, map_get, FloatMap, IntMap in *. now rewrite Hfind2. }
  rewrite Hget2 in H.
  set (T2 := set_queryROI roi (set_templateLocation location T0)) in *.
  set (info3 := set_info id f32_one T2 info2) in *.
  assert (Hfind3 : map_find Z.ltb id info3 = Some [(f32_one, T2)]).
  { unfold info3. rewrite set_info_find_same. unfold map_get, FloatMap, IntMap in *. now rewrite Hfind2. }
  destruct (scale_sweep fuel cur img id (m_scaleMin cur) info3) as [info4|] eqn:Esweep;
    [|discriminate].
  destruct (scale_sweep_result cur img id fuel Hstep _ _ _ _ T2 Esweep Hfind3)
    as [(scales' & Hfind4 & Hone4) Hothers4]; [repeat constructor | reflexivity |].
  assert (Hothers : forall id', id' <> id ->
            map_find Z.ltb id' info4 = map_find Z.ltb id' (m_mapOfTemplate_info cur)).
  { intros id' Hne. rewrite (Hothers4 id' Hne). unfold info3, info2, info1.
    now rewrite !set_info_find_other. }
  cbn [map fst] in Hnodup. inversion Hnodup as [|? ? Hnotin Hnodup']; subst.
  destruct (IH (set_templates info4 imgs1 cur) st' H) as [Hframe Hpost]; trivial.
  { intros id' Hin'. cbn [set_templates m_mapOfTemplate_info].
    rewrite Hothers; [apply Hfresh; now right|]. intros ->. contradiction. }
  cbn [set_templates m_mapOfTemplate_info m_mapOfTemplateImages] in Hframe.
  split.
  - intros id0 Hnot. cbn [map fst In] in Hnot.
    assert (Hne : id0 <> id) by (intros ->; apply Hnot; now left).
    destruct (Hframe id0) as [Hf1 Hf2]; [intros Hin; apply Hnot; now right|].
    rewrite Hf1, Hf2. split; [now apply IntMap_find_insert_other | now apply Hothers].
  - intros id1 img1 [Heq|Hin].
    + injection Heq as <- <-. destruct (Hframe id Hnotin) as [Hf1 Hf2].
      exists location, roi, scales'. repeat split; trivial.
      * rewrite Hf1. apply IntMap_find_insert_same.
      * now rewrite Hf2.
    + exact (Hpost id1 img1 Hin).
Qed.

(** X19. When [setTemplateImages] returns without a message, every template
    it was given is configured: its image is stored under its id, and its
    entry at scale 1 holds the data derived from the image together with the
    template location and the query region that the ROI map gives for the
    id.  (The ids of a [std::map] are distinct; the step of the scale range
    is positive.) *)
Theorem setTemplateImages_configures fuel st mapOfTemplateImages mapOfTemplateRois st' :
  setTemplateImages fuel st mapOfTemplateImages mapOfTemplateRois = Some st' ->
  std_cerr st' = std_cerr st ->
  fltb f_zero (m_scaleStep st) = true ->
  NoDup (map fst mapOfTemplateImages) ->
  forall id img, In (id, img) mapOfTemplateImages ->
    template_configured st st' mapOfTemplateRois id img.
Proof.
  unfold setTemplateImages. intros H Hok Hstep Hnodup.
  destruct (negb _).
  { injection H as <-. cbn [cerr std_cerr set_templates] in Hok.
    now apply app_singleton_neq in Hok. }
  destruct (setTemplates_loop_spec fuel mapOfTemplateRois mapOfTemplateImages
              (set_templates [] [] st) st' H Hok Hstep Hnodup) as [_ Hpost].
  - intros id _. reflexivity.
  - exact Hpost.
Qed.

End Configure.

Lemma setTemplateImages_configures_witness :
  exists st',
    setTemplateImages (E := example_externals) 30 gray_matcher two_images two_rois = Some st' /\
    template_configured (E := example_externals) gray_matcher st' two_rois 2
      (mkImage 1 2 1 [Byte.x02; Byte.x03]).
Proof.
  eexists. split; [vm_compute; reflexivity|].
  apply (setTemplateImages_configures (E := example_externals) 30 gray_matcher two_images
           two_rois).
  - vm_compute. reflexivity.
  - reflexivity.
  - reflexivity.
  - repeat constructor; cbn [In]; intuition discriminate.
  - right. left. reflexivity.
Defined.


(** ** Contours and their orientations *)

(** X20. [filterSingleContourPoint] keeps exactly the contours of at least
    [min] points, in the order they came in; filtering again changes
    nothing. *)
Theorem filterSingleContourPoint_keeps_long (contours : list (list Point)) (min : nat) :
  filterSingleContourPoint contours min
  = filter (fun c => (min <=? List.length c)%nat) contours /\
  Forall (fun c => (min <= List.length c)%nat) (filterSingleContourPoint contours min) /\
  filterSingleContourPoint (filterSingleContourPoint contours min) min
  = filterSingleContourPoint contours min.
Proof.
  assert (Hfilter : forall l, filterSingleContourPoint l min
                              = filter (fun c => (min <=? List.length c)%nat) l)
    by (intros l; exact (push_if_filter _ l [])).
  split; [apply Hfilter|]. split.
  - rewrite Hfilter. eapply Forall_impl; [|apply filter_all].
    intros c Hc. now apply Nat.leb_le.
  - rewrite !Hfilter. apply filter_id, filter_all.
Qed.

Lemma nth_error_defined {A : Type} (l : list A) (n : nat) :
  (n < List.length l)%nat -> exists a, nth_error l n = Some a.
Proof.
  intros H. destruct (nth_error l n) as [a|] eqn:E0; [now exists a|].
  apply nth_error_None in E0. lia.
Qed.

Lemma for_each_cons {A T : Type} (body : nat -> A -> T -> option T) (a : A) (l : list A)
  (j : nat) (s : T) :
  for_each body (a :: l) j s
  = match body j a s with Some s' => for_each body l (S j) s' | None => None end.
Proof. reflexivity. Qed.

Section Orientations.
Variable getPolarLineEquation : Point -> Point -> double * double.

(** From the third point on, every step of the loop over a contour reads
    inside the contour and pushes one orientation. *)
Lemma orientation_loop_total (it_contour : list Point) :
  forall (rest : list Point) (k : nat) (orientations : list float),
    (2 <= k)%nat -> (k + List.length rest = List.length it_contour)%nat ->
    List.length orientations = k ->
    exists orientations',
      for_each (fun k _ orientations =>
                  orientation_step getPolarLineEquation it_contour k orientations)
        rest k orientations = Some orientations' /\
      List.length orientations' = List.length it_contour.
Proof.
  induction rest as [|p rest IH]; intros k o Hk Hn Ho; cbn [for_each].
  - exists o. split; [reflexivity|]. cbn [List.length] in Hn. lia.
  - cbn [List.length] in Hn.
    assert (Hstep : exists o1, orientation_step getPolarLineEquation it_contour k o = Some o1 /\
                               List.length o1 = S k).
    { unfold orientation_step.
      destruct (Nat.eqb_spec k 1) as [->|_]; [lia|].
      destruct (Nat.eqb_spec k (List.length it_contour - 1)) as [Hlast|Hmid].
      - destruct (nth_error_defined it_contour (List.length it_contour - 2)) as (a & ->);
          [lia|].
        destruct (nth_error_defined it_contour 0) as (b & ->); [lia|].
        destruct (getPolarLineEquation a b) as [angle rho].
        destruct (nth_error_defined o (List.length o - 1)) as (c & ->); [lia|].
        eexists. split; [reflexivity|]. rewrite length_app. cbn [List.length]. lia.
      - destruct (nth_error_defined it_contour (k - 1)) as (a & ->); [lia|].
        destruct (nth_error_defined it_contour (k + 1)) as (b & ->); [lia|].
        destruct (getPolarLineEquation a b) as [angle rho].
        eexists. split; [reflexivity|]. rewrite length_app. cbn [List.length]. lia. }
    destruct Hstep as (o1 & -> & Ho1).
    apply IH; lia.
Qed.

Lemma contour_orientations_total (st : ChamferMatcher) (it_contour : list Point) :
  exists orientations st',
    contour_orientations getPolarLineEquation st it_contour = Some (orientations, st') /\
    List.length orientations = List.length it_contour.
Proof.
  unfold contour_orientations.
  destruct (Nat.ltb_spec 2 (List.length it_contour)) as [Hlong|Hshort].
  - destruct it_contour as [|p0 [|p1 [|p2 more]]]; cbn [List.length] in Hlong; try lia.
    cbn [tl]. rewrite for_each_cons. cbn beta. unfold orientation_step at 1.
    cbn [Nat.eqb nth_error Nat.sub Nat.add].
    destruct (getPolarLineEquation p0 p2) as [angle rho]. cbn [app].
    destruct (orientation_loop_total (p0 :: p1 :: p2 :: more) (p2 :: more) 2
                [f32_of_f64 angle; f32_of_f64 angle]) as (o & -> & Ho);
      [lia | reflexivity | reflexivity |].
    exists o, st. now split.
  - clear Hshort.
    assert (H : forall l j acc s,
              exists acc' s',
                for_each (fun (_ : nat) (_ : Point) '(orientations, st) =>
                            Some (orientations ++ [f_zero],
                                  cerr "Not enough contour points !"%string st))
                  l j (acc, s) = Some (acc', s') /\
                List.length acc' = (List.length acc + List.length l)%nat).
    { induction l as [|p l IH]; intros j acc s; cbn [for_each].
      - exists acc, s. split; [reflexivity|]. cbn [List.length]. lia.
      - destruct (IH (S j) (acc ++ [f_zero]) (cerr "Not enough contour points !"%string s))
          as (acc' & s' & -> & Hl).
        exists acc', s'. split; [reflexivity|].
        rewrite Hl, length_app. cbn [List.length]. lia. }
    destruct (H it_contour 0%nat [] st) as (o & st' & -> & Ho).
    exists o, st'. now split.
Qed.

(** X21. [getContoursOrientation] always returns, and it pushes one vector
    of orientations for every contour, with one orientation for every point
    of the contour: the orientation of the point [j] of the contour [i] is
    there to be read at [[i][j]]. *)
Theorem getContoursOrientation_one_per_point (st : ChamferMatcher)
  (contours : list (list Point)) (contoursOrientation : list (list float)) :
  exists new st',
    getContoursOrientation getPolarLineEquation st contours contoursOrientation
    = Some (contoursOrientation ++ new, st') /\
    map (@List.length float) new = map (@List.length Point) contours.
Proof.
  unfold getContoursOrientation. generalize 0%nat.
  revert st contoursOrientation.
  induction contours as [|c contours IH]; intros st acc j; cbn [for_each].
  - exists [], st. now rewrite app_nil_r.
  - destruct (contour_orientations_total st c) as (o & st1 & -> & Ho).
    destruct (IH st1 (acc ++ [o]) (S j)) as (new & st' & -> & Hnew).
    exists (o :: new), st'. rewrite <- app_assoc. split; [reflexivity|].
    cbn [map]. now rewrite Ho, Hnew.
Qed.

End Orientations.

Section OrientationValues.
Variable getPolarLineEquation : Point -> Point -> double * double.

Lemma orientation_loop_values (it_contour : list Point) :
  forall (rest : list Point) (k : nat) (orientations : list float),
    (2 <= k)%nat -> (k + List.length rest = List.length it_contour)%nat ->
    List.length orientations = k ->
    exists new,
      for_each (fun k _ orientations =>
                  orientation_step getPolarLineEquation it_contour k orientations)
        rest k orientations = Some (orientations ++ new) /\
      List.length new = List.length rest /\
      (forall i, (k + i < List.length it_contour - 1)%nat ->
         nth_error new i = neighbour_angle getPolarLineEquation it_contour (k + i)) /\
      (rest <> [] ->
         nth_error (orientations ++ new) (List.length it_contour - 1)
         = nth_error (orientations ++ new) (List.length it_contour - 2)).
Proof.
  induction rest as [|p rest IH]; intros k o Hk Hn Ho; cbn [for_each].
  - exists []. rewrite app_nil_r. repeat split; try congruence.
    intros i Hi. cbn [List.length] in Hn. lia.
  - cbn [List.length] in Hn.
    assert (Hstep : exists x,
              orientation_step getPolarLineEquation it_contour k o = Some (o ++ [x]) /\
              ((k < List.length it_contour - 1)%nat ->
                 Some x = neighbour_angle getPolarLineEquation it_contour k) /\
              (k = (List.length it_contour - 1)%nat ->
                 nth_error o (k - 1) = Some x)).
    { unfold orientation_step, neighbour_angle.
      destruct (Nat.eqb_spec k 1) as [->|_]; [lia|].
      destruct (Nat.eqb_spec k (List.length it_contour - 1)) as [Hlast|Hmid].
      - destruct (nth_error_defined it_contour (List.length it_contour - 2)) as (a & ->);
          [lia|].
        destruct (nth_error_defined it_contour 0) as (b & ->); [lia|].
        destruct (getPolarLineEquation a b) as [angle rho].
        destruct (nth_error_defined o (List.length o - 1)) as (c & Hc); [lia|].
        rewrite Hc. exists c. split; [reflexivity|]. split; [lia|].
        intros _. now rewrite <- Ho.
      - destruct (nth_error_defined it_contour (k - 1)) as (a & ->); [lia|].
        destruct (nth_error_defined it_contour (k + 1)) as (b & ->); [lia|].
        destruct (getPolarLineEquation a b) as [angle rho]. cbn [fst].
        exists (f32_of_f64 angle). split; [reflexivity|]. split; [reflexivity | lia]. }
    destruct Hstep as (x & -> & Hmid & Hlast).
    destruct (IH (S k) (o ++ [x])) as (new & -> & Hlen & Hvals & Hend);
      [lia | lia | rewrite length_app; cbn [List.length]; lia |].
    exists (x :: new). rewrite <- app_assoc. cbn [app]. split; [reflexivity|].
    split; [cbn [List.length]; now rewrite Hlen|]. split.
    + intros [|i] Hi; cbn [nth_error].
      * rewrite Nat.add_0_r in *. now apply Hmid.
      * rewrite (Hvals i) by lia. f_equal. lia.
    + intros _. destruct rest as [|p' rest].
      * cbn [List.length] in Hn, Hlen. destruct new; [|discriminate].
        assert (Hk1 : k = (List.length it_contour - 1)%nat) by lia.
        rewrite <- Hk1.
        replace (List.length it_contour - 2)%nat with (k - 1)%nat by lia.
        rewrite nth_error_app2 by lia. rewrite nth_error_app1 by lia.
        replace (k - List.length o)%nat with 0%nat by lia. cbn [nth_error].
        symmetry. now apply Hlast.
      * rewrite <- app_assoc in Hend. cbn [app] in Hend. apply Hend. discriminate.
Qed.

(** X22. For a contour of more than two points [getContoursOrientation]
    writes no message; the first point has the orientation of the second,
    every point between the second and the last one has the angle of the
    line through its two neighbours, and the last point repeats the
    orientation of the point before it (the angle the code computes for the
    last point is not used). *)
Theorem contour_orientations_values (st : ChamferMatcher) (it_contour : list Point)
  (orientations : list float) (st' : ChamferMatcher) :
  (2 < List.length it_contour)%nat ->
  contour_orientations getPolarLineEquation st it_contour = Some (orientations, st') ->
  st' = st /\
  nth_error orientations 0 = neighbour_angle getPolarLineEquation it_contour 1 /\
  (forall k, (1 <= k < List.length it_contour - 1)%nat ->
     nth_error orientations k = neighbour_angle getPolarLineEquation it_contour k) /\
  nth_error orientations (List.length it_contour - 1)
  = nth_error orientations (List.length it_contour - 2).
Proof.
  intros Hlong. unfold contour_orientations.
  destruct (Nat.ltb_spec 2 (List.length it_contour)) as [_|Hshort]; [|lia].
  destruct it_contour as [|p0 [|p1 [|p2 more]]]; cbn [List.length] in Hlong; try lia.
  cbn [tl]. rewrite for_each_cons. cbn beta. unfold orientation_step at 1.
  cbn [Nat.eqb nth_error Nat.sub Nat.add].
  destruct (getPolarLineEquation p0 p2) as [angle rho] eqn:Eangle. cbn [app].
  destruct (orientation_loop_values (p0 :: p1 :: p2 :: more) (p2 :: more) 2
              [f32_of_f64 angle; f32_of_f64 angle])
    as (new & -> & Hlen & Hvals & Hend); [lia | reflexivity | reflexivity |].
  intros H. injection H as <- <-. split; [reflexivity|].
  assert (Hone : neighbour_angle getPolarLineEquation (p0 :: p1 :: p2 :: more) 1
                 = Some (f32_of_f64 angle))
    by (unfold neighbour_angle; cbn [Nat.sub Nat.add nth_error]; now rewrite Eangle).
  split; [now rewrite Hone|]. split.
  - intros k Hk. destruct k as [|[|k]]; [lia | now rewrite Hone |].
    cbn [app nth_error]. rewrite (Hvals k) by (cbn [List.length] in *; lia).
    reflexivity.
  - apply Hend. discriminate.
Qed.


End OrientationValues.

Lemma contour_orientations_values_witness :
  exists orientations,
    contour_orientations example_polar ChamferMatcher_new example_contour
    = Some (orientations, ChamferMatcher_new) /\
    orientations = floats [3; 3; 5; 5] /\
    nth_error orientations (List.length example_contour - 1)
    = nth_error orientations (List.length example_contour - 2).
Proof.
  eexists. split; [vm_compute; reflexivity|]. split; [reflexivity|].
  refine (proj2 (proj2 (proj2
            (contour_orientations_values example_polar ChamferMatcher_new example_contour
               _ ChamferMatcher_new _ _)))).
  - cbn [example_contour List.length]. lia.
  - vm_compute. reflexivity.
Defined.


(** ** [computeEdgeMapIndex] *)

(** A loop over a vector with its index: what each step establishes of its
    element, under an invariant, holds at the end when the later steps keep
    it. *)
Lemma for_each_indexed_from {A T : Type} (P : T -> Prop) (Q : A -> T -> Prop)
  (body : nat -> A -> T -> option T) (l : list A) :
  forall (j0 : nat) (done : list A) (s s' : T),
    (forall k a s s', nth_error l k = Some a -> P s ->
                      body (j0 + k)%nat a s = Some s' -> P s' /\ Q a s') ->
    (forall k a b s s', nth_error l k = Some a -> P s -> Q b s ->
                        body (j0 + k)%nat a s = Some s' -> Q b s') ->
    P s -> (forall b, In b done -> Q b s) ->
    for_each body l j0 s = Some s' ->
    P s' /\ forall b, In b (done ++ l) -> Q b s'.
Proof.
  induction l as [|a l IH]; intros j0 done s s' Hest Hkeep HP Hdone H; cbn [for_each] in H.
  - injection H as <-. rewrite app_nil_r. now split.
  - destruct (body j0 a s) as [s1|] eqn:E1; [|discriminate].
    assert (E1' : body (j0 + 0)%nat a s = Some s1) by (now rewrite Nat.add_0_r).
    destruct (Hest 0%nat a s s1 eq_refl HP E1') as [HP1 HQ1].
    destruct (IH (S j0) (done ++ [a]) s1 s') as [HP' HQ']; trivial.
    + intros k a' s2 s3 Hnth.
      replace (S j0 + k)%nat with (j0 + S k)%nat by lia. now apply Hest.
    + intros k a' b s2 s3 Hnth.
      replace (S j0 + k)%nat with (j0 + S k)%nat by lia. now apply Hkeep.
    + intros b Hb. apply in_app_or in Hb as [Hb|[<-|[]]]; [|exact HQ1].
      exact (Hkeep 0%nat a b s s1 eq_refl HP (Hdone b Hb) E1').
    + split; [exact HP'|]. intros b Hb. apply HQ'.
      rewrite <- app_assoc. exact Hb.
Qed.

Lemma for_each_indexed {A T : Type} (P : T -> Prop) (Q : A -> T -> Prop)
  (body : nat -> A -> T -> option T) (l : list A) (s s' : T) :
  (forall k a s s', nth_error l k = Some a -> P s ->
                    body k a s = Some s' -> P s' /\ Q a s') ->
  (forall k a b s s', nth_error l k = Some a -> P s -> Q b s ->
                      body k a s = Some s' -> Q b s') ->
  P s -> for_each body l 0%nat s = Some s' ->
  P s' /\ forall b, In b l -> Q b s'.
Proof.
  intros Hest Hkeep HP H.
  exact (for_each_indexed_from P Q body l 0%nat [] s s' Hest Hkeep HP (fun b Hb => match Hb with end) H).
Qed.

Lemma IntMap_insert_present {V : Type} (k0 k : Z) (v : V) (m : IntMap V) :
  is_some (map_find Z.ltb k0 m) = true ->
  is_some (map_find Z.ltb k0 (map_insert Z.ltb k v m)) = true.
Proof. apply map_find_insert_present. Qed.

Section EdgeMapIndex.
Variables (contours : list (list Point)) (labels : Mat Z).

(** Every entry of the map indexes a contour point under its label. *)
Let entries_sound (m : IntMap (Z * Z)) : Prop :=
  forall label idx, map_find Z.ltb label m = Some idx ->
                    indexes_contour_point contours labels label idx.

(** The label under the point is a key of the map. *)
Let covered (pt : Point) (m : IntMap (Z * Z)) : Prop :=
  exists label, Mat_ptr labels (pt_y pt) (pt_x pt) = Some label /\
                is_some (map_find Z.ltb label m) = true.

Lemma computeEdgeMapIndex_spec (mapOfIndex m : IntMap (Z * Z)) :
  entries_sound mapOfIndex ->
  computeEdgeMapIndex contours labels mapOfIndex = Some m ->
  entries_sound m /\
  forall contour pt, In contour contours -> In pt contour -> covered pt m.
Proof.
  unfold computeEdgeMapIndex. intros Hsound H.
  apply (for_each_indexed entries_sound
           (fun contour m => forall pt, In pt contour -> covered pt m)) in H; trivial.
  - destruct H as [H1 H2]. split; [exact H1|]. intros contour pt Hc Hp. now apply (H2 contour).
  - intros i contour s s' Hnth HP Hinner.
    apply (for_each_indexed entries_sound (fun pt m => covered pt m)) in Hinner; trivial.
    + intros j pt s1 s2 Hnthj HP1 Hbody.
      destruct (Mat_ptr labels (pt_y pt) (pt_x pt)) as [label|] eqn:Elabel; [|discriminate].
      injection Hbody as <-. split.
      * intros label0 idx Hfind. destruct (Z.eq_dec label0 label) as [->|Hne].
        -- rewrite IntMap_find_insert_same in Hfind. injection Hfind as <-.
           exists i, j, pt. unfold vec2. rewrite Hnth. now repeat split.
        -- rewrite IntMap_find_insert_other in Hfind by exact Hne. now apply HP1.
      * exists label. split; [exact Elabel|]. now rewrite IntMap_find_insert_same.
    + intros j pt pt' s1 s2 Hnthj HP1 (label' & Hl' & Hs') Hbody.
      destruct (Mat_ptr labels (pt_y pt) (pt_x pt)) as [label|]; [|discriminate].
      injection Hbody as <-. exists label'. split; [exact Hl'|].
      now apply IntMap_insert_present.
  - intros i contour contour' s s' Hnth HP HQ Hinner pt Hpt.
    destruct (HQ pt Hpt) as (label' & Hl' & Hs').
    exists label'. split; [exact Hl'|].
    revert Hinner.
    apply (for_each_invariant (fun m => is_some (map_find Z.ltb label' m) = true)); trivial.
    intros j p s1 s2 Hs1 Hbody.
    destruct (Mat_ptr labels (pt_y p) (pt_x p)) as [label|]; [|discriminate].
    injection Hbody as <-. now apply IntMap_insert_present.
Qed.

(** X24. In the map that [computeEdgeMapIndex] builds from the empty map,
    every key is the label under a contour point, mapped to the indexes of
    such a point; and the label under every contour point is a key of the
    map, so that the point of a label is found from any pixel that carries
    the label. *)
Theorem computeEdgeMapIndex_labels_to_points (m : IntMap (Z * Z)) :
  computeEdgeMapIndex contours labels [] = Some m ->
  (forall label idx, map_find Z.ltb label m = Some idx ->
     indexes_contour_point contours labels label idx) /\
  (forall i j pt, vec2 contours i j = Some pt ->
     exists label idx,
       Mat_ptr labels (pt_y pt) (pt_x pt) = Some label /\
       map_find Z.ltb label m = Some idx /\
       indexes_contour_point contours labels label idx).
Proof.
  intros H. destruct (computeEdgeMapIndex_spec [] m) as [Hsound Hcovered]; trivial.
  { intros label idx Hfind. discriminate. }
  split; [exact Hsound|].
  intros i j pt Hvec. unfold vec2 in Hvec.
  destruct (nth_error contours i) as [contour|] eqn:Ei; [|discriminate].
  destruct (Hcovered contour pt) as (label & Hlabel & Hsome);
    [eapply nth_error_In; eassumption | eapply nth_error_In; eassumption |].
  destruct (map_find Z.ltb label m) as [idx|] eqn:Efind; [|discriminate].
  exists label, idx. repeat split; trivial. now apply Hsound.
Qed.

End EdgeMapIndex.

Lemma computeEdgeMapIndex_labels_to_points_witness :
  exists m,
    computeEdgeMapIndex [example_contour] (mkMat 1 7 [4; 4; 5; 5; 5; 6; 6]) [] = Some m /\
    m = [(4, (0, 1)); (5, (0, 2)); (6, (0, 3))] /\
    forall label idx, map_find Z.ltb label m = Some idx ->
      indexes_contour_point [example_contour] (mkMat 1 7 [4; 4; 5; 5; 5; 6; 6]) label idx.
Proof.
  eexists. split; [vm_compute; reflexivity|]. split; [reflexivity|].
  refine (proj1 (computeEdgeMapIndex_labels_to_points [example_contour]
                   (mkMat 1 7 [4; 4; 5; 5; 5; 6; 6]) _ _)).
  vm_compute. reflexivity.
Defined.

(** ** [createMapOfEdgeOrientations] *)

Lemma for_range_unit (n : Z) :
  for_range 0 n 1 = Some (map Z.of_nat (seq 0 (Z.to_nat n))).
Proof.
  unfold for_range. destruct (Z.leb_spec n 0) as [Hn|Hn].
  - replace (Z.to_nat n) with 0%nat by lia. reflexivity.
  - cbn [Z.leb Z.compare]. f_equal.
    replace ((n - 0 + 1 - 1) / 1) with n by (rewrite Z.div_1_r; lia).
    apply map_ext. intros k. lia.
Qed.

Lemma grid_cells_unit (R C y x : Z) :
  In (y, x) (grid_cells 0 R 1 0 C 1) <-> 0 <= y < R /\ 0 <= x < C.
Proof.
  unfold grid_cells. rewrite !for_range_unit. rewrite in_prod_iff, !in_map_iff.
  split.
  - intros [(i & <- & Hi) (j & <- & Hj)]. apply in_seq in Hi, Hj. lia.
  - intros [Hy Hx]. split.
    + exists (Z.to_nat y). split; [lia|]. apply in_seq. lia.
    + exists (Z.to_nat x). split; [lia|]. apply in_seq. lia.
Qed.

Lemma cell_index_inj (C y x y' x' : Z) :
  0 <= x < C -> 0 <= x' < C -> y' * C + x' = y * C + x -> y' = y /\ x' = x.
Proof.
  intros Hx Hx' Heq.
  assert (Hy : y' = y) by (destruct (Z.lt_trichotomy y' y) as [H|[H|H]]; [nia | exact H | nia]).
  subst y'. split; [reflexivity | lia].
Qed.

(** A loop whose steps establish a property of the element they visit and
    keep the property of the elements of the vector, under an invariant. *)
Lemma for_each_establish_in {A T : Type} (P : T -> Prop) (Q : A -> T -> Prop)
  (body : nat -> A -> T -> option T) (l : list A) (s s' : T) :
  (forall k a s s', In a l -> P s -> body k a s = Some s' -> P s' /\ Q a s') ->
  (forall k a b s s', In a l -> In b l -> P s -> Q b s ->
                      body k a s = Some s' -> Q b s') ->
  P s -> for_each body l 0%nat s = Some s' ->
  P s' /\ forall b, In b l -> Q b s'.
Proof.
  intros Hest Hkeep HP H.
  destruct (for_each_indexed P (fun b s => In b l -> Q b s) body l s s') as [HP' HQ'];
    trivial.
  - intros k a s1 s2 Hnth HP1 Hbody. apply nth_error_In in Hnth.
    destruct (Hest k a s1 s2 Hnth HP1 Hbody) as [H1 H2]. now split.
  - intros k a b s1 s2 Hnth HP1 HQ1 Hbody Hb. apply nth_error_In in Hnth.
    exact (Hkeep k a b s1 s2 Hnth Hb HP1 (HQ1 Hb) Hbody).
  - split; [exact HP'|]. intros b Hb. now apply HQ'.
Qed.

Lemma map_at_get {V : Type} (d : V) (k : Z) (m : IntMap V) :
  fst (map_at d k m) = map_get Z.ltb d k m /\
  forall k', map_get Z.ltb d k' (snd (map_at d k m)) = map_get Z.ltb d k' m.
Proof.
  unfold map_at, map_get.
  destruct (map_find Z.ltb k m) as [v|] eqn:Efind; cbn [fst snd]; [now split|].
  split; [reflexivity|]. intros k'. destruct (Z.eq_dec k' k) as [->|Hne].
  - now rewrite IntMap_find_insert_same, Efind.
  - now rewrite IntMap_find_insert_other.
Qed.

Section OrientationMap.
Variables (labels : Mat Z) (edges_orientation : list (list float)).
Variables (R C : Z) (mapOfIndex : IntMap (Z * Z)).

(** The state of the double loop: the map gives every label the indexes it
    gave at the start, and the orientation map has its shape. *)
Let loop_invariant (s : IntMap (Z * Z) * Mat float) : Prop :=
  (forall k, map_get Z.ltb (0, 0) k (fst s) = map_get Z.ltb (0, 0) k mapOfIndex) /\
  rows (snd s) = R /\ cols (snd s) = C.

Let cell_written (yx : Z * Z) (s : IntMap (Z * Z) * Mat float) : Prop :=
  exists o,
    pixel_orientation labels mapOfIndex edges_orientation (fst yx) (snd yx) = Some o /\
    Mat_ptr (snd s) (fst yx) (snd yx) = Some o.

Lemma edge_orientation_cell_step (y x : Z) (s s' : IntMap (Z * Z) * Mat float) :
  loop_invariant s ->
  edge_orientation_cell labels edges_orientation y x s = Some s' ->
  loop_invariant s' /\
  exists o,
    pixel_orientation labels mapOfIndex edges_orientation y x = Some o /\
    Mat_set (snd s) y x o = Some (snd s').
Proof.
  destruct s as [m out]. unfold edge_orientation_cell, pixel_orientation, loop_invariant.
  cbn [fst snd]. intros (Hmap & Hr & Hc).
  destruct (Mat_ptr labels y x) as [label|]; [|discriminate].
  destruct (map_at_get (0, 0) label m) as [Hget1 Hkeep1].
  destruct (map_at (0, 0) label m) as [idx m1]. cbn [fst snd] in Hget1, Hkeep1.
  destruct (map_at_get (0, 0) label m1) as [Hget2 Hkeep2].
  destruct (map_at (0, 0) label m1) as [idx' m2]. cbn [fst snd] in Hget2, Hkeep2.
  rewrite Hget1, Hmap. rewrite Hget2, Hkeep1, Hmap.
  destruct (vec2 edges_orientation _ _) as [o|]; [|discriminate].
  destruct (Mat_set out y x o) as [out'|] eqn:Eset; [|discriminate].
  intros H. injection H as <-. cbn [fst snd].
  destruct (Mat_set_shape _ _ _ _ _ Eset) as (Hr' & Hc' & _).
  split; [|now exists o].
  split; [|split; congruence].
  intros k. now rewrite Hkeep2, Hkeep1.
Qed.

Lemma orientation_grid (out : Mat float) (m' : IntMap (Z * Z)) (out' : Mat float) :
  rows out = R -> cols out = C ->
  for_grid 0 R 1 0 C 1 (edge_orientation_cell labels edges_orientation) (mapOfIndex, out)
  = Some (m', out') ->
  rows out' = R /\ cols out' = C /\
  forall y x, 0 <= y < R -> 0 <= x < C ->
    exists o,
      pixel_orientation labels mapOfIndex edges_orientation y x = Some o /\
      Mat_ptr out' y x = Some o.
Proof.
  intros Hr Hc H. apply for_grid_cells in H.
  apply (for_each_establish_in loop_invariant cell_written) in H.
  - destruct H as [(_ & Hr' & Hc') Hcells]. cbn [snd] in *.
    split; [exact Hr'|]. split; [exact Hc'|].
    intros y x Hy Hx. apply (Hcells (y, x)). now apply grid_cells_unit.
  - intros k [y x] s s' _ Hinv Hbody. cbn [fst snd] in Hbody.
    destruct (edge_orientation_cell_step y x s s' Hinv Hbody) as [Hinv' (o & Ho & Hset)].
    split; [exact Hinv'|]. exists o. cbn [fst snd]. split; [exact Ho|].
    rewrite (Mat_set_ptr _ _ _ _ _ y x Hset). now rewrite Z.eqb_refl.
  - intros k [y x] [y' x'] s s' Hin Hin' Hinv (o' & Ho' & Hread) Hbody.
    cbn [fst snd] in *.
    destruct (edge_orientation_cell_step y x s s' Hinv Hbody) as [_ (o & Ho & Hset)].
    exists o'. cbn [fst snd]. split; [exact Ho'|].
    rewrite (Mat_set_ptr _ _ _ _ _ y' x' Hset).
    destruct (Z.eqb_spec (y' * cols (snd s) + x') (y * cols (snd s) + x)) as [Heq|Hne];
      [|exact Hread].
    apply grid_cells_unit in Hin, Hin'. destruct Hinv as (_ & _ & Hcols).
    rewrite Hcols in Heq.
    destruct (cell_index_inj C y x y' x') as [-> ->]; try tauto.
    congruence.
  - unfold loop_invariant. cbn [fst snd]. now repeat split.
Qed.

End OrientationMap.

Section EdgeOrientations.
Variable getPolarLineEquation : Point -> Point -> double * double.
Variable cv_Canny : Image -> double -> double -> Mat Z.
Variable cv_findContours : Mat Z -> list (list Point).
Variable default_threshold : double.
Variable default_min : nat.

Lemma createMapOfEdgeOrientations_spec st img labels field contours eo st' :
  createMapOfEdgeOrientations getPolarLineEquation cv_Canny cv_findContours
    default_threshold default_min st img labels [] = Some (field, contours, eo, st') ->
  contours = getContours cv_Canny cv_findContours default_min img default_threshold /\
  map (@List.length float) eo = map (@List.length Point) contours /\
  rows field = img_rows img /\ cols field = img_cols img /\
  forall y x, 0 <= y < img_rows img -> 0 <= x < img_cols img ->
    orientation_of_nearest_edge contours labels eo field y x.
Proof.
  unfold createMapOfEdgeOrientations.
  set (cs := getContours cv_Canny cv_findContours default_min img default_threshold).
  destruct (getContoursOrientation_one_per_point getPolarLineEquation st cs [])
    as (new & st1 & -> & Hlen).
  cbn [app].
  destruct (computeEdgeMapIndex cs labels []) as [m0|] eqn:Eindex; [|discriminate].
  destruct (for_grid _ _ _ _ _ _ _ _) as [[m1 out]|] eqn:Egrid; [|discriminate].
  intros H. injection H as <- <- <- <-.
  destruct (orientation_grid labels new (img_rows img) (img_cols img) m0
              (Mat_fill (img_rows img) (img_cols img) f_zero) m1 out
              eq_refl eq_refl Egrid) as (Hr & Hc & Hcells).
  destruct (computeEdgeMapIndex_spec cs labels [] m0) as [Hsound Hcovered]; trivial.
  { intros label idx Hfind. discriminate. }
  repeat split; trivial.
  intros y x Hy Hx. destruct (Hcells y x Hy Hx) as (o & Ho & Hread).
  unfold pixel_orientation in Ho.
  destruct (Mat_ptr labels y x) as [label|] eqn:Elabel; [|discriminate].
  exists label, o. split; [exact Elabel|]. split; [exact Hread|].
  unfold map_get in Ho.
  destruct (map_find Z.ltb label m0) as [idx|] eqn:Efind.
  - left. destruct (Hsound label idx Efind) as (i & j & pt & -> & Hvec & Hpt).
    cbn [fst snd] in Ho. rewrite !Nat2Z.id in Ho. now exists i, j, pt.
  - right. split; [|exact Ho].
    intros i j pt Hvec Hpt. unfold vec2 in Hvec.
    destruct (nth_error cs i) as [contour|] eqn:Ei; [|discriminate].
    destruct (Hcovered contour pt) as (label' & Hl' & Hs');
      [eapply nth_error_In; eassumption | eapply nth_error_In; eassumption |].
    rewrite Hpt in Hl'. injection Hl' as <-. rewrite Efind in Hs'. discriminate.
Qed.

(** X25. The orientation map that [createMapOfEdgeOrientations] returns has
    the size of the image, and every pixel holds the orientation of a contour
    point that lies on a pixel of the same edge label; a pixel whose label is
    the label of no contour point holds the orientation of the first point of
    the first contour.  The contours are the ones of [getContours], with one
    orientation for each of their points. *)
Theorem createMapOfEdgeOrientations_field st img labels field contours eo st' :
  createMapOfEdgeOrientations getPolarLineEquation cv_Canny cv_findContours
    default_threshold default_min st img labels [] = Some (field, contours, eo, st') ->
  contours = getContours cv_Canny cv_findContours default_min img default_threshold /\
  map (@List.length float) eo = map (@List.length Point) contours /\
  rows field = img_rows img /\ cols field = img_cols img /\
  forall y x, 0 <= y < img_rows img -> 0 <= x < img_cols img ->
    orientation_of_nearest_edge contours labels eo field y x.
Proof. apply createMapOfEdgeOrientations_spec. Qed.

(** X26. On an image with at least one pixel in which [getContours] finds no
    contour, [createMapOfEdgeOrientations] reads [edges_orientation[0][0]] in
    a vector without elements: it has no defined result. *)
Theorem createMapOfEdgeOrientations_needs_contours st img labels :
  getContours cv_Canny cv_findContours default_min img default_threshold = [] ->
  0 < img_rows img -> 0 < img_cols img ->
  createMapOfEdgeOrientations getPolarLineEquation cv_Canny cv_findContours
    default_threshold default_min st img labels [] = None.
Proof.
  intros Hnone Hr Hc.
  destruct (createMapOfEdgeOrientations _ _ _ _ _ st img labels [])
    as [[[[field contours] eo] st']|] eqn:Eres; [|reflexivity].
  exfalso.
  destruct (createMapOfEdgeOrientations_spec _ _ _ _ _ _ _ Eres)
    as (Hcs & Hlen & _ & _ & Hcells).
  rewrite Hnone in Hcs. subst contours. destruct eo; [|discriminate].
  destruct (Hcells 0 0) as (label & o & _ & _ & [(i & j & pt & Hvec & _)|[_ Hvec]]);
    try lia; unfold vec2 in Hvec.
  - destruct i; discriminate.
  - discriminate.
Qed.

End EdgeOrientations.

Lemma createMapOfEdgeOrientations_field_witness :
  exists field eo st',
    createMapOfEdgeOrientations example_polar example_Canny example_findContours
      (f64_of_int 50) 1 ChamferMatcher_new (strip_image 7) example_labels []
    = Some (field, [example_contour], eo, st') /\
    data field = floats [3; 3; 5; 5; 5; 5; 5] /\
    forall y x, 0 <= y < 1 -> 0 <= x < 7 ->
      orientation_of_nearest_edge [example_contour] example_labels eo field y x.
Proof.
  eexists. eexists. eexists. split; [vm_compute; reflexivity|]. split; [reflexivity|].
  refine (proj2 (proj2 (proj2 (proj2
            (createMapOfEdgeOrientations_field example_polar example_Canny example_findContours
               (f64_of_int 50) 1 ChamferMatcher_new (strip_image 7) example_labels
               _ _ _ _ _))))).
  vm_compute. reflexivity.
Defined.

Lemma createMapOfEdgeOrientations_needs_contours_witness :
  createMapOfEdgeOrientations example_polar example_Canny no_contours
    (f64_of_int 50) 1 ChamferMatcher_new (strip_image 7) example_labels [] = None.
Proof.
  apply createMapOfEdgeOrientations_needs_contours; reflexivity.
Defined.

(** ** [approximateContours] *)

Section Approximate.
Variable getPolarLineEquation_length : Point -> Point -> double * double * double.
Variable cv_approxPolyDP : list Point -> double -> bool -> list Point.

Lemma contour_lines_loop (approx_contour : list Point) :
  forall (len start k : nat) (lines0 : list Line_info_t),
    List.length lines0 = start ->
    (start + len < List.length approx_contour)%nat ->
    (forall j line, nth_error lines0 j = Some line ->
       nth_error approx_contour j = Some (m_pointStart line) /\
       nth_error approx_contour (S j) = Some (m_PointEnd line)) ->
    exists lines,
      for_each (fun _ j lines =>
                  p <- nth_error approx_contour j ;;
                  q <- nth_error approx_contour (j + 1) ;;
                  let '(theta, rho, length) := getPolarLineEquation_length p q in
                  Some (lines ++ [mkLine length rho theta p q]))
        (seq start len) k lines0 = Some lines /\
      List.length lines = (start + len)%nat /\
      (forall j line, nth_error lines j = Some line ->
         nth_error approx_contour j = Some (m_pointStart line) /\
         nth_error approx_contour (S j) = Some (m_PointEnd line)).
Proof.
  induction len as [|len IH]; intros start k lines0 Hlen Hbound Hgood; cbn [seq for_each].
  - exists lines0. split; [reflexivity|]. split; [lia | exact Hgood].
  - destruct (nth_error_defined approx_contour start) as (p & Hp); [lia|].
    destruct (nth_error_defined approx_contour (start + 1)) as (q & Hq); [lia|].
    rewrite Hp, Hq.
    destruct (getPolarLineEquation_length p q) as [[theta rho] length].
    destruct (IH (S start) (S k) (lines0 ++ [mkLine length rho theta p q]))
      as (lines & -> & Hl & Hg).
    + rewrite length_app. cbn [List.length]. lia.
    + lia.
    + intros j line Hj.
      destruct (Nat.lt_ge_cases j (List.length lines0)) as [Hlt|Hge].
      * rewrite nth_error_app1 in Hj by exact Hlt. now apply Hgood.
      * rewrite nth_error_app2 in Hj by exact Hge.
        destruct (j - List.length lines0)%nat as [|d] eqn:Ed;
          [|destruct d; discriminate].
        cbn [nth_error] in Hj. injection Hj as <-.
        cbn [m_pointStart m_PointEnd].
        replace j with start by lia. split; [exact Hp|].
        now rewrite <- Nat.add_1_r.
    + exists lines. split; [reflexivity|]. split; [lia | exact Hg].
Qed.

Lemma contour_lines_of_spec (approx_contour : list Point) :
  approx_contour <> [] ->
  exists lines,
    contour_lines_of getPolarLineEquation_length approx_contour = Some lines /\
    chained_lines approx_contour lines.
Proof.
  intros Hne. unfold contour_lines_of.
  destruct approx_contour as [|p0 rest] eqn:Eapprox; [congruence|].
  rewrite <- Eapprox.
  destruct (contour_lines_loop approx_contour (List.length approx_contour - 1) 0 0 [])
    as (lines & Hloop & Hl & Hg).
  - reflexivity.
  - rewrite Eapprox. cbn [List.length]. lia.
  - intros j line Hj. destruct j; discriminate.
  - exists lines. split; [exact Hloop|]. split; [|exact Hg].
    rewrite Hl, Eapprox. cbn [List.length]. lia.
Qed.

(** X27. When no approximated contour is empty, [approximateContours]
    pushes to its vector [contour_lines] one vector of lines for every
    contour, with one line for every two consecutive points of the
    approximated contour, from the one point to the next.  (The vector is the
    function's own copy of the caller's vector: the parameter is passed by
    value.) *)
Theorem approximateContours_chains_points (contours : list (list Point))
  (contour_lines : list (list Line_info_t)) (epsilon : double) :
  Forall (fun contour => cv_approxPolyDP contour epsilon true <> []) contours ->
  exists new,
    approximateContours getPolarLineEquation_length cv_approxPolyDP contours contour_lines
      epsilon = Some (contour_lines ++ new) /\
    Forall2 (fun contour lines => chained_lines (cv_approxPolyDP contour epsilon true) lines)
      contours new.
Proof.
  unfold approximateContours. generalize 0%nat. revert contour_lines.
  induction contours as [|c contours IH]; intros acc k Hne; cbn [for_each].
  - exists []. rewrite app_nil_r. split; [reflexivity | constructor].
  - inversion Hne as [|? ? Hc Hrest]; subst.
    destruct (contour_lines_of_spec _ Hc) as (lines & -> & Hchain).
    destruct (IH (acc ++ [lines]) (S k) Hrest) as (new & -> & Hnew).
    exists (lines :: new). rewrite <- app_assoc. split; [reflexivity|].
    now constructor.
Qed.

(** X28. When the approximation of one of the contours has no point, the
    bound [approx_contour.size()-1] of the loop over its lines wraps around
    and the loop reads outside the vector: [approximateContours] has no
    defined result. *)
Theorem approximateContours_empty_approximation (contours : list (list Point))
  (contour_lines : list (list Line_info_t)) (epsilon : double) (contour : list Point) :
  In contour contours -> cv_approxPolyDP contour epsilon true = [] ->
  approximateContours getPolarLineEquation_length cv_approxPolyDP contours contour_lines
    epsilon = None.
Proof.
  unfold approximateContours. generalize 0%nat. revert contour_lines.
  induction contours as [|c contours IH]; intros acc k Hin Hempty; [destruct Hin|].
  cbn [for_each]. destruct Hin as [->|Hin].
  - rewrite Hempty. reflexivity.
  - destruct (contour_lines_of _ _) as [lines|]; [|reflexivity].
    now apply IH.
Qed.

End Approximate.

Lemma approximateContours_chains_points_witness :
  exists lines,
    approximateContours example_polar_length example_approxPolyDP [example_contour] []
      f_zero = Some [lines] /\
    List.length lines = 3%nat /\
    chained_lines example_contour lines.
Proof.
  destruct (approximateContours_chains_points example_polar_length example_approxPolyDP
              [example_contour] [] f_zero) as (new & Hres & Hchain).
  - repeat constructor. discriminate.
  - inversion Hchain as [|c lines cs ls Hc Hnil]; subst. inversion Hnil; subst.
    exists lines. split; [exact Hres|]. split; [|exact Hc].
    destruct Hc as [Hlen _].
    change (S (List.length lines) = 4%nat) in Hlen. lia.
Defined.

Lemma approximateContours_empty_approximation_witness :
  approximateContours example_polar_length example_approxPolyDP [example_contour; []] []
    f_zero = None.
Proof.
  apply (approximateContours_empty_approximation example_polar_length example_approxPolyDP
           [example_contour; []] [] f_zero []).
  - right. left. reflexivity.
  - reflexivity.
Defined.


(** ** [detect] and [detectMultiScale] on templates at one scale *)

Lemma for_each_ext_in {A T : Type} (b1 b2 : nat -> A -> T -> option T) (l : list A) :
  (forall j a s, In a l -> b1 j a s = b2 j a s) ->
  forall j s, for_each b1 l j s = for_each b2 l j s.
Proof.
  induction l as [|a l IH]; intros Hb j s; cbn [for_each]; [reflexivity|].
  rewrite Hb by (now left). destruct (b2 j a s); [|reflexivity].
  apply IH. intros j' a' s' Hin. apply Hb. now right.
Qed.

Section OneScale.
Context {E : Externals}.

(** X29. When every template of the store holds its entry at scale 1 only,
    [detectMultiScale] under the template matching strategy returns what
    [detect] returns, with the same matcher afterwards. *)
Theorem detectMultiScale_at_one_scale st img_query uo thr lambda wf wb nms group :
  m_matchingStrategyType st = templateMatching ->
  Forall only_scale_one (m_mapOfTemplate_info st) ->
  detectMultiScale st img_query uo thr lambda wf wb nms group
  = detect st img_query uo thr lambda wf wb group.
Proof.
  intros Hstrategy Hone. unfold detectMultiScale, detect. rewrite Hstrategy.
  cbn [MatchingStrategyType_eqb].
  set (st1 := set_query_info (prepareQuery (m_cannyThreshold st) img_query) st).
  change (m_mapOfTemplate_info st1) with (m_mapOfTemplate_info st).
  match goal with
  | |- match for_each ?b1 ?l 0%nat [] with _ => _ end
       = match for_each ?b2 ?l 0%nat [] with _ => _ end =>
      rewrite (for_each_ext_in b1 b2 l); [reflexivity|]
  end.
  intros j [id scales] s Hin. rewrite Forall_forall in Hone.
  destruct (Hone _ Hin) as (t & Hscales). cbn [snd] in Hscales. subst scales.
  cbn [for_each map_find]. change (key_equiv fltb f32_one f32_one) with true. cbv iota.
  destruct (detect_impl st1 t f32_one [] uo thr lambda wf wb group) as [cur|];
    [|reflexivity].
  reflexivity.
Qed.

End OneScale.

Lemma detectMultiScale_at_one_scale_witness :
  Forall only_scale_one (m_mapOfTemplate_info (strip_matcher 12 templateMatching)) /\
  detectMultiScale (E := example_externals) (strip_matcher 12 templateMatching)
    (strip_image 12) false (f32_of_int 1) f_zero f32_one f32_one true false
  = detect (E := example_externals) (strip_matcher 12 templateMatching)
      (strip_image 12) false (f32_of_int 1) f_zero f32_one f32_one false.
Proof.
  assert (H : Forall only_scale_one
                (m_mapOfTemplate_info (strip_matcher 12 templateMatching))).
  { repeat constructor. exists strip_template. reflexivity. }
  split; [exact H|].
  exact (detectMultiScale_at_one_scale (E := example_externals)
           (strip_matcher 12 templateMatching) (strip_image 12) false (f32_of_int 1)
           f_zero f32_one f32_one true false eq_refl H).
Defined.

(** ** The pose matching strategy *)

Lemma minScan_spec (l : list float) :
  forall (idx : Z) (v0 : float) (i0 : Z),
    (snd (minScan l idx v0 i0) = i0 /\ fst (minScan l idx v0 i0) = v0) \/
    (idx <= snd (minScan l idx v0 i0) < idx + Z.of_nat (List.length l) /\
     nth_error l (Z.to_nat (snd (minScan l idx v0 i0) - idx))
     = Some (fst (minScan l idx v0 i0))).
Proof.
  induction l as [|a l IH]; intros idx v0 i0; cbn [minScan]; [now left|].
  cbn [List.length]. rewrite Nat2Z.inj_succ.
  destruct (fltb a v0).
  - right. destruct (IH (idx + 1) a idx) as [[Hi Hv]|[Hi Hv]].
    + rewrite Hi, Hv, Z.sub_diag. split; [lia | reflexivity].
    + split; [lia|].
      replace (Z.to_nat (snd (minScan l (idx + 1) a idx) - idx))
        with (S (Z.to_nat (snd (minScan l (idx + 1) a idx) - (idx + 1)))) by lia.
      exact Hv.
  - destruct (IH (idx + 1) v0 i0) as [[Hi Hv]|[Hi Hv]]; [now left|].
    right. split; [lia|].
    replace (Z.to_nat (snd (minScan l (idx + 1) v0 i0) - idx))
      with (S (Z.to_nat (snd (minScan l (idx + 1) v0 i0) - (idx + 1)))) by lia.
    exact Hv.
Qed.

Lemma fltb_inf_l (x : spec_float) : fltb f_inf x = false.
Proof. destruct x as [s|s| |s m e]; try reflexivity; destruct s; reflexivity. Qed.

(** A minimum below the threshold is the value of the cell that
    [cv::minMaxLoc] names. *)
Lemma minMaxLoc_cell (m : Mat float) (thr : float) :
  fltb (fst (minMaxLoc m)) (f64_of_f32 thr) = true ->
  exists n,
    Z.of_nat n = pt_y (snd (minMaxLoc m)) * cols m + pt_x (snd (minMaxLoc m)) /\
    nth_error (data m) n = Some (fst (minMaxLoc m)).
Proof.
  unfold minMaxLoc.
  pose proof (minScan_spec (data m) 1 f_inf 0) as Hscan.
  destruct (minScan (data m) 1 f_inf 0) as [minVal minIdx]. cbn [fst snd pt_x pt_y] in *.
  unfold f64_of_f32 at 1. intros Hbelow.
  destruct Hscan as [[_ ->]|[Hidx Hval]]; [now rewrite fltb_inf_l in Hbelow|].
  destruct (Z.eqb_spec minIdx 0) as [->|_]; [lia|].
  exists (Z.to_nat (minIdx - 1)). split; [|exact Hval].
  pose proof (Z_div_mod_eq_full (minIdx - 1) (cols m)). lia.
Qed.

Lemma cells_below_set (thr : float) (l l' : list float) (n : nat) (v w : float) :
  nth_error l n = Some v ->
  fltb (f64_of_f32 v) (f64_of_f32 thr) = true ->
  fltb (f64_of_f32 w) (f64_of_f32 thr) = false ->
  list_set l n w = Some l' ->
  S (cells_below thr l') = cells_below thr l.
Proof.
  unfold cells_below. revert n l'.
  induction l as [|a l IH]; intros n l' Hnth Hv Hw Hset; [destruct n; discriminate|].
  destruct n as [|n]; cbn [nth_error list_set] in Hnth, Hset.
  - injection Hnth as ->. injection Hset as <-. cbn [filter]. now rewrite Hv, Hw.
  - destruct (list_set l n w) as [l1|] eqn:E1; [|discriminate]. injection Hset as <-.
    cbn [filter]. destruct (fltb (f64_of_f32 a) (f64_of_f32 thr)); cbn [List.length];
      now rewrite <- (IH n l1 Hnth Hv Hw E1).
Qed.

Lemma cells_below_set_le (thr : float) (l l' : list float) (n : nat) (w : float) :
  list_set l n w = Some l' -> (cells_below thr l' <= S (cells_below thr l))%nat.
Proof.
  unfold cells_below. revert n l'.
  induction l as [|a l IH]; intros n l' Hset; [destruct n; discriminate|].
  destruct n as [|n]; cbn [list_set] in Hset.
  - injection Hset as <-. cbn [filter].
    destruct (fltb (f64_of_f32 w) _), (fltb (f64_of_f32 a) _); cbn [List.length]; lia.
  - destruct (list_set l n w) as [l1|] eqn:E1; [|discriminate]. injection Hset as <-.
    cbn [filter]. specialize (IH n l1 E1).
    destruct (fltb (f64_of_f32 a) _); cbn [List.length]; lia.
Qed.

Lemma cells_below_fill (thr v : float) (n : nat) :
  fltb (f64_of_f32 v) (f64_of_f32 thr) = false -> cells_below thr (repeat v n) = 0%nat.
Proof.
  intros Hv. unfold cells_below. induction n as [|n IH]; [reflexivity|].
  cbn [repeat filter]. now rewrite Hv.
Qed.

Section Pose.
Context {E : Externals}.
Variables (t : Template_info_t) (scale thr : float).
Hypothesis Hthr : fltb (f64_of_f32 FLT_MAX) (f64_of_f32 thr) = false.

(** Every detection takes one cell below the threshold out of the map. *)
Lemma extract_loop_count (fuel : nat) :
  forall (map : Mat float) (it : Z) (acc r : list Detection_t),
    extract_loop fuel t scale thr map it acc = Some r ->
    (List.length r <= List.length acc + cells_below thr (data map))%nat.
Proof.
  induction fuel as [|fuel IH]; intros map it acc r H; [discriminate|].
  cbn [extract_loop] in H.
  pose proof (minMaxLoc_cell map thr) as Hcell.
  destruct (minMaxLoc map) as [minVal minLoc]. cbn [fst snd] in Hcell.
  destruct (Mat_set map (pt_y minLoc) (pt_x minLoc) FLT_MAX) as [map'|] eqn:Eset;
    [|discriminate].
  destruct (fltb minVal (f64_of_f32 thr)) eqn:Eb; cbn [andb] in H.
  - destruct (Hcell eq_refl) as (n & Hn & Hnth).
    assert (Hcount : S (cells_below thr (data map')) = cells_below thr (data map)).
    { unfold Mat_set in Eset. rewrite <- Hn in Eset.
      destruct (Z.of_nat n <? 0); [discriminate|]. rewrite Nat2Z.id in Eset.
      destruct (list_set (data map) n FLT_MAX) as [d|] eqn:Ed; [|discriminate].
      injection Eset as <-. cbn [data].
      eapply cells_below_set; [exact Hnth | exact Eb | exact Hthr | exact Ed]. }
    destruct (it + 1 <=? maxLoopIterations).
    + apply IH in H. rewrite length_app in H. cbn [List.length] in H. lia.
    + injection H as <-. rewrite length_app. cbn [List.length]. lia.
  - injection H as <-. lia.
Qed.

Lemma for_range_one (start step : Z) :
  0 < step -> for_range start (start + 1) step = Some [start].
Proof.
  intros Hstep. unfold for_range.
  destruct (Z.leb_spec (start + 1) start); [lia|].
  destruct (Z.leb_spec step 0); [lia|].
  replace ((start + 1 - start + step - 1) / step) with 1
    by (replace (start + 1 - start + step - 1) with step by lia;
        symmetry; apply Z.div_same; lia).
  change (Z.to_nat 1) with 1%nat. cbn [seq map]. f_equal. f_equal. lia.
Qed.

Lemma computeMatchingMap_pose_cells st chamferMap uo lambda wf wb map :
  m_matchingStrategyType st = templatePoseMatching ->
  0 < chamferMapWidth st t -> 0 < chamferMapHeight st t ->
  computeMatchingMap st t chamferMap uo 5 5 lambda wf wb = Some map ->
  (cells_below thr (data map) <= 1)%nat.
Proof.
  unfold chamferMapWidth, chamferMapHeight, computeMatchingMap. intros Hpose HW HH.
  set (W := cols (q_distImg (m_query_info st)) - cols (m_distImg t) + 1) in *.
  set (H := rows (q_distImg (m_query_info st)) - rows (m_distImg t) + 1) in *.
  destruct (Z.leb_spec W 0); [lia|]. destruct (Z.leb_spec H 0); [lia|]. cbn [orb].
  rewrite Hpose. cbn [MatchingStrategyType_eqb]. cbv beta iota.
  destruct (match m_rejectionType st with
            | noRejection => _ | gridDescriptorRejection => _ end) as [mask|]; [|discriminate].
  unfold for_grid. rewrite !for_range_one by lia. cbn [for_each].
  destruct (Mat_ptr mask _ _) as [keep|]; [|discriminate].
  assert (Hfill : cells_below thr (data (Mat_fill H W FLT_MAX)) = 0%nat)
    by (apply cells_below_fill, Hthr).
  destruct (keep =? 0).
  - intros Hmap. injection Hmap as <-. lia.
  - destruct (cost_at st t _ _ uo lambda wf wb) as [cost|]; [|discriminate].
    destruct (Mat_set _ _ _ _) as [map1|] eqn:Eset; [|discriminate].
    intros Hmap. injection Hmap as <-.
    unfold Mat_set in Eset. destruct (_ <? 0); [discriminate|].
    destruct (list_set _ _ _) as [d|] eqn:Ed; [|discriminate].
    injection Eset as <-. cbn [data] in *.
    apply (cells_below_set_le thr) in Ed. lia.
Qed.

Lemma detect_impl_pose_count st uo lambda wf wb l :
  m_matchingStrategyType st = templatePoseMatching ->
  detect_impl st t scale [] uo thr lambda wf wb false = Some l ->
  (List.length l <= 1)%nat.
Proof.
  intros Hpose. unfold detect_impl.
  destruct (computeMatchingMap st t Mat_new uo 5 5 lambda wf wb) as [map|] eqn:Emap;
    [|discriminate].
  destruct (Mat_empty map) eqn:Eempty; cbn [negb].
  { intros H. injection H as <-. cbn [List.length]. lia. }
  destruct (extract_loop extract_fuel t scale thr map 0 []) as [raw|] eqn:Eraw;
    [|discriminate].
  intros H. injection H as <-. rewrite std_sort_length.
  apply extract_loop_count in Eraw. cbn [List.length] in Eraw.
  assert (Hdims : 0 < chamferMapWidth st t /\ 0 < chamferMapHeight st t).
  { destruct (Z.leb_spec (chamferMapWidth st t) 0) as [Hw|Hw];
      [|destruct (Z.leb_spec (chamferMapHeight st t) 0) as [Hh|Hh]; [|lia]];
      exfalso; unfold computeMatchingMap in Emap;
      fold (chamferMapWidth st t) (chamferMapHeight st t) in Emap.
    - apply Z.leb_le in Hw. rewrite Hw in Emap. cbn [orb] in Emap.
      injection Emap as <-. discriminate.
    - apply Z.leb_le in Hh. rewrite Hh, orb_true_r in Emap.
      injection Emap as <-. discriminate. }
  destruct Hdims as [HW HH].
  pose proof (computeMatchingMap_pose_cells st Mat_new uo lambda wf wb map Hpose HW HH Emap).
  lia.
Qed.

End Pose.

Section PoseStrategy.
Context {E : Externals}.

(** X30. Under the pose matching strategy the cost is computed at the
    location of the template only: for a threshold that is not above
    [FLT_MAX], [detect_impl] without grouping returns at most one
    detection. *)
Theorem detect_impl_pose_at_most_one st t scale uo thr lambda wf wb l :
  m_matchingStrategyType st = templatePoseMatching ->
  fltb (f64_of_f32 FLT_MAX) (f64_of_f32 thr) = false ->
  detect_impl st t scale [] uo thr lambda wf wb false = Some l ->
  (List.length l <= 1)%nat.
Proof.
  intros Hpose Hthr H. exact (detect_impl_pose_count t scale thr Hthr st uo lambda wf wb l Hpose H).
Qed.

End PoseStrategy.

Lemma detect_impl_pose_at_most_one_witness :
  exists l,
    detect_impl (E := example_externals) (strip_matcher 12 templatePoseMatching)
      strip_template f32_one [] false (f32_of_int 1) f_zero f32_one f32_one false = Some l /\
    map m_boundingBox l = [mkRect 0 0 2 1] /\
    (List.length l <= 1)%nat.
Proof.
  eexists. split; [vm_compute; reflexivity|]. split; [reflexivity|].
  apply (detect_impl_pose_at_most_one (E := example_externals)
           (strip_matcher 12 templatePoseMatching) strip_template f32_one false
           (f32_of_int 1) f_zero f32_one f32_one).
  - reflexivity.
  - reflexivity.
  - vm_compute. reflexivity.
Defined.

